(** * DraftNote: the editable-document core of [src/App.tsx]

    A shallow embedding of the handlers of the [App] component and of the
    part of the browser they drive, followed by the properties of the
    export pipeline, the image widget factory, the cursor tracker, the
    composition guard and the debounced autosave. *)

From Stdlib Require Import List String Ascii Bool ZArith NArith QArith Qround Qminmax Qabs Qpower Lia Lqa.
Import ListNotations.

Set Warnings "-register-all".
Close Scope Q_scope.

(** ** JavaScript strings

    A JavaScript string is a sequence of UTF-16 code units.  The handlers
    use [trim], [split], [startsWith] and truthiness of strings. *)
Module JS.

Definition char16 := N.
Definition jsstring := list char16.

(** An ASCII literal of the source as a sequence of code units. *)
Definition lit (s : string) : jsstring :=
  map N_of_ascii (list_ascii_of_string s).

Fixpoint eqb (a b : jsstring) : bool :=
  match a, b with
  | [], [] => true
  | x :: a', y :: b' => N.eqb x y && eqb a' b'
  | _, _ => false
  end.

(** Truthiness of a string value: every string but the empty one. *)
Definition truthy (s : jsstring) : bool :=
  match s with [] => false | _ :: _ => true end.

(** ECMAScript WhiteSpace and LineTerminator code points, the set that
    [String.prototype.trim] strips.  U+200B (zero width space) is not in it. *)
Definition isWhiteSpace (c : char16) : bool :=
  let z := Z.of_N c in
  ((9 <=? z) && (z <=? 13) || (z =? 32) || (z =? 160) || (z =? 5760)
   || (8192 <=? z) && (z <=? 8202) || (z =? 8232) || (z =? 8233)
   || (z =? 8239) || (z =? 8287) || (z =? 12288) || (z =? 65279))%Z.

Fixpoint trimStart (s : jsstring) : jsstring :=
  match s with
  | [] => []
  | c :: s' => if isWhiteSpace c then trimStart s' else s
  end.

Definition trimEnd (s : jsstring) : jsstring := rev (trimStart (rev s)).

Definition trim (s : jsstring) : jsstring := trimEnd (trimStart s).

(** [s.split(sep)] for a separator of one code unit. *)
Fixpoint split (sep : char16) (s : jsstring) : list jsstring :=
  match s with
  | [] => [[]]
  | c :: s' =>
      if N.eqb c sep then [] :: split sep s'
      else match split sep s' with
           | l :: ls => (c :: l) :: ls
           | [] => [[c]]
           end
  end.

Fixpoint startsWith (s prefix : jsstring) : bool :=
  match prefix, s with
  | [], _ => true
  | p :: prefix', c :: s' => N.eqb c p && startsWith s' prefix'
  | _ :: _, [] => false
  end.

Definition LF : char16 := 10%N.
Definition COMMA : char16 := 44%N.
Definition SPACE : char16 := 32%N.
(** U+200B, the zero width space. *)
Definition ZWSP : char16 := 8203%N.

End JS.

Import JS.

(** ** JavaScript numbers in the aspect-fit computation

    A number is an IEEE 754 binary64 value; the finite ones are rationals.
    The operands here are image dimensions, integers from the DOM, and the
    quotients and products stay far from overflow and underflow, so division
    and multiplication are the exact operation followed by rounding to the
    nearest value with a significand of 53 bits, ties to even.
    [Math.round] is the integer nearest to its argument, the upper one at a
    tie. *)
Module Num.

Definition two : Q := 2 # 1.

(** The integer nearest to [s], the even one at a tie. *)
Definition roundHalfEven (s : Q) : Z :=
  let q := Qfloor s in
  match Qcompare (s - inject_Z q)%Q (1 # 2) with
  | Lt => q
  | Gt => (q + 1)%Z
  | Eq => if Z.even q then q else (q + 1)%Z
  end.

(** Rounding to binary64: [x] is scaled by a power of two into
    [2^52, 2^53), rounded to an integer, and scaled back. *)
Definition binary64 (x : Q) : Q :=
  match Qnum x with
  | Z0 => 0%Q
  | _ =>
      let ax := Qabs x in
      let e1 := (Z.log2 (Qnum ax) - Z.log2 (Zpos (Qden ax)) - 52)%Z in
      let e := if Qle_bool (inject_Z (2 ^ 52)) (ax / Qpower two e1)%Q
               then e1 else (e1 - 1)%Z in
      let m := roundHalfEven (ax / Qpower two e)%Q in
      let r := (inject_Z m * Qpower two e)%Q in
      if (Qnum x <? 0)%Z then (- r)%Q else r
  end.

(** [a / b] and [a * b] on numbers. *)
Definition fdiv (a b : Q) : Q := binary64 (a / b)%Q.
Definition fmul (a b : Q) : Q := binary64 (a * b)%Q.

Definition Math_round (x : Q) : Z := Qfloor (x + (1 # 2))%Q.

Definition Math_min (a b : Q) : Q := Qmin a b.

(** [a || b] on numbers: [a] unless it is zero. *)
Definition or_else (a b : N) : N := if N.eqb a 0 then b else a.

End Num.

Import Num.

(** ** The browser's [atob]: forgiving base64 decoding of the HTML Standard *)
Module Base64.

Definition isAsciiWhitespace (c : char16) : bool :=
  (N.eqb c 9 || N.eqb c 10 || N.eqb c 12 || N.eqb c 13 || N.eqb c 32)%N.

Definition EQUALS : char16 := 61%N.

(** The value of a character of the base64 alphabet. *)
Definition sextet (c : char16) : option N :=
  if (65 <=? c)%N && (c <=? 90)%N then Some (c - 65)%N
  else if (97 <=? c)%N && (c <=? 122)%N then Some (c - 71)%N
  else if (48 <=? c)%N && (c <=? 57)%N then Some (c + 4)%N
  else if N.eqb c 43 then Some 62%N
  else if N.eqb c 47 then Some 63%N
  else None.

Fixpoint sextets (s : jsstring) : option (list N) :=
  match s with
  | [] => Some []
  | c :: s' =>
      match sextet c, sextets s' with
      | Some v, Some vs => Some (v :: vs)
      | _, _ => None
      end
  end.

(** Drop one or two trailing [=] when the length is a multiple of four. *)
Definition stripPadding (s : jsstring) : jsstring :=
  if Nat.eqb (Nat.modulo (List.length s) 4) 0 then
    match rev s with
    | a :: b :: r =>
        if N.eqb a EQUALS then
          if N.eqb b EQUALS then rev r else rev (b :: r)
        else s
    | _ => s
    end
  else s.

(** Groups of four sextets give three bytes; a rest of two gives one byte,
    a rest of three gives two, the surplus bits are discarded. *)
Fixpoint bytesOf (fuel : nat) (v : list N) : list N :=
  match fuel with
  | O => []
  | S fuel' =>
      match v with
      | a :: b :: c :: d :: r =>
          let w := (a * 262144 + b * 4096 + c * 64 + d)%N in
          (w / 65536)%N :: ((w / 256) mod 256)%N :: (w mod 256)%N
            :: bytesOf fuel' r
      | [a; b; c] =>
          let w := (a * 4096 + b * 64 + c)%N in
          [(w / 1024)%N; ((w / 4) mod 256)%N]
      | [a; b] => [((a * 64 + b) / 16)%N]
      | _ => []
      end
  end.

(** [atob s]: the decoded bytes, or [None] where the browser throws
    [InvalidCharacterError]. *)
Definition atob (s : jsstring) : option (list N) :=
  let data := stripPadding (filter (fun c => negb (isAsciiWhitespace c)) s) in
  if Nat.eqb (Nat.modulo (List.length data) 4) 1 then None
  else match sextets data with
       | Some v => Some (bytesOf (S (List.length v)) v)
       | None => None
       end.

End Base64.

(** ** The content tree and the portable document *)
Module ExportPipeline.

(** The properties of [HTMLImageElement] read by the export. *)
Record ImgMetrics := {
  naturalWidth : N;
  naturalHeight : N;
  width : N;
  height : N
}.

(** A DOM node as [processNode] sees it: its [nodeType], and for an element
    its [tagName], attributes, image properties and [childNodes]. *)
Inductive Node :=
| TextNode (data : jsstring)
| CommentNode (data : jsstring)
| ElementNode (tagName : jsstring) (attributes : list (jsstring * jsstring))
    (metrics : ImgMetrics) (childNodes : list Node).

(** A run of the [docx] library: [TextRun] or [ImageRun] with its
    [transformation]. *)
Inductive Run :=
| TextRun (text : jsstring)
| ImageRun (data : list N) (width height : Z).

Record Paragraph := { children : list Run }.

Inductive ConsoleEntry :=
| FailedToProcessImage.

(** The [children] array being filled, and what went to [console.error]. *)
Record ExportState := {
  paragraphs : list Paragraph;
  console : list ConsoleEntry
}.

Definition push (p : Paragraph) (st : ExportState) : ExportState :=
  {| paragraphs := paragraphs st ++ [p]; console := console st |}.

Definition consoleError (e : ConsoleEntry) (st : ExportState) : ExportState :=
  {| paragraphs := paragraphs st; console := console st ++ [e] |}.

Fixpoint getAttribute (name : jsstring) (attrs : list (jsstring * jsstring))
  : option jsstring :=
  match attrs with
  | [] => None
  | (k, v) :: attrs' => if JS.eqb k name then Some v else getAttribute name attrs'
  end.

(** The tokens of a [class] attribute, separated by ASCII whitespace. *)
Fixpoint tokens (cur : jsstring) (s : jsstring) : list jsstring :=
  match s with
  | [] => match cur with [] => [] | _ => [rev cur] end
  | c :: s' =>
      if Base64.isAsciiWhitespace c
      then match cur with [] => tokens [] s' | _ => rev cur :: tokens [] s' end
      else tokens (c :: cur) s'
  end.

Definition classList_contains (attrs : list (jsstring * jsstring))
  (token : jsstring) : bool :=
  match getAttribute (lit "class") attrs with
  | Some v => existsb (JS.eqb token) (tokens [] v)
  | None => false
  end.

(** [node.textContent]: the data of the text descendants in tree order. *)
Fixpoint textContent (node : Node) : jsstring :=
  match node with
  | TextNode data => data
  | CommentNode _ => []
  | ElementNode _ _ _ kids =>
      (fix all (l : list Node) : jsstring :=
         match l with
         | [] => []
         | k :: l' => textContent k ++ all l'
         end) kids
  end.

(** [element.querySelector("img")]: the first [IMG] descendant in tree
    order, as its attributes and image properties. *)
Fixpoint firstImg (node : Node)
  : option (list (jsstring * jsstring) * ImgMetrics) :=
  match node with
  | TextNode _ | CommentNode _ => None
  | ElementNode tag attrs m kids =>
      if JS.eqb tag (lit "IMG") then Some (attrs, m)
      else (fix first (l : list Node) :=
              match l with
              | [] => None
              | k :: l' =>
                  match firstImg k with
                  | Some r => Some r
                  | None => first l'
                  end
              end) kids
  end.

Fixpoint querySelector_img (kids : list Node)
  : option (list (jsstring * jsstring) * ImgMetrics) :=
  match kids with
  | [] => None
  | k :: kids' =>
      match firstImg k with
      | Some r => Some r
      | None => querySelector_img kids'
      end
  end.

Definition maxWidth : Z := 600.
Definition maxHeight : Z := 450.

(** Lines 347-367 and 406-429: the export size of an image. *)
Definition exportSize (originalWidth originalHeight : Z) : Z * Z :=
  if (originalWidth >? maxWidth)%Z || (originalHeight >? maxHeight)%Z then
    let widthRatio := fdiv (inject_Z maxWidth) (inject_Z originalWidth) in
    let heightRatio := fdiv (inject_Z maxHeight) (inject_Z originalHeight) in
    let ratio := Math_min widthRatio heightRatio in
    (Math_round (fmul (inject_Z originalWidth) ratio),
     Math_round (fmul (inject_Z originalHeight) ratio))
  else (originalWidth, originalHeight).

Definition originalWidth (m : ImgMetrics) : Z :=
  Z.of_N (or_else (or_else (naturalWidth m) (width m)) 400).

Definition originalHeight (m : ImgMetrics) : Z :=
  Z.of_N (or_else (or_else (naturalHeight m) (height m)) 300).

(** The body shared by the [IMG] branch and the [inline-image] branch:
    the [try] block around the image of attributes [attrs]. *)
Definition processImage (attrs : list (jsstring * jsstring)) (m : ImgMetrics)
  (st : ExportState) : ExportState :=
  match getAttribute (lit "src") attrs with
  | None => st
  | Some src =>
      if truthy src && startsWith src (lit "data:image/") then
        let '(exportWidth, exportHeight) :=
          exportSize (originalWidth m) (originalHeight m) in
        let base64Data :=
          match nth_error (split COMMA src) 1 with
          | Some d => d
          | None => lit "undefined"
          end in
        match Base64.atob base64Data with
        | Some bytes =>
            push {| children := [ImageRun bytes exportWidth exportHeight] |} st
        | None => consoleError FailedToProcessImage st
        end
      else st
  end.

(** Lines 324-337: a text node. *)
Definition processText (data : jsstring) (st : ExportState) : ExportState :=
  let text := trim data in
  if truthy text then
    fold_left
      (fun st line =>
         if truthy (trim line)
         then push {| children := [TextRun line] |} st
         else st)
      (split LF text) st
  else st.

(** Lines 323-474: [processNode]. *)
Fixpoint processNode (node : Node) (st : ExportState) : ExportState :=
  match node with
  | TextNode data => processText data st
  | CommentNode _ => st
  | ElementNode tag attrs m kids =>
      if JS.eqb tag (lit "IMG") then processImage attrs m st
      else if JS.eqb tag (lit "SPAN")
              && classList_contains attrs (lit "inline-image") then
        match querySelector_img kids with
        | Some (iattrs, im) => processImage iattrs im st
        | None => st
        end
      else if JS.eqb tag (lit "DIV") || JS.eqb tag (lit "P") then
        (fix each (l : list Node) (st : ExportState) : ExportState :=
           match l with
           | [] => st
           | k :: l' => each l' (processNode k st)
           end) kids st
      else
        let text := trim (textContent node) in
        if truthy text then push {| children := [TextRun text] |} st else st
  end.

(** The loops over [childNodes]. *)
Fixpoint processNodes (l : list Node) (st : ExportState) : ExportState :=
  match l with
  | [] => st
  | k :: l' => processNodes l' (processNode k st)
  end.

End ExportPipeline.

(** ** The live document: trees, boundary points, ranges, the selection

    The part of the DOM Standard and of the Selection API that the handlers
    call, over the node type of the export.  A node is named by the tree it
    is in and its path from the root of that tree; tree [0] is the document,
    the others are detached subtrees still referenced by scripts. *)
Module Dom.

Import ExportPipeline.

Inductive DOMException :=
| IndexSizeError
| HierarchyRequestError
| InvalidNodeTypeError
| TypeError.

(** A call that returns or throws. *)
Inductive result (A : Type) :=
| Ok (a : A)
| Throw (e : DOMException).
Arguments Ok {A} a.
Arguments Throw {A} e.

Definition bind {A B} (r : result A) (f : A -> result B) : result B :=
  match r with
  | Ok a => f a
  | Throw e => Throw e
  end.

Notation "x <- c1 ;; c2" := (bind c1 (fun x => c2))
  (at level 61, c1 at next level, right associativity).
Notation "' pat <- c1 ;; c2" := (bind c1 (fun x => match x with pat => c2 end))
  (at level 61, pat pattern, c1 at next level, right associativity).

(** A path: the child indices from the root of a tree down to a node. *)
Abbreviation path := (list nat).

Record NodeRef := { tree : nat; at_path : path }.

Record BoundaryPoint := { container : NodeRef; offset : nat }.

Record Range := { rangeStart : BoundaryPoint; rangeEnd : BoundaryPoint }.

Record Page := {
  trees : list Node;
  selection : option Range
}.

(** The length of a node: code units of character data, children of an
    element. *)
Definition nodeLength (n : Node) : nat :=
  match n with
  | TextNode d | CommentNode d => List.length d
  | ElementNode _ _ _ kids => List.length kids
  end.

Definition childNodes (n : Node) : list Node :=
  match n with
  | ElementNode _ _ _ kids => kids
  | _ => []
  end.

Fixpoint lookup (n : Node) (p : path) : option Node :=
  match p with
  | [] => Some n
  | i :: p' =>
      match nth_error (childNodes n) i with
      | Some k => lookup k p'
      | None => None
      end
  end.

Definition resolve (pg : Page) (r : NodeRef) : option Node :=
  match nth_error (trees pg) (tree r) with
  | Some t => lookup t (at_path r)
  | None => None
  end.

(** Replace the child list of the element at path [p]. *)
Fixpoint updateChildren (n : Node) (p : path) (f : list Node -> list Node)
  : option Node :=
  match p, n with
  | [], ElementNode t a m kids => Some (ElementNode t a m (f kids))
  | i :: p', ElementNode t a m kids =>
      match nth_error kids i with
      | Some k =>
          match updateChildren k p' f with
          | Some k' => Some (ElementNode t a m (firstn i kids ++ k' :: skipn (S i) kids))
          | None => None
          end
      | None => None
      end
  | _, _ => None
  end.

Definition setTree (pg : Page) (i : nat) (t : Node) : Page :=
  {| trees := firstn i (trees pg) ++ t :: skipn (S i) (trees pg);
     selection := selection pg |}.

Inductive Position := Before | Equal | After.

(** The position of the boundary point [(pa, oa)] relative to [(pb, ob)] of
    the same tree. *)
Fixpoint comparePoints (pa : path) (oa : nat) (pb : path) (ob : nat)
  : Position :=
  match pa, pb with
  | [], [] =>
      if oa <? ob then Before else if ob <? oa then After else Equal
  | [], c :: _ => if c <? oa then After else Before
  | c :: _, [] => if c <? ob then Before else After
  | a :: pa', b :: pb' =>
      if a =? b then comparePoints pa' oa pb' ob
      else if a <? b then Before else After
  end.

Definition isAfter (a b : BoundaryPoint) : bool :=
  match comparePoints (at_path (container a)) (offset a)
          (at_path (container b)) (offset b) with
  | After => true
  | _ => false
  end.

Definition sameTree (a b : BoundaryPoint) : bool :=
  tree (container a) =? tree (container b).

Fixpoint pathEqb (p q : path) : bool :=
  match p, q with
  | [], [] => true
  | a :: p', b :: q' => (a =? b) && pathEqb p' q'
  | _, _ => false
  end.

Fixpoint isPrefix (p q : path) : bool :=
  match p, q with
  | [], _ => true
  | a :: p', b :: q' => (a =? b) && isPrefix p' q'
  | _ :: _, [] => false
  end.

Fixpoint commonPrefix (p q : path) : path :=
  match p, q with
  | a :: p', b :: q' => if a =? b then a :: commonPrefix p' q' else []
  | _, _ => []
  end.

(** [document.createRange()]: both ends at the start of the document. *)
Definition createRange : Range :=
  let bp := {| container := {| tree := 0; at_path := [] |}; offset := 0 |} in
  {| rangeStart := bp; rangeEnd := bp |}.

Definition collapsed (r : Range) : bool :=
  sameTree (rangeStart r) (rangeEnd r)
  && pathEqb (at_path (container (rangeStart r))) (at_path (container (rangeEnd r)))
  && (offset (rangeStart r) =? offset (rangeEnd r)).

(** [range.setStart(node, offset)]. *)
Definition setStart (pg : Page) (r : Range) (node : NodeRef) (off : nat)
  : result Range :=
  match resolve pg node with
  | None => Throw TypeError
  | Some n =>
      if nodeLength n <? off then Throw IndexSizeError
      else
        let bp := {| container := node; offset := off |} in
        if negb (sameTree bp (rangeEnd r)) || isAfter bp (rangeEnd r)
        then Ok {| rangeStart := bp; rangeEnd := bp |}
        else Ok {| rangeStart := bp; rangeEnd := rangeEnd r |}
  end.

(** [range.setEnd(node, offset)]. *)
Definition setEnd (pg : Page) (r : Range) (node : NodeRef) (off : nat)
  : result Range :=
  match resolve pg node with
  | None => Throw TypeError
  | Some n =>
      if nodeLength n <? off then Throw IndexSizeError
      else
        let bp := {| container := node; offset := off |} in
        if negb (sameTree bp (rangeStart r)) || isAfter (rangeStart r) bp
        then Ok {| rangeStart := bp; rangeEnd := bp |}
        else Ok {| rangeStart := rangeStart r; rangeEnd := bp |}
  end.

(** [range.setStartAfter(node)]: the point after [node] in its parent. *)
Definition setStartAfter (pg : Page) (r : Range) (node : NodeRef)
  : result Range :=
  match rev (at_path node) with
  | [] => Throw InvalidNodeTypeError
  | i :: rparent =>
      setStart pg r {| tree := tree node; at_path := rev rparent |} (S i)
  end.

(** [range.selectNodeContents(node)]. *)
Definition selectNodeContents (pg : Page) (node : NodeRef) : result Range :=
  match resolve pg node with
  | None => Throw TypeError
  | Some n =>
      Ok {| rangeStart := {| container := node; offset := 0 |};
            rangeEnd := {| container := node; offset := nodeLength n |} |}
  end.

(** [range.collapse(toStart)]. *)
Definition collapse (r : Range) (toStart : bool) : Range :=
  if toStart then {| rangeStart := rangeStart r; rangeEnd := rangeStart r |}
  else {| rangeStart := rangeEnd r; rangeEnd := rangeEnd r |}.

(** [range.commonAncestorContainer] and [node.contains(other)]. *)
Definition commonAncestorContainer (r : Range) : NodeRef :=
  {| tree := tree (container (rangeStart r));
     at_path := commonPrefix (at_path (container (rangeStart r)))
                  (at_path (container (rangeEnd r))) |}.

Definition contains (node other : NodeRef) : bool :=
  (tree node =? tree other) && isPrefix (at_path node) (at_path other).

(** [selection.removeAllRanges()] and [selection.addRange(range)]: a range
    whose root is not the document is ignored, and so is a second range. *)
Definition removeAllRanges (pg : Page) : Page :=
  {| trees := trees pg; selection := None |}.

Definition addRange (pg : Page) (r : Range) : Page :=
  if negb (tree (container (rangeStart r)) =? 0) then pg
  else match selection pg with
       | Some _ => pg
       | None => {| trees := trees pg; selection := Some r |}
       end.

(** *** Mutations through a range *)

(** Where a boundary point is after a node was inserted as child [j] of the
    element at [pp] of tree [t]. *)
Definition shiftInsert (t : nat) (pp : path) (j : nat) (bp : BoundaryPoint)
  : BoundaryPoint :=
  let p := at_path (container bp) in
  if negb (tree (container bp) =? t) then bp
  else if pathEqb p pp then
    if j <? offset bp
    then {| container := container bp; offset := S (offset bp) |}
    else bp
  else if isPrefix pp p then
    match skipn (List.length pp) p with
    | c :: rest =>
        if j <=? c
        then {| container := {| tree := t; at_path := pp ++ S c :: rest |};
                offset := offset bp |}
        else bp
    | [] => bp
    end
  else bp.

(** Where a boundary point is after the text node that is child [k] of the
    element at [pp] was split at [off]: the tail is the new child [k + 1]. *)
Definition shiftSplit (t : nat) (pp : path) (k off : nat) (bp : BoundaryPoint)
  : BoundaryPoint :=
  let p := at_path (container bp) in
  if negb (tree (container bp) =? t) then bp
  else if pathEqb p pp then
    if k <? offset bp
    then {| container := container bp; offset := S (offset bp) |}
    else bp
  else if pathEqb p (pp ++ [k]) then
    if off <? offset bp
    then {| container := {| tree := t; at_path := pp ++ [S k] |};
            offset := offset bp - off |}
    else bp
  else if isPrefix pp p then
    match skipn (List.length pp) p with
    | c :: rest =>
        if k <? c
        then {| container := {| tree := t; at_path := pp ++ S c :: rest |};
                offset := offset bp |}
        else bp
    | [] => bp
    end
  else bp.

Definition insertAt (j : nat) (node : Node) (kids : list Node) : list Node :=
  firstn j kids ++ node :: skipn j kids.

Definition splitAt (k off : nat) (d : jsstring) (kids : list Node)
  : list Node :=
  firstn k kids ++ TextNode (firstn off d) :: TextNode (skipn off d)
    :: skipn (S k) kids.

(** The end of [range.insertNode]: the node went in as child [j] of the
    element at [pp]; a collapsed range is extended over it. *)
Definition afterInsert (pg : Page) (t : nat) (pp : path) (j : nat)
  (r : Range) : Page * Range * NodeRef :=
  let parent := {| tree := t; at_path := pp |} in
  let r' := if collapsed r
            then {| rangeStart := rangeStart r;
                    rangeEnd := {| container := parent; offset := S j |} |}
            else r in
  (pg, r', {| tree := t; at_path := pp ++ [j] |}).

(** [range.insertNode(node)] for a node that is not in any tree yet.  The
    result is the page, the range, and where the node now is. *)
Definition insertNode (pg : Page) (r : Range) (node : Node)
  : result (Page * Range * NodeRef) :=
  let s := rangeStart r in
  let t := tree (container s) in
  match nth_error (trees pg) t with
  | None => Throw TypeError
  | Some root =>
      match lookup root (at_path (container s)) with
      | None => Throw TypeError
      | Some (CommentNode _) => Throw HierarchyRequestError
      | Some (TextNode d) =>
          match rev (at_path (container s)) with
          | [] => Throw HierarchyRequestError
          | k :: rpp =>
              let pp := rev rpp in
              if List.length d <? offset s then Throw IndexSizeError
              else
                match updateChildren root pp
                        (fun kids => insertAt (S k) node (splitAt k (offset s) d kids)) with
                | None => Throw TypeError
                | Some root' =>
                    let move bp := shiftInsert t pp (S k) (shiftSplit t pp k (offset s) bp) in
                    Ok (afterInsert (setTree pg t root') t pp (S k)
                          {| rangeStart := move (rangeStart r);
                             rangeEnd := move (rangeEnd r) |})
                end
          end
      | Some (ElementNode _ _ _ kids) =>
          let pp := at_path (container s) in
          let j := Nat.min (offset s) (List.length kids) in
          match updateChildren root pp (insertAt j node) with
          | None => Throw TypeError
          | Some root' =>
              let move bp := shiftInsert t pp j bp in
              Ok (afterInsert (setTree pg t root') t pp j
                    {| rangeStart := move (rangeStart r);
                       rangeEnd := move (rangeEnd r) |})
          end
      end
  end.

(** What [range.deleteContents] leaves of a node cut by the range: [s] and
    [e] are the start and the end of the range where they lie inside the
    node, as a path below the node and an offset; [None] is a side on which
    the range extends past the node. *)
Definition cutData (d : jsstring) (s e : option (path * nat)) : jsstring :=
  let lo := match s with Some (_, o) => o | None => 0 end in
  let hi := match e with Some (_, o) => o | None => List.length d end in
  firstn lo d ++ skipn hi d.

Inductive Side :=
| Outside
| Inside
| Holds (b : path * nat).

Definition startSide (s : option (path * nat)) (i : nat) : Side :=
  match s with
  | None => Inside
  | Some ([], o) => if i <? o then Outside else Inside
  | Some (c :: p, o) =>
      if i <? c then Outside else if i =? c then Holds (p, o) else Inside
  end.

Definition endSide (e : option (path * nat)) (i : nat) : Side :=
  match e with
  | None => Inside
  | Some ([], o) => if i <? o then Inside else Outside
  | Some (c :: p, o) =>
      if i <? c then Inside else if i =? c then Holds (p, o) else Outside
  end.

(** The children of an element cut by the range: a child wholly in the
    range goes, a child that holds an end of the range is cut in turn, the
    others stay.  [i] is the index of the first child of [l]. *)
Section CutChildren.
Variable cutNode : Node -> option (path * nat) -> option (path * nat) -> Node.
Variables s e : option (path * nat).

Fixpoint cutChildren (i : nat) (l : list Node) : list Node :=
  match l with
  | [] => []
  | k :: l' =>
      match startSide s i, endSide e i with
      | Outside, _ | _, Outside => k :: cutChildren (S i) l'
      | Inside, Inside => cutChildren (S i) l'
      | Holds b, Inside => cutNode k (Some b) None :: cutChildren (S i) l'
      | Inside, Holds b => cutNode k None (Some b) :: cutChildren (S i) l'
      | Holds b, Holds b' => cutNode k (Some b) (Some b') :: cutChildren (S i) l'
      end
  end.
End CutChildren.

Fixpoint cut (n : Node) (s e : option (path * nat)) : Node :=
  match n with
  | TextNode d => TextNode (cutData d s e)
  | CommentNode d => CommentNode (cutData d s e)
  | ElementNode tg a m kids => ElementNode tg a m (cutChildren cut s e 0 kids)
  end.

(** [range.deleteContents()]: the contained nodes go, the character data at
    both ends is cut, and the range collapses where the content was. *)
Definition deleteContents (pg : Page) (r : Range) : Page * Range :=
  if collapsed r then (pg, r)
  else
    let s := rangeStart r in
    let e := rangeEnd r in
    let t := tree (container s) in
    let ps := at_path (container s) in
    let pe := at_path (container e) in
    match nth_error (trees pg) t with
    | None => (pg, r)
    | Some root =>
        let root' := cut root (Some (ps, offset s)) (Some (pe, offset e)) in
        let bp :=
          if isPrefix ps pe then s
          else
            let cp := commonPrefix ps pe in
            match nth_error ps (List.length cp) with
            | Some c => {| container := {| tree := t; at_path := cp |};
                           offset := S c |}
            | None => s
            end in
        (setTree pg t root', {| rangeStart := bp; rangeEnd := bp |})
    end.

End Dom.

(** ** [JSON.stringify] on the values the application stores *)
Module Json.

Inductive value :=
| JString (s : jsstring)
| JNumber (n : Z)
| JObject (fields : list (jsstring * value)).

Definition QUOTE : char16 := 34%N.
Definition BACKSLASH : char16 := 92%N.

Definition hexDigit (n : N) : char16 :=
  if (n <? 10)%N then (48 + n)%N else (87 + n)%N.

(** The escape [\uXXXX] of a code unit. *)
Definition unicodeEscape (c : char16) : jsstring :=
  [BACKSLASH; 117%N; hexDigit (c / 4096)%N; hexDigit ((c / 256) mod 16)%N;
   hexDigit ((c / 16) mod 16)%N; hexDigit (c mod 16)%N].

Definition isHighSurrogate (c : char16) : bool :=
  ((55296 <=? c) && (c <=? 56319))%N.
Definition isLowSurrogate (c : char16) : bool :=
  ((56320 <=? c) && (c <=? 57343))%N.

(** QuoteJSONString without the enclosing quotes: the short escapes, then
    [\uXXXX] for the other control characters and for lone surrogates. *)
Fixpoint escape (s : jsstring) : jsstring :=
  match s with
  | [] => []
  | c :: s' =>
      if N.eqb c 8 then BACKSLASH :: 98%N :: escape s'
      else if N.eqb c 9 then BACKSLASH :: 116%N :: escape s'
      else if N.eqb c 10 then BACKSLASH :: 110%N :: escape s'
      else if N.eqb c 12 then BACKSLASH :: 102%N :: escape s'
      else if N.eqb c 13 then BACKSLASH :: 114%N :: escape s'
      else if N.eqb c QUOTE then BACKSLASH :: QUOTE :: escape s'
      else if N.eqb c BACKSLASH then BACKSLASH :: BACKSLASH :: escape s'
      else if (c <? 32)%N then unicodeEscape c ++ escape s'
      else if isHighSurrogate c then
        match s' with
        | c' :: s'' =>
            if isLowSurrogate c' then c :: c' :: escape s''
            else unicodeEscape c ++ escape s'
        | [] => unicodeEscape c
        end
      else if isLowSurrogate c then unicodeEscape c ++ escape s'
      else c :: escape s'
  end.

Definition quote (s : jsstring) : jsstring := QUOTE :: escape s ++ [QUOTE].

Fixpoint digits (fuel : nat) (n : N) (acc : jsstring) : jsstring :=
  match fuel with
  | O => acc
  | S fuel' =>
      let acc' := (48 + n mod 10)%N :: acc in
      if N.eqb (n / 10) 0 then acc' else digits fuel' (n / 10)%N acc'
  end.

(** Number::toString of an integer below 10^21 in magnitude. *)
Definition numberToString (z : Z) : jsstring :=
  let n := Z.abs_N z in
  let d := digits (S (N.size_nat n)) n [] in
  if (z <? 0)%Z then 45%N :: d else d.

Fixpoint stringify (v : value) : jsstring :=
  match v with
  | JString s => quote s
  | JNumber n => numberToString n
  | JObject fields =>
      123%N ::
      (fix members (first : bool) (l : list (jsstring * value)) : jsstring :=
         match l with
         | [] => []
         | (k, x) :: l' =>
             (if first then [] else [COMMA]) ++ quote k ++ 58%N :: stringify x
               ++ members false l'
         end) true fields
      ++ [125%N]
  end.

End Json.

(** ** The getter of [innerHTML]: the fragment serialization of the HTML
    Standard *)
Module Markup.

Import ExportPipeline Dom.

Definition AMP : char16 := 38%N.
Definition NBSP : char16 := 160%N.
Definition LT : char16 := 60%N.
Definition GT : char16 := 62%N.

(** Escaping a string, in attribute mode or not. *)
Fixpoint escapeString (attributeMode : bool) (s : jsstring) : jsstring :=
  match s with
  | [] => []
  | c :: s' =>
      (if N.eqb c AMP then lit "&amp;"
       else if N.eqb c NBSP then lit "&nbsp;"
       else if N.eqb c LT then lit "&lt;"
       else if N.eqb c GT then lit "&gt;"
       else if attributeMode && N.eqb c Json.QUOTE then lit "&quot;"
       else [c])
      ++ escapeString attributeMode s'
  end.

Definition toAsciiLower (c : char16) : char16 :=
  if ((65 <=? c) && (c <=? 90))%N then (c + 32)%N else c.

Definition localName (tagName : jsstring) : jsstring := map toAsciiLower tagName.

Definition isVoid (name : jsstring) : bool :=
  existsb (fun v => JS.eqb name (lit v))
    ["area"; "base"; "basefont"; "bgsound"; "br"; "col"; "embed"; "frame";
     "hr"; "img"; "input"; "keygen"; "link"; "meta"; "param"; "source";
     "track"; "wbr"]%string.

(** Elements whose text children are written as they are. *)
Definition isRawText (name : jsstring) : bool :=
  existsb (fun v => JS.eqb name (lit v))
    ["style"; "script"; "xmp"; "iframe"; "noembed"; "noframes"; "plaintext"]%string.

Fixpoint serializeAttributes (attrs : list (jsstring * jsstring)) : jsstring :=
  match attrs with
  | [] => []
  | (k, v) :: attrs' =>
      SPACE :: k ++ 61%N :: Json.QUOTE :: escapeString true v
        ++ Json.QUOTE :: serializeAttributes attrs'
  end.

(** The serialization of one node, child of an element named [parent]. *)
Fixpoint serializeNode (parent : jsstring) (n : Node) : jsstring :=
  match n with
  | TextNode d => if isRawText parent then d else escapeString false d
  | CommentNode d => lit "<!--" ++ d ++ lit "-->"
  | ElementNode tagName attrs _ kids =>
      let name := localName tagName in
      LT :: name ++ serializeAttributes attrs ++ GT ::
      (if isVoid name then []
       else
         (fix all (l : list Node) : jsstring :=
            match l with
            | [] => []
            | k :: l' => serializeNode name k ++ all l'
            end) kids
         ++ LT :: 47%N :: name ++ [GT])
  end.

Fixpoint serializeChildren (parent : jsstring) (kids : list Node) : jsstring :=
  match kids with
  | [] => []
  | k :: kids' => serializeNode parent k ++ serializeChildren parent kids'
  end.

(** [element.innerHTML] for the element at a reference. *)
Definition innerHTML (pg : Page) (element : NodeRef) : jsstring :=
  match resolve pg element with
  | Some (ElementNode tagName _ _ kids) =>
      let name := localName tagName in
      if isVoid name then [] else serializeChildren name kids
  | _ => []
  end.

End Markup.

(** ** The selection anchor: [saveCursorPosition], [restoreCursorPosition] *)
Module Cursor.

Import ExportPipeline Dom.

(** The object built at lines 70-75. *)
Record CursorPosition := {
  startContainer : NodeRef;
  startOffset : nat;
  endContainer : NodeRef;
  endOffset : nat
}.

(** Lines 65-79. *)
Definition saveCursorPosition (editorRef : option NodeRef) (pg : Page)
  : option CursorPosition :=
  match selection pg, editorRef with
  | Some range, Some editor =>
      if contains editor (commonAncestorContainer range)
      then Some {| startContainer := container (rangeStart range);
                   startOffset := offset (rangeStart range);
                   endContainer := container (rangeEnd range);
                   endOffset := offset (rangeEnd range) |}
      else None
  | _, _ => None
  end.

(** Lines 85-90, the [try] block. *)
Definition tryRestore (position : CursorPosition) (pg : Page) : result Page :=
  let range := createRange in
  range <- setStart pg range (startContainer position) (startOffset position) ;;
  range <- setEnd pg range (endContainer position) (endOffset position) ;;
  Ok (addRange (removeAllRanges pg) range).

(** Lines 93-98, the [catch] block. *)
Definition caretToEnd (editor : NodeRef) (pg : Page) : result Page :=
  range <- selectNodeContents pg editor ;;
  Ok (addRange (removeAllRanges pg) (collapse range false)).

(** Lines 82-101. *)
Definition restoreCursorPosition (position : option CursorPosition)
  (editorRef : option NodeRef) (pg : Page) : result Page :=
  match position, editorRef with
  | Some position, Some editor =>
      match tryRestore position pg with
      | Ok pg' => Ok pg'
      | Throw _ => caretToEnd editor pg
      end
  | _, _ => Ok pg
  end.

(** The caret at the end of the editable content. *)
Definition caretAtEnd (editor : NodeRef) (pg : Page) : option Range :=
  match resolve pg editor with
  | Some n =>
      let bp := {| container := editor; offset := nodeLength n |} in
      Some {| rangeStart := bp; rangeEnd := bp |}
  | None => None
  end.

End Cursor.

(** ** The inline image widget: the [onload] callback of [handlePaste] *)
Module Widget.

Import ExportPipeline Dom.

Definition noMetrics : ImgMetrics :=
  {| naturalWidth := 0; naturalHeight := 0; width := 0; height := 0 |}.

(** Lines 167-213: the wrapper span with its image and delete button. *)
Definition imgWrapper (imageId base64 alt : jsstring) (m : ImgMetrics) : Node :=
  ElementNode (lit "SPAN")
    [(lit "class", lit "inline-image");
     (lit "data-image-id", imageId);
     (lit "contenteditable", lit "false");
     (lit "style", lit "position: relative; display: inline-block; margin: 0px 2px;")]
    noMetrics
    [ElementNode (lit "IMG")
       [(lit "src", base64);
        (lit "alt", alt);
        (lit "style", lit "max-width: 100%; height: auto; display: inline-block; vertical-align: baseline; margin: 2px 4px; border-radius: 8px; box-shadow: rgba(0, 0, 0, 0.1) 0px 2px 8px;")]
       m [];
     ElementNode (lit "BUTTON")
       [(lit "class", lit "inline-image-delete");
        (lit "style", lit "position: absolute; top: 2px; right: 2px; background: rgba(255, 77, 79, 0.9); color: white; border: none; border-radius: 50%; width: 20px; height: 20px; font-size: 14px; cursor: pointer; display: flex; align-items: center; justify-content: center; z-index: 10;")]
       noMetrics [TextNode [215%N]]].

(** The statements of the callback run on the page and may throw; what
    was done before a throw stays done. *)
Definition M (A : Type) := Page -> Page * result A.

Definition ret {A} (a : A) : M A := fun pg => (pg, Ok a).

Definition mbind {A B} (m : M A) (f : A -> M B) : M B :=
  fun pg =>
    match m pg with
    | (pg', Ok a) => f a pg'
    | (pg', Throw e) => (pg', Throw e)
    end.

Notation "x <~ c1 ;; c2" := (mbind c1 (fun x => c2))
  (at level 61, c1 at next level, right associativity).
Notation "' pat <~ c1 ;; c2" := (mbind c1 (fun x => match x with pat => c2 end))
  (at level 61, pat pattern, c1 at next level, right associativity).

Definition range_deleteContents (r : Range) : M Range :=
  fun pg => let '(pg', r') := deleteContents pg r in (pg', Ok r').

Definition range_insertNode (r : Range) (node : Node) : M (Range * NodeRef) :=
  fun pg =>
    match insertNode pg r node with
    | Ok (pg', r', ref) => (pg', Ok (r', ref))
    | Throw e => (pg, Throw e)
    end.

Definition range_setStartAfter (r : Range) (node : NodeRef) : M Range :=
  fun pg => (pg, setStartAfter pg r node).

Definition selection_removeAllRanges : M unit :=
  fun pg => (removeAllRanges pg, Ok tt).

Definition selection_addRange (r : Range) : M unit :=
  fun pg => (addRange pg r, Ok tt).

(** Lines 216-233, from [range.deleteContents()] to [selection.addRange]. *)
Definition spliceWidget (imgWrapper : Node) (range : Range) : M unit :=
  range <~ range_deleteContents range ;;
  '(range, imgWrapperRef) <~ range_insertNode range imgWrapper ;;
  let textNode := TextNode [ZWSP] in
  range <~ range_setStartAfter range imgWrapperRef ;;
  '(range, textNodeRef) <~ range_insertNode range textNode ;;
  let spaceNode := TextNode [SPACE] in
  range <~ range_setStartAfter range textNodeRef ;;
  '(range, spaceNodeRef) <~ range_insertNode range spaceNode ;;
  range <~ range_setStartAfter range spaceNodeRef ;;
  let range := collapse range true in
  _ <~ selection_removeAllRanges ;;
  selection_addRange range.

(** Lines 159-233: the selection is read, and the widget goes in when the
    selection lies in the editor.  The result tells whether it went in. *)
Definition insertImage (editorRef : option NodeRef) (imgWrapper : Node)
  : M bool :=
  fun pg =>
    match selection pg with
    | None => (pg, Throw IndexSizeError)
    | Some range =>
        match editorRef with
        | Some editor =>
            if contains editor (commonAncestorContainer range)
            then (_ <~ spliceWidget imgWrapper range ;; ret true) pg
            else (pg, Ok false)
        | None => (pg, Ok false)
        end
    end.

End Widget.

(** ** The React state of [App] and the autosave effect *)
Module Draft.

(** Lines 6-9. *)
Record DraftContent := {
  htmlContent : jsstring;
  timestamp : Z
}.

Definition STORAGE_KEY : jsstring := lit "draftNote_content".

(** The object that [JSON.stringify(content)] walks: the own properties of
    the state object in their order. *)
Definition toJson (content : DraftContent) : Json.value :=
  Json.JObject [(lit "htmlContent", Json.JString (htmlContent content));
                (lit "timestamp", Json.JNumber (timestamp content))].

Definition JSON_stringify (content : DraftContent) : jsstring :=
  Json.stringify (toJson content).

End Draft.

Import Draft.

(** Lines 45-51: the effect on [content].  Its timer holds the content of
    the render that armed it; [localStorage] is seen through the one key. *)
Module Autosave.

Record State := {
  pending : option (Z * DraftContent);
  storage : option jsstring;
  written : list jsstring
}.

Definition initial : State :=
  {| pending := None; storage := None; written := [] |}.

(** The cleanup of the previous render ([clearTimeout]) followed by the
    effect of the new one ([setTimeout] of one second). *)
Definition rearm (now : Z) (content : DraftContent) (st : State) : State :=
  {| pending := Some ((now + 1000)%Z, content);
     storage := storage st;
     written := written st |}.

(** The timer callback, once its delay has passed. *)
Definition fire (now : Z) (st : State) : State :=
  match pending st with
  | Some (due, content) =>
      if (due <=? now)%Z then
        {| pending := None;
           storage := Some (JSON_stringify content);
           written := written st ++ [JSON_stringify content] |}
      else st
  | None => st
  end.

(** The component as the effect sees it: the content, the clock, the timer. *)
Record System := {
  content : DraftContent;
  clock : Z;
  autosave : State
}.

Inductive Event :=
| Change (c : DraftContent)
| Elapse (ms : N)
| TimerFires.

Definition step (sys : System) (ev : Event) : System :=
  match ev with
  | Change c =>
      {| content := c; clock := clock sys;
         autosave := rearm (clock sys) c (autosave sys) |}
  | Elapse ms =>
      {| content := content sys; clock := (clock sys + Z.of_N ms)%Z;
         autosave := autosave sys |}
  | TimerFires =>
      {| content := content sys; clock := clock sys;
         autosave := fire (clock sys) (autosave sys) |}
  end.

Definition run (sys : System) (tr : list Event) : System :=
  fold_left step tr sys.

(** The component after its first render at time [now]. *)
Definition mount (now : Z) : System :=
  let c := {| htmlContent := []; timestamp := now |} in
  {| content := c; clock := now; autosave := rearm now c initial |}.

(** A burst: every change comes less than a second after the one before.
    [since] is the time elapsed since the latest change. *)
Fixpoint burst (since : Z) (tr : list Event) : bool :=
  match tr with
  | [] => true
  | Change _ :: tr' => (since <? 1000)%Z && burst 0 tr'
  | Elapse ms :: tr' => burst (since + Z.of_N ms) tr'
  | TimerFires :: tr' => burst since tr'
  end.

(** The content set by the last change of a trace, [c] if there is none. *)
Fixpoint finalContent (c : DraftContent) (tr : list Event) : DraftContent :=
  match tr with
  | [] => c
  | Change c' :: tr' => finalContent c' tr'
  | _ :: tr' => finalContent c tr'
  end.

End Autosave.

(** ** The component: its state, its handlers, and the events that drive it *)
Module Coordinator.

Import ExportPipeline Dom Cursor Widget Markup.

Inductive NotificationType := success | error | info.

Record Notification := {
  message : jsstring;
  type : NotificationType;
  visible : bool
}.

(** The callbacks handed to [setTimeout]. *)
Inductive Task :=
| RestoreCursor (position : option CursorPosition)
| UpdateAfterComposition
| HideNotification
| FocusEditor.

(** The [useState] cells and the ref of lines 14-25, then the page the
    component lives in: the document and its selection, whether an input
    method composition is in progress, the focus, the clock, the timers
    not yet run, the file reads not yet finished, and the autosave timer.
    A pending file read holds the [isComposing] of the render whose
    [handlePaste] started it, and the data URL it will deliver. *)
Record World := {
  content : DraftContent;
  notification : Notification;
  showClearConfirm : bool;
  isComposing : bool;
  editorRef : option NodeRef;
  page : Page;
  imeActive : bool;
  focused : bool;
  now : Z;
  timers : list (Z * Task);
  reads : list (bool * jsstring);
  autosave : Autosave.State
}.

Definition withPage (pg : Page) (w : World) : World :=
  {| content := content w; notification := notification w;
     showClearConfirm := showClearConfirm w; isComposing := isComposing w;
     editorRef := editorRef w; page := pg; imeActive := imeActive w;
     focused := focused w; now := now w; timers := timers w;
     reads := reads w; autosave := autosave w |}.

Definition withTimers (ts : list (Z * Task)) (w : World) : World :=
  {| content := content w; notification := notification w;
     showClearConfirm := showClearConfirm w; isComposing := isComposing w;
     editorRef := editorRef w; page := page w; imeActive := imeActive w;
     focused := focused w; now := now w; timers := ts;
     reads := reads w; autosave := autosave w |}.

Definition withReads (rs : list (bool * jsstring)) (w : World) : World :=
  {| content := content w; notification := notification w;
     showClearConfirm := showClearConfirm w; isComposing := isComposing w;
     editorRef := editorRef w; page := page w; imeActive := imeActive w;
     focused := focused w; now := now w; timers := timers w;
     reads := rs; autosave := autosave w |}.

Definition withIme (b : bool) (w : World) : World :=
  {| content := content w; notification := notification w;
     showClearConfirm := showClearConfirm w; isComposing := isComposing w;
     editorRef := editorRef w; page := page w; imeActive := b;
     focused := focused w; now := now w; timers := timers w;
     reads := reads w; autosave := autosave w |}.

Definition withFocus (b : bool) (w : World) : World :=
  {| content := content w; notification := notification w;
     showClearConfirm := showClearConfirm w; isComposing := isComposing w;
     editorRef := editorRef w; page := page w; imeActive := imeActive w;
     focused := b; now := now w; timers := timers w;
     reads := reads w; autosave := autosave w |}.

Definition withNow (t : Z) (w : World) : World :=
  {| content := content w; notification := notification w;
     showClearConfirm := showClearConfirm w; isComposing := isComposing w;
     editorRef := editorRef w; page := page w; imeActive := imeActive w;
     focused := focused w; now := t; timers := timers w;
     reads := reads w; autosave := autosave w |}.

Definition withAutosave (a : Autosave.State) (w : World) : World :=
  {| content := content w; notification := notification w;
     showClearConfirm := showClearConfirm w; isComposing := isComposing w;
     editorRef := editorRef w; page := page w; imeActive := imeActive w;
     focused := focused w; now := now w; timers := timers w;
     reads := reads w; autosave := a |}.

(** [setIsComposing]. *)
Definition setIsComposing (b : bool) (w : World) : World :=
  {| content := content w; notification := notification w;
     showClearConfirm := showClearConfirm w; isComposing := b;
     editorRef := editorRef w; page := page w; imeActive := imeActive w;
     focused := focused w; now := now w; timers := timers w;
     reads := reads w; autosave := autosave w |}.

(** [setNotification]. *)
Definition setNotification (n : Notification) (w : World) : World :=
  {| content := content w; notification := n;
     showClearConfirm := showClearConfirm w; isComposing := isComposing w;
     editorRef := editorRef w; page := page w; imeActive := imeActive w;
     focused := focused w; now := now w; timers := timers w;
     reads := reads w; autosave := autosave w |}.

(** [setContent]: the state is replaced, and the render that follows runs
    the autosave effect of lines 45-51 again. *)
Definition setContent (c : DraftContent) (w : World) : World :=
  {| content := c; notification := notification w;
     showClearConfirm := showClearConfirm w; isComposing := isComposing w;
     editorRef := editorRef w; page := page w; imeActive := imeActive w;
     focused := focused w; now := now w; timers := timers w;
     reads := reads w;
     autosave := Autosave.rearm (now w) c (autosave w) |}.

Definition setTimeout (task : Task) (delay : Z) (w : World) : World :=
  withTimers (timers w ++ [((now w + delay)%Z, task)]) w.

Section Browser.

(** The browser's parser of markup: what assigning [innerHTML] of a fresh
    [div] leaves as its [childNodes]. *)
Variable parseHTML : jsstring -> list Node.

(** Lines 54-62. *)
Definition showNotification (msg : jsstring) (ty : NotificationType)
  (w : World) : World :=
  setTimeout HideNotification 3000
    (setNotification {| message := msg; type := ty; visible := true |} w).

(** Lines 104-120.  [isComposing] is the constant of the render that made
    this closure. *)
Definition handleContentChange (isComposing : bool) (w : World) : World :=
  match editorRef w with
  | Some editor =>
      if negb isComposing then
        let cursorPosition := saveCursorPosition (editorRef w) (page w) in
        setTimeout (RestoreCursor cursorPosition) 0
          (setContent {| htmlContent := innerHTML (page w) editor;
                         timestamp := now w |} w)
      else w
  | None => w
  end.

(** Lines 123-125. *)
Definition handleCompositionStart (w : World) : World :=
  setIsComposing true w.

(** Lines 128-140. *)
Definition handleCompositionEnd (w : World) : World :=
  setTimeout UpdateAfterComposition 0 (setIsComposing false w).

(** A clipboard item: its MIME type and, for a file, the data URL that
    [readAsDataURL] will produce. *)
Record ClipboardItem := {
  itemType : jsstring;
  getAsFile : option jsstring
}.

(** Lines 143-248 up to [readAsDataURL]: each image item starts a read whose
    [onload] closes over this render. *)
Definition handlePaste (items : list ClipboardItem) (w : World) : World :=
  fold_left
    (fun w item =>
       if startsWith (itemType item) (lit "image/") then
         match getAsFile item, editorRef w with
         | Some base64, Some _ => withReads (reads w ++ [(isComposing w, base64)]) w
         | _, _ => w
         end
       else w)
    items w.

(** The notification text of line 241. *)
Definition imageAdded : jsstring := [22270; 29255; 24050; 28155; 21152]%N.
(** The prefix of the [alt] text of line 174. *)
Definition pastedImage_ : jsstring := [31896; 36148; 22270; 29255; 95]%N.

(** Lines 153-243: [reader.onload].  [random] is the digits taken from
    [Math.random], [localeTime] is [toLocaleTimeString()], [m] the
    properties of the new image element. *)
Definition readerOnLoad (isComposing : bool) (base64 random localeTime : jsstring)
  (m : ImgMetrics) (w : World) : World :=
  let imageId := Json.numberToString (now w) ++ random in
  let wrapper := imgWrapper imageId base64 (pastedImage_ ++ localeTime) m in
  match insertImage (editorRef w) wrapper (page w) with
  | (pg, Ok true) =>
      showNotification imageAdded success
        (handleContentChange isComposing
           (setTimeout FocusEditor 10 (withPage pg w)))
  | (pg, _) => withPage pg w
  end.

(** What a timer callback does when it runs. *)
Definition runTask (task : Task) (w : World) : World :=
  match task with
  | RestoreCursor position =>
      match restoreCursorPosition position (editorRef w) (page w) with
      | Ok pg => withPage pg w
      | Throw _ => w
      end
  | UpdateAfterComposition =>
      match editorRef w with
      | Some editor =>
          setContent {| htmlContent := innerHTML (page w) editor;
                        timestamp := now w |} w
      | None => w
      end
  | HideNotification =>
      setNotification {| message := message (notification w);
                         type := type (notification w);
                         visible := false |} w
  | FocusEditor =>
      match editorRef w with
      | Some _ => withFocus true w
      | None => w
      end
  end.

Definition renameTask (moved : NodeRef -> NodeRef) (task : Task) : Task :=
  match task with
  | RestoreCursor (Some p) =>
      RestoreCursor (Some {| startContainer := moved (startContainer p);
                             startOffset := startOffset p;
                             endContainer := moved (endContainer p);
                             endOffset := endOffset p |})
  | _ => task
  end.

Fixpoint removeNth {A} (i : nat) (l : list A) : list A :=
  match i, l with
  | _, [] => []
  | O, _ :: l' => l'
  | S i', x :: l' => x :: removeNth i' l'
  end.

(** What happens to the component.  An edit by the user arrives as the page
    after the browser's default action, with where the nodes that scripts
    still hold have gone, and is followed by the [input] event; the handlers
    bound in the JSX are those of the latest render. *)
Inductive Event :=
| Input (pg : Page) (moved : NodeRef -> NodeRef)
| CompositionStart
| CompositionEnd
| Paste (items : list ClipboardItem)
| ReaderLoads (i : nat) (random localeTime : jsstring) (m : ImgMetrics)
| TimerFires (i : nat)
| AutosaveFires
| Elapse (ms : N).

Definition step (w : World) (ev : Event) : World :=
  match ev with
  | Input pg moved =>
      handleContentChange (isComposing w)
        (withTimers (map (fun t => (fst t, renameTask moved (snd t))) (timers w))
           (withPage pg w))
  | CompositionStart => handleCompositionStart (withIme true w)
  | CompositionEnd => handleCompositionEnd (withIme false w)
  | Paste items => handlePaste items w
  | ReaderLoads i random localeTime m =>
      match nth_error (reads w) i with
      | Some (captured, base64) =>
          readerOnLoad captured base64 random localeTime m
            (withReads (removeNth i (reads w)) w)
      | None => w
      end
  | TimerFires i =>
      match nth_error (timers w) i with
      | Some (due, task) =>
          if (due <=? now w)%Z
          then runTask task (withTimers (removeNth i (timers w)) w)
          else w
      | None => w
      end
  | AutosaveFires => withAutosave (Autosave.fire (now w) (autosave w)) w
  | Elapse ms => withNow (now w + Z.of_N ms)%Z w
  end.

Definition run (w : World) (tr : list Event) : World := fold_left step tr w.

(** Lines 313-498 of [handleExportWord]: the paragraphs collected from the
    snapshot, and the document made of them. *)
Definition collect (w : World) : ExportState :=
  let start := {| paragraphs := []; console := [] |} in
  match editorRef w with
  | Some _ =>
      if truthy (htmlContent (content w))
      then processNodes (parseHTML (htmlContent (content w))) start
      else start
  | None => start
  end.

Record Document := { sections : list Paragraph }.

Definition handleExportWord (w : World) : Document :=
  let children := paragraphs (collect w) in
  match children with
  | [] => {| sections := [{| children := [TextRun [SPACE]] |}] |}
  | _ => {| sections := children |}
  end.

End Browser.

End Coordinator.

(** ** [FileReader.readAsDataURL]: the data URL of a pasted file *)
Module FileReader.

(** A file of the clipboard: its [type] and its bytes. *)
Record File := {
  fileType : jsstring;
  fileBytes : list N
}.

(** The character of the base64 alphabet for a value below 64. *)
Definition alphabet (v : N) : char16 :=
  if (v <? 26)%N then (65 + v)%N
  else if (v <? 52)%N then (71 + v)%N
  else if (v <? 62)%N then (v - 4)%N
  else if N.eqb v 62 then 43%N
  else 47%N.

(** Base64 of RFC 4648: three bytes give four characters, and a rest of one
    or two bytes is padded with [=]. *)
Fixpoint encode (bytes : list N) : jsstring :=
  match bytes with
  | a :: b :: c :: r =>
      alphabet (a / 4) :: alphabet ((a mod 4) * 16 + b / 16)
        :: alphabet ((b mod 16) * 4 + c / 64) :: alphabet (c mod 64)
        :: encode r
  | [a; b] =>
      [alphabet (a / 4); alphabet ((a mod 4) * 16 + b / 16);
       alphabet ((b mod 16) * 4); Base64.EQUALS]
  | [a] =>
      [alphabet (a / 4); alphabet ((a mod 4) * 16); Base64.EQUALS; Base64.EQUALS]
  | [] => []
  end%N.

(** The [result] of the reader after [readAsDataURL(file)], for a file that
    has a type: the files read by [handlePaste] have one that starts with
    [image/]. *)
Definition readAsDataURL (file : File) : jsstring :=
  lit "data:" ++ fileType file ++ lit ";base64," ++ encode (fileBytes file).

End FileReader.

(** ** The toolbar: [handleClear] and [handleCopyAll] *)
Module Toolbar.

Import ExportPipeline Dom Cursor Widget Markup Coordinator.

(** [setShowClearConfirm]. *)
Definition setShowClearConfirm (b : bool) (w : World) : World :=
  {| content := content w; notification := notification w;
     showClearConfirm := b; isComposing := isComposing w;
     editorRef := editorRef w; page := page w; imeActive := imeActive w;
     focused := focused w; now := now w; timers := timers w;
     reads := reads w; autosave := autosave w |}.

(** The notification texts of lines 260, 288, 292 and 305, and of line 307. *)
Definition documentCleared : jsstring :=
  [25991; 26723; 24050; 28165; 31354]%N.
Definition copiedWithImages : jsstring :=
  [20869; 23481; 24050; 22797; 21046; 21040; 21098; 36148; 26495; 65288;
   21253; 21547; 22270; 29255; 65289]%N.
Definition copied : jsstring :=
  [20869; 23481; 24050; 22797; 21046; 21040; 21098; 36148; 26495]%N.
Definition copyFailed : jsstring :=
  [22797; 21046; 22833; 36133; 65292; 35831; 25163; 21160; 36873; 25321;
   22797; 21046]%N.

(** *** The setter of [innerHTML]

    The children of the element are removed and the nodes of the parsed
    markup are put in their place ("replace all" of the DOM Standard).  A
    boundary point in the element or below it ends at the start of the
    element.  A removed child that scripts still hold is the root of a tree
    of its own: child [i] becomes tree [base + i], where [base] is the
    number of trees before. *)
Definition afterReplaceAll (element : NodeRef) (bp : BoundaryPoint)
  : BoundaryPoint :=
  if contains element (container bp)
  then {| container := element; offset := 0 |}
  else bp.

Definition afterRemoval (element : NodeRef) (base : nat) (r : NodeRef)
  : NodeRef :=
  if (tree r =? tree element) && isPrefix (at_path element) (at_path r) then
    match skipn (List.length (at_path element)) (at_path r) with
    | c :: rest => {| tree := base + c; at_path := rest |}
    | [] => r
    end
  else r.

Definition replaceAll (element : NodeRef) (new : list Node) (pg : Page)
  : Page * (NodeRef -> NodeRef) :=
  match nth_error (trees pg) (tree element) with
  | Some root =>
      match lookup root (at_path element),
            updateChildren root (at_path element) (fun _ => new) with
      | Some old, Some root' =>
          ({| trees := trees (setTree pg (tree element) root') ++ childNodes old;
              selection :=
                option_map
                  (fun r => {| rangeStart := afterReplaceAll element (rangeStart r);
                               rangeEnd := afterReplaceAll element (rangeEnd r) |})
                  (selection pg) |},
           afterRemoval element (List.length (trees pg)))
      | _, _ => (pg, fun r => r)
      end
  | None => (pg, fun r => r)
  end.

(** Lines 251-261.  The markup assigned is the empty string, which parses
    to no node. *)
Definition handleClear (w : World) : World :=
  let w := setContent {| htmlContent := []; timestamp := now w |} w in
  let w :=
    match editorRef w with
    | Some editor =>
        let '(pg, moved) := replaceAll editor [] (page w) in
        withTimers (map (fun t => (fst t, renameTask moved (snd t))) (timers w))
          (withPage pg w)
    | None => w
    end in
  showNotification documentCleared success (setShowClearConfirm false w).

(** *** [handleCopyAll] *)

(** An element that [".inline-image-delete, .image-delete-btn"] selects. *)
Definition isDeleteButton (n : Node) : bool :=
  match n with
  | ElementNode _ attrs _ _ =>
      classList_contains attrs (lit "inline-image-delete")
      || classList_contains attrs (lit "image-delete-btn")
  | _ => false
  end.

(** Lines 272-275: every selected element is removed from its parent. *)
Fixpoint withoutButtons (n : Node) : Node :=
  match n with
  | ElementNode tag attrs m kids =>
      ElementNode tag attrs m
        ((fix each (l : list Node) : list Node :=
            match l with
            | [] => []
            | k :: l' =>
                if isDeleteButton k then each l' else withoutButtons k :: each l'
            end) kids)
  | _ => n
  end.

Fixpoint removeButtons (l : list Node) : list Node :=
  match l with
  | [] => []
  | k :: l' =>
      if isDeleteButton k then removeButtons l'
      else withoutButtons k :: removeButtons l'
  end.

(** The call made on [navigator.clipboard]. *)
Inductive ClipboardCall :=
| ClipboardWrite (html text : jsstring)
| ClipboardWriteText (html : jsstring).

(** How the [try] block goes up to its [await]. *)
Inductive Attempt :=
| NoEditor
| Awaits (call : ClipboardCall)
| Thrown.

Section Clipboard.

Variable parseHTML : jsstring -> list Node.
(** [element.innerText], which depends on the rendering. *)
Variable innerText : Page -> NodeRef -> jsstring.

(** Lines 265-291 up to the [await].  [clipboard] tells whether
    [navigator.clipboard] is there and [clipboardItem] whether
    [window.ClipboardItem] is; without [navigator.clipboard] line 291
    throws. *)
Definition copyAttempt (clipboard clipboardItem : bool) (w : World) : Attempt :=
  match editorRef w with
  | Some editor =>
      let tempDiv := removeButtons (parseHTML (innerHTML (page w) editor)) in
      let cleanHtmlContent := serializeChildren (lit "div") tempDiv in
      let textContent := innerText (page w) editor in
      if clipboard && clipboardItem
      then Awaits (ClipboardWrite cleanHtmlContent textContent)
      else if clipboard then Awaits (ClipboardWriteText cleanHtmlContent)
      else Thrown
  | None => NoEditor
  end.

End Clipboard.

(** Lines 288 and 292: the promise of the call was fulfilled. *)
Definition copySucceeded (call : ClipboardCall) (w : World) : World :=
  showNotification
    (match call with
     | ClipboardWrite _ _ => copiedWithImages
     | ClipboardWriteText _ => copied
     end)
    success w.

(** Lines 295-309, the [catch] block: the state it leaves, and the
    selection that [execCommand("copy")] was run on. *)
Definition copyFallback (w : World) : World * option (option Range) :=
  match editorRef w with
  | Some editor =>
      match selectNodeContents (page w) editor with
      | Ok range =>
          let pg := addRange (removeAllRanges (page w)) range in
          (showNotification copied success (withPage (removeAllRanges pg) w),
           Some (selection pg))
      | Throw _ => (w, None)
      end
  | None => (showNotification copyFailed error w, None)
  end.

End Toolbar.

(** ** The delete button of a pasted image *)
Module DeleteButton.

Import ExportPipeline Dom Cursor Widget Markup Coordinator.

(** *** [node.remove()]

    The node is taken out of the child list of its parent ("remove" of the
    DOM Standard) and, as scripts still hold it, becomes the root of a
    tree of its own; a node without a parent stays as it is.  The node is
    child [k] of the element at [pp] of tree [t], and becomes tree
    [base]. *)

(** Where a node is afterwards: a node of the removed subtree is in the new
    tree, and a later sibling, with what is below it, is one child
    earlier. *)
Definition afterRemove (t : nat) (pp : path) (k base : nat) (r : NodeRef)
  : NodeRef :=
  if negb (tree r =? t) then r
  else if isPrefix pp (at_path r) then
    match skipn (List.length pp) (at_path r) with
    | c :: rest =>
        if c =? k then {| tree := base; at_path := rest |}
        else if k <? c then {| tree := t; at_path := pp ++ Nat.pred c :: rest |}
        else r
    | [] => r
    end
  else r.

(** Where a boundary point of a live range is afterwards: a point in the
    removed subtree goes to where the node was in its parent, and a point
    of the parent after the node is one child earlier. *)
Definition shiftRemove (t : nat) (pp : path) (k base : nat)
  (bp : BoundaryPoint) : BoundaryPoint :=
  let p := at_path (container bp) in
  if negb (tree (container bp) =? t) then bp
  else if pathEqb p pp then
    if k <? offset bp
    then {| container := container bp; offset := Nat.pred (offset bp) |}
    else bp
  else if isPrefix (pp ++ [k]) p
  then {| container := {| tree := t; at_path := pp |}; offset := k |}
  else {| container := afterRemove t pp k base (container bp);
          offset := offset bp |}.

(** The path of the parent and the index in it. *)
Definition parentAndIndex (p : path) : option (path * nat) :=
  match rev p with
  | k :: pp => Some (rev pp, k)
  | [] => None
  end.

Definition remove (node : NodeRef) (pg : Page) : Page * (NodeRef -> NodeRef) :=
  match parentAndIndex (at_path node), nth_error (trees pg) (tree node) with
  | Some (pp, k), Some root =>
      match lookup root (at_path node), updateChildren root pp (removeNth k) with
      | Some removed, Some root' =>
          let t := tree node in
          let base := List.length (trees pg) in
          ({| trees := trees (setTree pg t root') ++ [removed];
              selection :=
                option_map
                  (fun r => {| rangeStart := shiftRemove t pp k base (rangeStart r);
                               rangeEnd := shiftRemove t pp k base (rangeEnd r) |})
                  (selection pg) |},
           afterRemove t pp k base)
      | _, _ => (pg, fun r => r)
      end
  | _, _ => (pg, fun r => r)
  end.

(** Lines 204-209: the handler of the button's [click].  [imgWrapper] is
    where the wrapper that the closure holds is now, and [isComposing] the
    constant of the render whose [handleContentChange] the closure
    holds. *)
Definition onclick (isComposing : bool) (imgWrapper : NodeRef) (w : World)
  : World :=
  let '(pg, moved) := remove imgWrapper (page w) in
  handleContentChange isComposing
    {| content := content w; notification := notification w;
       showClearConfirm := showClearConfirm w;
       Coordinator.isComposing := Coordinator.isComposing w;
       editorRef := option_map moved (editorRef w); page := pg;
       imeActive := imeActive w; focused := focused w; now := now w;
       timers := map (fun t => (fst t, renameTask moved (snd t))) (timers w);
       reads := reads w; autosave := autosave w |}.

End DeleteButton.

(** ** [JSON.parse] and the effect that loads the saved draft *)
Module JsonText.

Import Json.

(** A value that [JSON.parse] returns.  A number is kept as the decimal
    that was read, sign, digits and power of ten: the JavaScript number is
    the binary64 value nearest to it.  An object is its own properties in
    the order in which they were created. *)
Inductive parsed :=
| PNull
| PBool (b : bool)
| PNumber (negative : bool) (digits : N) (exponent : Z)
| PString (s : jsstring)
| PArray (items : list parsed)
| PObject (fields : list (jsstring * parsed)).

Definition isWhitespace (c : char16) : bool :=
  (N.eqb c 9 || N.eqb c 10 || N.eqb c 13 || N.eqb c 32)%N.

Fixpoint skipWhitespace (s : jsstring) : jsstring :=
  match s with
  | [] => []
  | c :: s' => if isWhitespace c then skipWhitespace s' else s
  end.

Definition isDigit (c : char16) : bool := ((48 <=? c) && (c <=? 57))%N.

Definition hexValue (c : char16) : option N :=
  if isDigit c then Some (c - 48)%N
  else if ((97 <=? c) && (c <=? 102))%N then Some (c - 87)%N
  else if ((65 <=? c) && (c <=? 70))%N then Some (c - 55)%N
  else None.

(** The character that stands after a backslash, [u] apart. *)
Definition simpleEscape (e : char16) : option char16 :=
  if N.eqb e QUOTE then Some QUOTE
  else if N.eqb e BACKSLASH then Some BACKSLASH
  else if N.eqb e 47 then Some 47%N
  else if N.eqb e 98 then Some 8%N
  else if N.eqb e 102 then Some 12%N
  else if N.eqb e 110 then Some 10%N
  else if N.eqb e 114 then Some 13%N
  else if N.eqb e 116 then Some 9%N
  else None.

(** The characters of a string from after its opening quote to its closing
    quote, and what follows. *)
Fixpoint characters (s : jsstring) : option (jsstring * jsstring) :=
  match s with
  | [] => None
  | c :: r =>
      if N.eqb c QUOTE then Some ([], r)
      else if N.eqb c BACKSLASH then
        match r with
        | [] => None
        | e :: r' =>
            if N.eqb e 117 then
              match r' with
              | h1 :: h2 :: h3 :: h4 :: r'' =>
                  match hexValue h1, hexValue h2, hexValue h3, hexValue h4,
                        characters r'' with
                  | Some a, Some b, Some c, Some d, Some (t, rest) =>
                      Some ((a * 4096 + b * 256 + c * 16 + d)%N :: t, rest)
                  | _, _, _, _, _ => None
                  end
              | _ => None
              end
            else
              match simpleEscape e, characters r' with
              | Some x, Some (t, rest) => Some (x :: t, rest)
              | _, _ => None
              end
        end
      else if (c <? 32)%N then None
      else
        match characters r with
        | Some (t, rest) => Some (c :: t, rest)
        | None => None
        end
  end.

(** The longest run of digits at the start, and what follows. *)
Fixpoint digitRun (s : jsstring) : jsstring * jsstring :=
  match s with
  | [] => ([], [])
  | c :: r =>
      if isDigit c then let '(ds, rest) := digitRun r in (c :: ds, rest)
      else ([], s)
  end.

Definition natural (ds : jsstring) : N :=
  fold_left (fun a c => (a * 10 + (c - 48))%N) ds 0%N.

(** [0], or a digit from 1 to 9 and the digits after it. *)
Definition integerPart (s : jsstring) : option (jsstring * jsstring) :=
  match s with
  | [] => None
  | c :: r =>
      if N.eqb c 48 then Some ([c], r)
      else if isDigit c then Some (digitRun s)
      else None
  end.

(** A point and at least one digit, or nothing. *)
Definition fractionPart (s : jsstring) : option (jsstring * jsstring) :=
  match s with
  | c :: r =>
      if N.eqb c 46 then
        match digitRun r with
        | ([], _) => None
        | (ds, rest) => Some (ds, rest)
        end
      else Some ([], s)
  | [] => Some ([], [])
  end.

(** [e] or [E], a sign or none, and at least one digit, or nothing. *)
Definition exponentPart (s : jsstring) : option (Z * jsstring) :=
  match s with
  | c :: r =>
      if N.eqb c 101 || N.eqb c 69 then
        let '(minus, r1) :=
          match r with
          | x :: r1 =>
              if N.eqb x 45 then (true, r1)
              else if N.eqb x 43 then (false, r1)
              else (false, r)
          | [] => (false, r)
          end in
        match digitRun r1 with
        | ([], _) => None
        | (ds, rest) =>
            Some (if minus then (- Z.of_N (natural ds))%Z else Z.of_N (natural ds),
                  rest)
        end
      else Some (0%Z, s)
  | [] => Some (0%Z, [])
  end.

Definition number (s : jsstring) : option (parsed * jsstring) :=
  let '(negative, s1) :=
    match s with
    | c :: r => if N.eqb c 45 then (true, r) else (false, s)
    | [] => (false, s)
    end in
  match integerPart s1 with
  | Some (ip, s2) =>
      match fractionPart s2 with
      | Some (fp, s3) =>
          match exponentPart s3 with
          | Some (e, s4) =>
              Some (PNumber negative (natural (ip ++ fp))
                      (e - Z.of_nat (List.length fp))%Z, s4)
          | None => None
          end
      | None => None
      end
  | None => None
  end.

(** CreateDataProperty on the object being built: a name that is there
    already keeps its place and takes the new value. *)
Fixpoint defineProperty (k : jsstring) (v : parsed)
  (fields : list (jsstring * parsed)) : list (jsstring * parsed) :=
  match fields with
  | [] => [(k, v)]
  | (k', v') :: fields' =>
      if JS.eqb k' k then (k', v) :: fields'
      else (k', v') :: defineProperty k v fields'
  end.

(** The items of an array after its opening bracket and the members of an
    object after its opening brace, with [val] reading one value.  [n]
    bounds the number of them. *)
Section Loops.
Variable val : jsstring -> option (parsed * jsstring).

Fixpoint elements (n : nat) (s : jsstring) (acc : list parsed)
  : option (parsed * jsstring) :=
  match n with
  | O => None
  | S n' =>
      match val s with
      | Some (v, r1) =>
          match skipWhitespace r1 with
          | x :: r2 =>
              if N.eqb x COMMA then elements n' r2 (v :: acc)
              else if N.eqb x 93 then Some (PArray (rev (v :: acc)), r2)
              else None
          | [] => None
          end
      | None => None
      end
  end.

Fixpoint members (n : nat) (s : jsstring) (acc : list (jsstring * parsed))
  : option (parsed * jsstring) :=
  match n with
  | O => None
  | S n' =>
      match skipWhitespace s with
      | q :: r1 =>
          if N.eqb q QUOTE then
            match characters r1 with
            | Some (k, r2) =>
                match skipWhitespace r2 with
                | colon :: r3 =>
                    if N.eqb colon 58 then
                      match val r3 with
                      | Some (v, r4) =>
                          match skipWhitespace r4 with
                          | x :: r5 =>
                              if N.eqb x COMMA
                              then members n' r5 (defineProperty k v acc)
                              else if N.eqb x 125
                              then Some (PObject (defineProperty k v acc), r5)
                              else None
                          | [] => None
                          end
                      | None => None
                      end
                    else None
                | [] => None
                end
            | None => None
            end
          else None
      | [] => None
      end
  end.
End Loops.

(** A value, after whitespace, and what follows it.  The fuel bounds the
    depth of the nesting and the number of items of an array or object;
    with more fuel than the text has characters it is never used up
    (lemma [value_fuel]). *)
Fixpoint value (fuel : nat) (s : jsstring) : option (parsed * jsstring) :=
  match fuel with
  | O => None
  | S fuel' =>
      match skipWhitespace s with
      | [] => None
      | c :: r =>
          if N.eqb c QUOTE then
            match characters r with
            | Some (t, rest) => Some (PString t, rest)
            | None => None
            end
          else if N.eqb c 91 then
            match skipWhitespace r with
            | [] => None
            | c' :: r' =>
                if N.eqb c' 93 then Some (PArray [], r')
                else elements (value fuel') fuel' r []
            end
          else if N.eqb c 123 then
            match skipWhitespace r with
            | [] => None
            | c' :: r' =>
                if N.eqb c' 125 then Some (PObject [], r')
                else members (value fuel') fuel' r []
            end
          else if startsWith (c :: r) (lit "null")
          then Some (PNull, skipn 4 (c :: r))
          else if startsWith (c :: r) (lit "true")
          then Some (PBool true, skipn 4 (c :: r))
          else if startsWith (c :: r) (lit "false")
          then Some (PBool false, skipn 5 (c :: r))
          else number (c :: r)
      end
  end.

(** [JSON.parse(text)]: one value with whitespace around it and nothing
    else; [None] where a [SyntaxError] is thrown. *)
Definition JSON_parse (text : jsstring) : option parsed :=
  match value (S (List.length text)) text with
  | Some (v, rest) =>
      match skipWhitespace rest with
      | [] => Some v
      | _ :: _ => None
      end
  | None => None
  end.

(** ToBoolean.  A number is false when it is zero or rounds to zero, which
    is at or below the half of the least positive binary64 value. *)
Definition ToBoolean (v : parsed) : bool :=
  match v with
  | PNull => false
  | PBool b => b
  | PNumber _ digits exponent =>
      negb (N.eqb digits 0
            || Qle_bool (inject_Z (Z.of_N digits)
                         * Qpower (inject_Z 10) exponent)%Q
                 (Qpower two (-1075)))
  | PString s => truthy s
  | PArray _ | PObject _ => true
  end.

End JsonText.

(** Lines 28-42: the effect that runs once after the first render. *)
Module Mount.

Import ExportPipeline Dom JsonText Toolbar.

Inductive LogEntry :=
| FailedToLoadSavedContent.

(** [parsedContent.htmlContent]: reading a property of [null] throws, and a
    value that is not an object has no such property. *)
Definition htmlContentOf (parsedContent : parsed) : result (option parsed) :=
  match parsedContent with
  | PNull => Throw TypeError
  | PObject fields =>
      Ok ((fix get (l : list (jsstring * parsed)) : option parsed :=
             match l with
             | [] => None
             | (k, v) :: l' =>
                 if JS.eqb k (lit "htmlContent") then Some v else get l'
             end) fields)
  | _ => Ok None
  end.

(** What the effect does: the argument of [setContent] when it was called,
    the page, and what went to [console.error]. *)
Record Effect := {
  newContent : option parsed;
  newPage : Page;
  logged : list LogEntry
}.

Section Load.

Variable parseHTML : jsstring -> list Node.
(** ToString of a value that is not a string, for the setter of
    [innerHTML]. *)
Variable ToString : parsed -> jsstring.

Definition loadSavedContent (saved : option jsstring) (editorRef : option NodeRef)
  (pg : Page) : Effect :=
  let nothing := {| newContent := None; newPage := pg; logged := [] |} in
  match saved with
  | None => nothing
  | Some saved =>
      if truthy saved then
        match JSON_parse saved with
        | None =>
            {| newContent := None; newPage := pg;
               logged := [FailedToLoadSavedContent] |}
        | Some parsedContent =>
            match editorRef with
            | None =>
                {| newContent := Some parsedContent; newPage := pg; logged := [] |}
            | Some editor =>
                match htmlContentOf parsedContent with
                | Throw _ =>
                    {| newContent := Some parsedContent; newPage := pg;
                       logged := [FailedToLoadSavedContent] |}
                | Ok (Some html) =>
                    if ToBoolean html then
                      let markup :=
                        match html with
                        | PString s => s
                        | _ => ToString html
                        end in
                      {| newContent := Some parsedContent;
                         newPage := fst (replaceAll editor (parseHTML markup) pg);
                         logged := [] |}
                    else
                      {| newContent := Some parsedContent; newPage := pg;
                         logged := [] |}
                | Ok None =>
                    {| newContent := Some parsedContent; newPage := pg;
                       logged := [] |}
                end
            end
        end
      else nothing
  end.

End Load.

End Mount.

(** ** The content state as React holds it

    [useState<DraftContent>] is typed at compile time only: line 33 puts
    whatever [JSON.parse] returned into the state, and the updates of lines
    107-111 and 133-137 copy the properties of that value before they set
    [htmlContent] and [timestamp].  Here the state is any JSON value, and
    the events are the calls of [setContent], whichever handler makes
    them, and the timer of the autosave effect. *)
Module Persistence.

Import Json JsonText.

(** The array index that a property name is: the canonical text of an
    integer below 2^32 - 1. *)
Definition arrayIndex (k : jsstring) : option N :=
  match k with
  | [] => None
  | c :: r =>
      if forallb isDigit k
         && (negb (N.eqb c 48) || match r with [] => true | _ :: _ => false end)
      then if (natural k <=? 4294967294)%N then Some (natural k) else None
      else None
  end.

Fixpoint insertByIndex {A} (i : N) (kv : jsstring * A)
  (l : list (N * (jsstring * A))) : list (N * (jsstring * A)) :=
  match l with
  | [] => [(i, kv)]
  | (j, kv') :: l' =>
      if (i <? j)%N then (i, kv) :: l else (j, kv') :: insertByIndex i kv l'
  end.

(** OrdinaryOwnPropertyKeys: the properties named by an array index in
    ascending order, then the others in the order of their creation. *)
Definition ownProperties {A} (fields : list (jsstring * A))
  : list (jsstring * A) :=
  map snd
    (fold_left
       (fun acc kv =>
          match arrayIndex (fst kv) with
          | Some i => insertByIndex i kv acc
          | None => acc
          end)
       fields [])
  ++ filter (fun kv => match arrayIndex (fst kv) with
                       | Some _ => false
                       | None => true
                       end) fields.

(** The items of a list as properties named by their index from [i]. *)
Fixpoint indexed {A} (i : nat) (items : list A) : list (jsstring * A) :=
  match items with
  | [] => []
  | x :: items' => (numberToString (Z.of_nat i), x) :: indexed (S i) items'
  end.

(** CopyDataProperties of the spread [...prev]: the own enumerable
    properties of an object, the items of an array, the code units of a
    string; a number, a boolean and [null] have none. *)
Definition copyDataProperties (prev : parsed) : list (jsstring * parsed) :=
  match prev with
  | PObject fields => ownProperties fields
  | PArray items => indexed 0 items
  | PString s => indexed 0 (map (fun c => PString [c]) s)
  | PNull | PBool _ | PNumber _ _ _ => []
  end.

(** The number that [Date.now()] returned. *)
Definition timeNumber (t : Z) : parsed :=
  PNumber (t <? 0)%Z (Z.abs_N t) 0.

(** Lines 14-17 and 252-255: the object literal of a draft. *)
Definition draftObject (html : jsstring) (t : Z) : parsed :=
  PObject [(lit "htmlContent", PString html); (lit "timestamp", timeNumber t)].

(** Lines 107-111 and 133-137: [{...prev, htmlContent: html, timestamp: t}]. *)
Definition updated (prev : parsed) (html : jsstring) (t : Z) : parsed :=
  PObject
    (defineProperty (lit "timestamp") (timeNumber t)
       (defineProperty (lit "htmlContent") (PString html)
          (copyDataProperties prev))).

Fixpoint join (texts : list jsstring) : jsstring :=
  match texts with
  | [] => []
  | [t] => t
  | t :: texts' => t ++ COMMA :: join texts'
  end.

Section Stringify.

(** [JSON.stringify] of a number that is not an integer of at most 2^53 in
    magnitude written without exponent: the text of the binary64 value
    nearest to the decimal, [null] when that is not finite. *)
Variable numberText : bool -> N -> Z -> jsstring.

Definition numberJSON (negative : bool) (digits : N) (exponent : Z)
  : jsstring :=
  if (exponent =? 0)%Z && (digits <=? 9007199254740992)%N
  then numberToString (if negative then - Z.of_N digits else Z.of_N digits)%Z
  else numberText negative digits exponent.

(** [JSON.stringify(value)] for a value that [JSON.parse] returned or that
    the updates made of one. *)
Fixpoint stringify (v : parsed) : jsstring :=
  match v with
  | PNull => lit "null"
  | PBool b => if b then lit "true" else lit "false"
  | PNumber negative digits exponent => numberJSON negative digits exponent
  | PString s => quote s
  | PArray items =>
      91%N ::
      join ((fix each (l : list parsed) : list jsstring :=
               match l with
               | [] => []
               | x :: l' => stringify x :: each l'
               end) items)
      ++ [93%N]
  | PObject fields =>
      123%N ::
      join (map (fun kt => quote (fst kt) ++ 58%N :: snd kt)
              (ownProperties
                 ((fix each (l : list (jsstring * parsed))
                     : list (jsstring * jsstring) :=
                     match l with
                     | [] => []
                     | (k, x) :: l' => (k, stringify x) :: each l'
                     end) fields)))
      ++ [125%N]
  end.

(** The state cell, whether the component is still mounted, the clock,
    the timer of the autosave effect with the content of the render that
    armed it, and [localStorage] under the one key. *)
Record State := {
  content : parsed;
  mounted : bool;
  clock : Z;
  pending : option (Z * parsed);
  storage : option jsstring;
  written : list jsstring
}.

(** Lines 29-33: the argument of [setContent], where it is called. *)
Definition loaded (saved : option jsstring) : option parsed :=
  match saved with
  | Some s => if truthy s then JSON_parse s else None
  | None => None
  end.

(** A render: lines 547, 555 and 563 read [content.htmlContent], which
    throws when the state is [null]; React then unmounts the component,
    and the cleanup of line 50 clears the timer.  Otherwise the cleanup
    and the effect of lines 45-51 replace the timer by one for the new
    content. *)
Definition render (c : parsed) (st : State) : State :=
  match c with
  | PNull =>
      {| content := c; mounted := false; clock := clock st; pending := None;
         storage := storage st; written := written st |}
  | _ =>
      {| content := c; mounted := true; clock := clock st;
         pending := Some ((clock st + 1000)%Z, c);
         storage := storage st; written := written st |}
  end.

(** The first render at time [now] with the initial state of lines 14-17,
    then the load effect of lines 28-42 on the value [saved] of
    [localStorage]. *)
Definition mount (now : Z) (saved : option jsstring) : State :=
  let first :=
    render (draftObject [] now)
      {| content := PNull; mounted := true; clock := now; pending := None;
         storage := saved; written := [] |} in
  match loaded saved with
  | Some parsedContent => render parsedContent first
  | None => first
  end.

Inductive Event :=
| Update (html : jsstring)
| Clear
| Elapse (ms : N)
| TimerFires.

Definition step (st : State) (ev : Event) : State :=
  match ev with
  | Update html =>
      if mounted st then render (updated (content st) html (clock st)) st
      else st
  | Clear =>
      if mounted st then render (draftObject [] (clock st)) st else st
  | Elapse ms =>
      {| content := content st; mounted := mounted st;
         clock := (clock st + Z.of_N ms)%Z; pending := pending st;
         storage := storage st; written := written st |}
  | TimerFires =>
      match pending st with
      | Some (due, c) =>
          if (due <=? clock st)%Z then
            {| content := content st; mounted := mounted st;
               clock := clock st; pending := None;
               storage := Some (stringify c);
               written := written st ++ [stringify c] |}
          else st
      | None => st
      end
  end.

Definition run (st : State) (tr : list Event) : State := fold_left step tr st.

End Stringify.

(** A time value of ECMAScript: at most 8.64e15 ms from the epoch. *)
Definition timeValue (t : Z) : bool := (Z.abs t <=? 8640000000000000)%Z.

(** The clock shows a time value at the mount and through the events. *)
Fixpoint inTime (now : Z) (tr : list Event) : bool :=
  timeValue now
  && match tr with
     | [] => true
     | Elapse ms :: tr' => inTime (now + Z.of_N ms) tr'
     | _ :: tr' => inTime now tr'
     end.

End Persistence.

(** * Vocabulary of the properties

    The objects that the statements below speak of: points and carets, the
    tree with nodes spliced in, the invariants of the export and of the
    autosave, and the concrete pages, states and traces at which the
    properties are evaluated. *)

Import ExportPipeline Dom Cursor Widget Markup Coordinator.

(** The unit roundoff of binary64, [2^-53]. *)
Definition unitRoundoff : Q := (1 # 9007199254740992)%Q.

Definition emptyExport : ExportState := {| paragraphs := []; console := [] |}.

(** The paragraph of one text run. *)
Definition textParagraph (text : jsstring) : Paragraph :=
  {| children := [TextRun text] |}.

(** A line that is not all whitespace. *)
Definition nonBlank (line : jsstring) : bool := truthy (trim line).

(** The image a node stands for in the export: a bare [IMG], or the first
    [IMG] below an [inline-image] span. *)
Definition imageOf (node : Node)
  : option (list (jsstring * jsstring) * ImgMetrics) :=
  match node with
  | ElementNode tag attrs m kids =>
      if JS.eqb tag (lit "IMG") then Some (attrs, m)
      else if JS.eqb tag (lit "SPAN")
              && classList_contains attrs (lit "inline-image")
      then querySelector_img kids
      else None
  | _ => None
  end.

(** The [src] attribute is there and starts with [data:image/]. *)
Definition dataImageSrc (attrs : list (jsstring * jsstring)) : bool :=
  match getAttribute (lit "src") attrs with
  | Some src => startsWith src (lit "data:image/")
  | None => false
  end.

(** What an export step adds does not depend on what was collected before. *)
Definition Additive (f : ExportState -> ExportState) : Prop :=
  forall st,
    f st = {| paragraphs := paragraphs st ++ paragraphs (f emptyExport);
              console := console st ++ console (f emptyExport) |}.

(** The exact ratio of the aspect-fit rule, and the one the code computes. *)
Definition exactRatio (w h : Z) : Q :=
  Qmin (inject_Z 600 / inject_Z w)%Q (inject_Z 450 / inject_Z h)%Q.

Definition codeRatio (w h : Z) : Q :=
  Math_min (fdiv (inject_Z maxWidth) (inject_Z w))
    (fdiv (inject_Z maxHeight) (inject_Z h)).

(** A node of the trees [l], at any depth. *)
Inductive Within (n : Node) : list Node -> Prop :=
| Within_here (l : list Node) : In n l -> Within n l
| Within_below (tag : jsstring) (attrs : list (jsstring * jsstring))
    (m : ImgMetrics) (kids l : list Node) :
    In (ElementNode tag attrs m kids) l -> Within n kids -> Within n l.

(** The part of a data URL that line 370 and line 431 decode. *)
Definition payload (src : jsstring) : jsstring :=
  match nth_error (split COMMA src) 1 with
  | Some d => d
  | None => lit "undefined"
  end.

(** Every image run among the paragraphs comes from an image of the trees
    [l]: its bytes are the decoded payload of the [src] of that image, and
    its size is what [exportSize] gives for the dimensions of that same
    image. *)
Definition Sourced (l : list Node) (ps : list Paragraph) : Prop :=
  forall p data ew eh,
    In p ps -> In (ImageRun data ew eh) (children p) ->
    exists node attrs m src,
      Within node l
      /\ imageOf node = Some (attrs, m)
      /\ getAttribute (lit "src") attrs = Some src
      /\ startsWith src (lit "data:image/") = true
      /\ Base64.atob (payload src) = Some data
      /\ (ew, eh) = exportSize (originalWidth m) (originalHeight m).

(** The claim as stated: the run of a line is the line trimmed. *)
Definition trimmedLines (data : jsstring) : list Paragraph :=
  map (fun line => textParagraph (trim line))
    (filter nonBlank (split LF data)).

Definition blankDocument : Document :=
  {| sections := [{| children := [TextRun [SPACE]] |}] |}.

Definition point (t : nat) (p : path) (o : nat) : BoundaryPoint :=
  {| container := {| tree := t; at_path := p |}; offset := o |}.

(** The collapsed range at a point: a caret. *)
Definition caret (t : nat) (p : path) (o : nat) : Range :=
  {| rangeStart := point t p o; rangeEnd := point t p o |}.

(** A point at which a node can be inserted: in an element, or in a text
    node that has a parent, and not past the end. *)
Definition insertionPoint (root : Node) (p : path) (o : nat) : Prop :=
  match lookup root p with
  | Some (ElementNode _ _ _ kids) => o <= List.length kids
  | Some (TextNode d) => p <> [] /\ o <= List.length d
  | _ => False
  end.

(** The tree with the nodes [new] put at the point [(p, o)], a text node at
    the point being split around them; with it the element that holds the
    new nodes and the index just after them. *)
Definition spliced (root : Node) (p : path) (o : nat) (new : list Node)
  : option (Node * path * nat) :=
  match lookup root p with
  | Some (ElementNode _ _ _ _) =>
      match updateChildren root p
              (fun kids => firstn o kids ++ new ++ skipn o kids) with
      | Some root' => Some (root', p, o + List.length new)
      | None => None
      end
  | Some (TextNode d) =>
      match rev p with
      | k :: rpp =>
          match updateChildren root (rev rpp)
                  (fun kids =>
                     firstn k kids
                     ++ TextNode (firstn o d) :: new
                     ++ TextNode (skipn o d) :: skipn (S k) kids) with
          | Some root' => Some (root', rev rpp, S k + List.length new)
          | None => None
          end
      | [] => None
      end
  | _ => None
  end.

Definition sentinels : list Node := [TextNode [ZWSP]; TextNode [SPACE]].

(** Lines 219-233: what [spliceWidget] does once the wrapper is in and the
    range has stepped over it. *)
Definition thenSentinels (range : Range) : M unit :=
  '(range, textNodeRef) <~ range_insertNode range (TextNode [ZWSP]) ;;
  range <~ range_setStartAfter range textNodeRef ;;
  '(range, spaceNodeRef) <~ range_insertNode range (TextNode [SPACE]) ;;
  range <~ range_setStartAfter range spaceNodeRef ;;
  let range := collapse range true in
  _ <~ selection_removeAllRanges ;;
  selection_addRange range.

(** Whether the editor element is mounted. *)
Definition mounted (w : World) : bool :=
  match editorRef w with Some _ => true | None => false end.

Definition plain (tag : string) (kids : list Node) : Node :=
  ElementNode (lit tag) [] noMetrics kids.

(** A document whose editor, the [DIV], holds the text [ab], and a text node
    [xy] that was removed from the document and is still referenced. *)
Definition pageWithOrphan : Page :=
  {| trees := [plain "BODY" [plain "H1" [TextNode (lit "t")];
                             plain "DIV" [TextNode (lit "ab")]];
               TextNode (lit "xy")];
     selection := None |}.

Definition editorDiv : NodeRef := {| tree := 0; at_path := [1] |}.

(** An anchor captured in the text node that was later removed. *)
Definition orphanAnchor : CursorPosition :=
  {| startContainer := {| tree := 1; at_path := [] |}; startOffset := 1;
     endContainer := {| tree := 1; at_path := [] |}; endOffset := 1 |}.

Definition noNotification : Notification :=
  {| message := []; type := info; visible := false |}.

Definition emptyDraft : DraftContent := {| htmlContent := []; timestamp := 0 |}.

(** The component with the text [ab] in the editor and the caret after it. *)
Definition editingWorld : World :=
  {| content := emptyDraft;
     notification := noNotification;
     showClearConfirm := false;
     isComposing := false;
     editorRef := Some editorDiv;
     page := {| trees := [plain "BODY" [plain "H1" [TextNode (lit "t")];
                                        plain "DIV" [TextNode (lit "ab")]]];
                selection := Some (caret 0 [1; 0] 2) |};
     imeActive := false;
     focused := true;
     now := 0;
     timers := [];
     reads := [];
     autosave := Autosave.rearm 0 emptyDraft Autosave.initial |}.

Definition pastedPng : ClipboardItem :=
  {| itemType := lit "image/png";
     getAsFile := Some (lit "data:image/png;base64,aGk=") |}.

(** An image is pasted, a composition starts while the file is read, the
    read completes. *)
Definition pasteThenCompose : list Event :=
  [Paste [pastedPng]; Elapse 5; CompositionStart].

Definition readCompletes : Event :=
  ReaderLoads 0 (lit "k3j9x0a1b") (lit "10:00:00") noMetrics.

(** What the claim asks of a stored value: an object of the fields
    [content] and [timestamp], in either order. *)
Definition contentAndTimestamp (v : jsstring) : Prop :=
  exists s n,
    v = Json.stringify (Json.JObject [(lit "content", Json.JString s);
                                      (lit "timestamp", Json.JNumber n)])
    \/ v = Json.stringify (Json.JObject [(lit "timestamp", Json.JNumber n);
                                         (lit "content", Json.JString s)]).



(** A parser for markup that holds no tag and no character reference: the
    text is one text node. *)
Definition plainTextParser (s : jsstring) : list Node := [TextNode s].

(** An image element of 848 by 159. *)
Definition tieImage : ImgMetrics :=
  {| naturalWidth := 848; naturalHeight := 159; width := 0; height := 0 |}.

(** Two states of the component with the snapshot [hi]: one while typing,
    one during a composition, with no selection, no focus and a timer. *)
Definition typingWorld : World :=
  {| content := {| htmlContent := lit "hi"; timestamp := 10 |};
     notification := noNotification;
     showClearConfirm := false;
     isComposing := false;
     editorRef := Some editorDiv;
     page := page editingWorld;
     imeActive := false;
     focused := true;
     now := 10;
     timers := [];
     reads := [];
     autosave := Autosave.initial |}.

Definition composingWorld : World :=
  {| content := {| htmlContent := lit "hi"; timestamp := 25 |};
     notification := {| message := imageAdded; type := success; visible := true |};
     showClearConfirm := true;
     isComposing := true;
     editorRef := Some editorDiv;
     page := {| trees := trees (page editingWorld); selection := None |};
     imeActive := true;
     focused := false;
     now := 40;
     timers := [(3025%Z, HideNotification)];
     reads := [];
     autosave := Autosave.initial |}.

(** The editor holding [abcd] with [bc] selected. *)
Definition selectedRange : Range :=
  {| rangeStart := point 0 [1; 0] 1; rangeEnd := point 0 [1; 0] 3 |}.

Definition selectedDocument : Node :=
  plain "BODY" [plain "H1" [TextNode (lit "t")];
                plain "DIV" [TextNode (lit "abcd")]].

Definition selectedPage : Page :=
  {| trees := [selectedDocument]; selection := Some selectedRange |}.


(** Three edits less than a second apart, with the timer polled between. *)
Definition firstEdit : DraftContent := {| htmlContent := lit "a"; timestamp := 0 |}.
Definition secondEdit : DraftContent := {| htmlContent := lit "ab"; timestamp := 300 |}.
Definition thirdEdit : DraftContent := {| htmlContent := lit "abc"; timestamp := 1299 |}.

Definition editBurst : list Autosave.Event :=
  [Autosave.Elapse 300; Autosave.Change secondEdit; Autosave.TimerFires;
   Autosave.Elapse 999; Autosave.Change thirdEdit; Autosave.TimerFires].

(** An image whose [src] is not a data URI. *)
Definition remoteImage : Node :=
  ElementNode (lit "IMG") [(lit "src", lit "https://example.org/a.png")]
    noMetrics [].

(** ** Vocabulary of the further properties *)

Import Toolbar DeleteButton JsonText Mount.

(** The nodes that the export visits in place of a node: a [DIV] or a [P]
    stands for what its children stand for, any other node for itself. *)
Fixpoint unwrap (n : Node) : list Node :=
  match n with
  | ElementNode tag attrs m kids =>
      if JS.eqb tag (lit "DIV") || JS.eqb tag (lit "P")
      then (fix all (l : list Node) : list Node :=
              match l with
              | [] => []
              | k :: l' => unwrap k ++ all l'
              end) kids
      else [n]
  | _ => [n]
  end.

(** A paragraph of one run; a text run is not all whitespace. *)
Definition oneRun (p : Paragraph) : Prop :=
  exists r, children p = [r]
            /\ match r with
               | TextRun t => nonBlank t = true
               | ImageRun _ _ _ => True
               end.

(** The characters of [encode] before the padding, and their values. *)
Fixpoint unpadded (bytes : list N) : jsstring :=
  match bytes with
  | a :: b :: c :: r =>
      FileReader.alphabet (a / 4) :: FileReader.alphabet ((a mod 4) * 16 + b / 16)
        :: FileReader.alphabet ((b mod 16) * 4 + c / 64) :: FileReader.alphabet (c mod 64)
        :: unpadded r
  | [a; b] =>
      [FileReader.alphabet (a / 4); FileReader.alphabet ((a mod 4) * 16 + b / 16);
       FileReader.alphabet ((b mod 16) * 4)]
  | [a] => [FileReader.alphabet (a / 4); FileReader.alphabet ((a mod 4) * 16)]
  | [] => []
  end%N.

Fixpoint sextetsOf (bytes : list N) : list N :=
  match bytes with
  | a :: b :: c :: r =>
      a / 4 :: (a mod 4) * 16 + b / 16 :: (b mod 16) * 4 + c / 64 :: c mod 64
        :: sextetsOf r
  | [a; b] => [a / 4; (a mod 4) * 16 + b / 16; (b mod 16) * 4]
  | [a] => [a / 4; (a mod 4) * 16]
  | [] => []
  end%N.

(** The first code units of the files below: the signature of a PNG. *)
Definition pngSignature : FileReader.File :=
  {| FileReader.fileType := lit "image/png";
     FileReader.fileBytes := [137; 80; 78; 71; 13; 10; 26; 10]%N |}.

(** An image whose [src] has the prefix of a data URI and no payload. *)
Definition truncatedImage : Node :=
  ElementNode (lit "IMG") [(lit "src", lit "data:image/png;base64")]
    noMetrics [].

(** A boundary point of the page: its container is there and its offset
    is not past the end of it. *)
Definition validPoint (pg : Page) (bp : BoundaryPoint) : Prop :=
  match resolve pg (container bp) with
  | Some n => offset bp <= nodeLength n
  | None => False
  end.

(** An anchor with an offset past the end of its node, as after the text of
    the node was shortened. *)
Definition staleOffset (pg : Page) (position : CursorPosition) : Prop :=
  (exists n, resolve pg (startContainer position) = Some n
             /\ nodeLength n < startOffset position)
  \/ (exists n, resolve pg (endContainer position) = Some n
                /\ nodeLength n < endOffset position).

(** The data URLs of the image items of a paste that are files. *)
Definition imageFiles (items : list ClipboardItem) : list jsstring :=
  flat_map
    (fun item =>
       if startsWith (itemType item) (lit "image/")
       then match getAsFile item with Some base64 => [base64] | None => [] end
       else [])
    items.

(** An anchor in the text [ab] of the editor with an offset that the text
    no longer has. *)
Definition staleAnchor : CursorPosition :=
  {| startContainer := {| tree := 0; at_path := [1; 0] |}; startOffset := 5;
     endContainer := {| tree := 0; at_path := [1; 0] |}; endOffset := 5 |}.

Definition plainText : ClipboardItem :=
  {| itemType := lit "text/plain"; getAsFile := None |}.

(** No element that the selector of [handleCopyAll] selects is in the tree
    of the node. *)
Fixpoint buttonFree (n : Node) : bool :=
  negb (isDeleteButton n)
  && match n with
     | ElementNode _ _ _ kids =>
         (fix all (l : list Node) : bool :=
            match l with
            | [] => true
            | k :: l' => buttonFree k && all l'
            end) kids
     | _ => true
     end.

(** The markup handed to the clipboard by a call. *)
Definition markupOf (call : ClipboardCall) : jsstring :=
  match call with
  | ClipboardWrite html _ => html
  | ClipboardWriteText html => html
  end.

(** The widget as it is copied: the wrapper with the image alone. *)
Definition copiedWidget (imageId base64 alt : jsstring) (m : ImgMetrics) : Node :=
  match imgWrapper imageId base64 alt m with
  | ElementNode tag attrs wm (img :: _) => ElementNode tag attrs wm [img]
  | n => n
  end.

(** The editor of [editingWorld] selected from end to end. *)
Definition wholeEditor : Range :=
  {| rangeStart := point 0 [1] 0; rangeEnd := point 0 [1] 1 |}.

(** The value that [JSON.parse] gives for a stored draft. *)
Definition ofDraft (c : DraftContent) : parsed :=
  PObject [(lit "htmlContent", PString (htmlContent c));
           (lit "timestamp",
            PNumber (timestamp c <? 0)%Z (Z.abs_N (timestamp c)) 0)].

(** A paste during a composition with no selection: the read of the image
    is pending. *)
Definition pendingRead : World := step composingWorld (Paste [pastedPng]).

(** The component with [bc] of the text [abcd] selected in the editor, and
    the component after an image was pasted over the selection. *)
Definition pastingWorld : World :=
  {| content := emptyDraft;
     notification := noNotification;
     showClearConfirm := false;
     isComposing := false;
     editorRef := Some editorDiv;
     page := selectedPage;
     imeActive := false;
     focused := true;
     now := 0;
     timers := [];
     reads := [];
     autosave := Autosave.rearm 0 emptyDraft Autosave.initial |}.

Definition pastedWorld : World :=
  readerOnLoad false (lit "data:image/png;base64,aGk=") (lit "5k3j9x0a1b")
    (lit "10:00:00") noMetrics pastingWorld.

(** The widget of [pastedWorld]. *)
Definition pastedWidget : Node :=
  imgWrapper (lit "05k3j9x0a1b") (lit "data:image/png;base64,aGk=")
    (pastedImage_ ++ lit "10:00:00") noMetrics.

(** ** Vocabulary of the image state, the deleted content and the stored
    value *)

(** A tree without the image properties, which are not in the markup: the
    browser supplies them from what it has loaded of each image. *)
Fixpoint withoutMetrics (n : Node) : Node :=
  match n with
  | ElementNode tag attrs _ kids =>
      ElementNode tag attrs noMetrics (map withoutMetrics kids)
  | _ => n
  end.

(** A run and a document without the sizes of the images. *)
Definition withoutSize (r : Run) : Run :=
  match r with
  | ImageRun data _ _ => ImageRun data 0 0
  | TextRun _ => r
  end.

Definition withoutSizes (d : Document) : Document :=
  {| sections :=
       map (fun p => {| children := map withoutSize (children p) |})
         (sections d) |}.

(** A PNG file of 1200 by 300 pixels, black, of one bit each. *)
Definition widePng : FileReader.File :=
  {| FileReader.fileType := lit "image/png";
     FileReader.fileBytes :=
      [137; 80; 78; 71; 13; 10; 26; 10; 0; 0; 0; 13; 73; 72; 68; 82;
       0; 0; 4; 176; 0; 0; 1; 44; 1; 0; 0; 0; 0; 251; 198; 119; 253;
       0; 0; 0; 67; 73; 68; 65; 84; 120; 218; 237; 193; 49; 1; 0; 0;
       0; 194; 160; 245; 79; 109; 13; 15; 160; 0; 0; 0; 0; 0; 0; 0; 0;
       0; 0; 0; 0; 0; 0; 0; 0; 0; 0; 0; 0; 0; 0; 0; 0; 0; 0; 0; 0; 0;
       0; 0; 0; 0; 0; 0; 0; 0; 0; 0; 0; 0; 0; 0; 128; 71; 3; 176; 244;
       0; 1; 88; 54; 145; 193; 0; 0; 0; 0; 73; 69; 78; 68; 174; 66;
       96; 130]%N |}.

(** The image element of that file, with the image properties [m]. *)
Definition wideImage (m : ImgMetrics) : Node :=
  ElementNode (lit "IMG") [(lit "src", FileReader.readAsDataURL widePng)] m [].

(** The markup of that image, and what the browser parses from it: while
    it has not loaded the image the dimensions read as zero, and once it
    has, they are those of the image. *)
Definition oneImage : jsstring :=
  Markup.serializeNode (lit "div") (wideImage noMetrics).

Definition imageNotLoaded (s : jsstring) : list Node := [wideImage noMetrics].

Definition imageLoaded (s : jsstring) : list Node :=
  [wideImage {| naturalWidth := 1200; naturalHeight := 300;
                width := 1200; height := 300 |}].

(** The component with the snapshot [oneImage]. *)
Definition imageWorld : World :=
  {| content := {| htmlContent := oneImage; timestamp := 10 |};
     notification := noNotification;
     showClearConfirm := false;
     isComposing := false;
     editorRef := Some editorDiv;
     page := page editingWorld;
     imeActive := false;
     focused := true;
     now := 20;
     timers := [];
     reads := [];
     autosave := Autosave.initial |}.

(** The paragraphs without the sizes of the images, and the log. *)
Definition sizeless (st : ExportState) : list (list Run) * list ConsoleEntry :=
  (map (fun p => map withoutSize (children p)) (paragraphs st), console st).

(** The attributes of the image that a query found. *)
Definition attributesOnly (r : option (list (jsstring * jsstring) * ImgMetrics))
  : option (list (jsstring * jsstring)) :=
  option_map fst r.


(** A tree without the content of the range from [(ps, os)] to [(pe, oe)]:
    every node contained in the range is gone, the character data of the
    node the range starts in ends at the start of the range, the
    character data of the node the range ends in begins at the end of the
    range, and everything else is as it was.  [q] is the path of the
    node. *)
Section WithoutRange.
Variables (ps : path) (os : nat) (pe : path) (oe : nat).


Section Children.
Variable keptNode : path -> Node -> Node.
Variable q : path.

End Children.

End WithoutRange.




(** A stored value that is not a draft: an object with a third field. *)
Definition foreignValue : jsstring :=
  Json.stringify
    (Json.JObject [(lit "htmlContent", Json.JString (lit "x"));
                   (lit "timestamp", Json.JNumber 1);
                   (lit "v", Json.JString (lit "w"))]).

(** What [localStorage] holds after sessions of the component, each with
    the time of its mount and its events, the first one finding [saved]. *)
Fixpoint sessions (numberText : bool -> N -> Z -> jsstring)
  (saved : option jsstring) (l : list (Z * list Persistence.Event))
  : option jsstring :=
  match l with
  | [] => saved
  | (now, tr) :: l' =>
      sessions numberText
        (Persistence.storage
           (Persistence.run numberText (Persistence.mount now saved) tr)) l'
  end.

(** The state is a draft, the component is mounted, and the timer, when
    there is one, holds the state. *)
Definition DraftState (st : Persistence.State) : Prop :=
  exists c : DraftContent,
    Persistence.content st = ofDraft c
    /\ Persistence.timeValue (timestamp c) = true
    /\ Persistence.mounted st = true
    /\ match Persistence.pending st with
       | Some (_, v) => v = Persistence.content st
       | None => True
       end.

(** * Properties *)

Section Binary64.
Open Scope Q_scope.

Lemma roundHalfEven_near (s : Q) :
  inject_Z (roundHalfEven s) - s <= 1 # 2
  /\ s - inject_Z (roundHalfEven s) <= 1 # 2.
Proof.
  unfold roundHalfEven.
  pose proof (Qfloor_le s) as Hlo. pose proof (Qlt_floor s) as Hhi.
  rewrite inject_Z_plus in Hhi. change (inject_Z 1) with 1 in Hhi.
  destruct (Qcompare (s - inject_Z (Qfloor s)) (1 # 2)) eqn:E.
  - apply Qeq_alt in E.
    destruct (Z.even (Qfloor s)).
    + split; lra.
    + rewrite inject_Z_plus. change (inject_Z 1) with 1. split; lra.
  - apply Qlt_alt in E. split; lra.
  - apply Qgt_alt in E. rewrite inject_Z_plus. change (inject_Z 1) with 1.
    split; lra.
Qed.

Lemma two_pos (e : Z) : 0 < two ^ e.
Proof. apply Qpower_0_lt. reflexivity. Qed.

Lemma two_nonzero : ~ two == 0.
Proof. discriminate. Qed.

Lemma two_power_Z (a : Z) : (0 <= a)%Z -> two ^ a == inject_Z (2 ^ a).
Proof. intros H. now rewrite Zpower_Qpower. Qed.

(** The exponent that [binary64] picks brings the scaled value to [2^52]
    at least. *)
Lemma scaled_lower (n d : positive) :
  let x := Zpos n # d in
  let e1 := (Z.log2 (Zpos n) - Z.log2 (Zpos d) - 52)%Z in
  let e := if Qle_bool (inject_Z (2 ^ 52)) (x / two ^ e1) then e1 else (e1 - 1)%Z in
  inject_Z (2 ^ 52) <= x / two ^ e.
Proof.
  intros x e1 e. subst e.
  destruct (Qle_bool (inject_Z (2 ^ 52)) (x / two ^ e1)) eqn:E.
  - now apply Qle_bool_iff.
  - clear E.
    set (a := Z.log2 (Zpos n)). set (b := Z.log2 (Zpos d)).
    assert (Ha : (0 <= a)%Z) by apply Z.log2_nonneg.
    assert (Hb : (0 <= b)%Z) by apply Z.log2_nonneg.
    destruct (Z.log2_spec (Zpos n)) as [Hn _]; [reflexivity|].
    destruct (Z.log2_spec (Zpos d)) as [_ Hd]; [reflexivity|].
    fold a in Hn. fold b in Hd.
    replace (e1 - 1)%Z with (a + (- (b + 1) + - 52))%Z by (unfold e1; fold a b; lia).
    rewrite !Qpower_plus by apply two_nonzero.
    rewrite !Qpower_opp. change (two ^ (-52)) with (/ two ^ 52).
    pose proof (two_pos a) as Pa. pose proof (two_pos (b + 1)) as Pb.
    pose proof (two_pos 52) as P52.
    assert (Hx : two ^ a <= x * two ^ (b + 1)).
    { rewrite (two_power_Z a Ha), (two_power_Z (b + 1)) by lia.
      unfold x, Qle, Qmult, inject_Z. cbn [Qnum Qden].
      replace (Z.succ b) with (b + 1)%Z in Hd by lia.
      nia. }
    apply Qle_shift_div_l.
    { apply Qmult_lt_0_compat; [exact Pa|].
      apply Qmult_lt_0_compat; apply Qinv_lt_0_compat; assumption. }
    rewrite (two_power_Z 52) in * by lia.
    set (A := two ^ a) in *. set (B := two ^ (b + 1)) in *.
    set (C := inject_Z (2 ^ 52)) in *.
    assert (HB : B * / B == 1) by (apply Qmult_inv_r; lra).
    assert (HC : C * / C == 1) by (apply Qmult_inv_r; lra).
    assert (Hinv : 0 < / B) by now apply Qinv_lt_0_compat.
    (* C * (A * (/B * /C)) = A * /B <= x *)
    assert (H1 : C * (A * (/ B * / C)) == A * / B).
    { transitivity (A * / B * (C * / C)); [ring|]. rewrite HC. ring. }
    rewrite H1.
    assert (H2 : A * / B <= x * B * / B).
    { apply Qmult_le_compat_r; [exact Hx | lra]. }
    assert (H3 : x * B * / B == x).
    { transitivity (x * (B * / B)); [ring|]. rewrite HB. ring. }
    rewrite H3 in H2. exact H2.
Qed.

(** Rounding to binary64 moves a positive value by at most the unit
    roundoff, relatively. *)
Lemma binary64_error (x : Q) :
  0 < x ->
  x - unitRoundoff * x <= binary64 x /\ binary64 x <= x + unitRoundoff * x.
Proof.
  destruct x as [n d]. intros Hx.
  assert (Hn : exists p, n = Zpos p).
  { unfold Qlt in Hx. cbn in Hx. destruct n as [|p|p]; try lia. now exists p. }
  destruct Hn as [p ->].
  unfold binary64. cbn [Qnum Qabs Z.abs Qden Z.ltb Z.compare].
  pose proof (scaled_lower p d) as Hlow. cbv zeta in Hlow.
  set (e := if Qle_bool _ _ then _ else _) in *.
  pose proof (two_pos e) as HP.
  set (P := two ^ e) in *. set (x := Zpos p # d) in *.
  pose proof (roundHalfEven_near (x / P)) as [Hup Hdown].
  set (m := inject_Z (roundHalfEven (x / P))) in *.
  change (inject_Z (2 ^ 52)) with (4503599627370496 # 1) in Hlow.
  assert (HxP : x / P * P == x).
  { rewrite Qmult_comm. apply Qmult_div_r. lra. }
  set (S := x / P) in *.
  assert (F1 : (m - S) * P <= (1 # 2) * P) by (apply Qmult_le_compat_r; lra).
  assert (F2 : (S - m) * P <= (1 # 2) * P) by (apply Qmult_le_compat_r; lra).
  assert (F3 : (4503599627370496 # 1) * P <= S * P)
    by (apply Qmult_le_compat_r; lra).
  unfold unitRoundoff. split; lra.
Qed.

Lemma binary64_pos (x : Q) : 0 < x -> 0 < binary64 x.
Proof.
  intros Hx. destruct (binary64_error x Hx) as [H _].
  unfold unitRoundoff in H. lra.
Qed.

Lemma fdiv_error (a b : Q) :
  0 < a -> 0 < b ->
  a / b - unitRoundoff * (a / b) <= fdiv a b
  /\ fdiv a b <= a / b + unitRoundoff * (a / b).
Proof.
  intros Ha Hb. apply binary64_error.
  apply Qlt_shift_div_l; [exact Hb|]. lra.
Qed.

Lemma fmul_error (a b : Q) :
  0 < a -> 0 < b ->
  a * b - unitRoundoff * (a * b) <= fmul a b
  /\ fmul a b <= a * b + unitRoundoff * (a * b).
Proof.
  intros Ha Hb. apply binary64_error. now apply Qmult_lt_0_compat.
Qed.

End Binary64.

(** ** The export pipeline *)
Section ExportFacts.

Import ExportPipeline.

(** Induction on nodes, with the property known of the children. *)
Lemma Node_induction (P : Node -> Prop) :
  (forall d, P (TextNode d)) ->
  (forall d, P (CommentNode d)) ->
  (forall tag attrs m kids, Forall P kids -> P (ElementNode tag attrs m kids)) ->
  forall n, P n.
Proof.
  intros Htext Hcomment Helement.
  fix IH 1. intros [d|d|tag attrs m kids].
  - apply Htext.
  - apply Hcomment.
  - apply Helement. induction kids as [|k kids IHkids]; constructor.
    + apply IH.
    + exact IHkids.
Qed.

Lemma lines_fold (ls : list jsstring) : forall st,
  fold_left
    (fun st line =>
       if truthy (trim line) then push {| children := [TextRun line] |} st else st)
    ls st
  = {| paragraphs := paragraphs st ++ map textParagraph (filter nonBlank ls);
       console := console st |}.
Proof.
  induction ls as [|l ls IH]; intros st; simpl.
  - rewrite app_nil_r. now destruct st.
  - rewrite IH. unfold nonBlank. destruct (truthy (trim l)); simpl.
    + now rewrite <- app_assoc.
    + reflexivity.
Qed.

Lemma processText_spec data st :
  processText data st
  = {| paragraphs := paragraphs st
                     ++ map textParagraph (filter nonBlank (split LF (trim data)));
       console := console st |}.
Proof.
  unfold processText. destruct (trim data) as [|c text] eqn:E.
  - simpl. rewrite app_nil_r. now destruct st.
  - cbn [truthy]. apply lines_fold.
Qed.

Lemma Additive_id : Additive (fun st => st).
Proof. intros [ps cs]. simpl. now rewrite !app_nil_r. Qed.

Lemma Additive_compose f g :
  Additive f -> Additive g -> Additive (fun st => g (f st)).
Proof.
  intros Hf Hg st. rewrite (Hg (f st)), (Hg (f emptyExport)), (Hf st).
  simpl. now rewrite !app_assoc.
Qed.

Lemma Additive_push p : Additive (push p).
Proof. intros [ps cs]. unfold push. simpl. now rewrite app_nil_r. Qed.

Lemma Additive_consoleError e : Additive (consoleError e).
Proof. intros [ps cs]. unfold consoleError. simpl. now rewrite app_nil_r. Qed.

Lemma Additive_processText data : Additive (processText data).
Proof.
  intros st. rewrite !processText_spec. simpl. now rewrite app_nil_r.
Qed.

Lemma Additive_processImage attrs m : Additive (processImage attrs m).
Proof.
  unfold processImage.
  destruct (getAttribute (lit "src") attrs) as [src|]; [|apply Additive_id].
  destruct (truthy src && startsWith src (lit "data:image/")); [|apply Additive_id].
  destruct (exportSize (originalWidth m) (originalHeight m)) as [ew eh].
  destruct (Base64.atob _); [apply Additive_push | apply Additive_consoleError].
Qed.

Lemma Additive_processNodes l :
  Forall (fun n => Additive (processNode n)) l -> Additive (processNodes l).
Proof.
  induction 1 as [|k l Hk _ IH]; simpl.
  - apply Additive_id.
  - apply (Additive_compose _ _ Hk IH).
Qed.

Lemma children_loop l : forall st,
  (fix each (l : list Node) (st : ExportState) : ExportState :=
     match l with
     | [] => st
     | k :: l' => each l' (processNode k st)
     end) l st = processNodes l st.
Proof. induction l; intros; simpl; auto. Qed.

Lemma Additive_processNode n : Additive (processNode n).
Proof.
  induction n as [d|d|tag attrs m kids IH] using Node_induction.
  - apply Additive_processText.
  - apply Additive_id.
  - cbn [processNode].
    destruct (JS.eqb tag (lit "IMG")); [apply Additive_processImage|].
    destruct (JS.eqb tag (lit "SPAN") && classList_contains attrs (lit "inline-image")).
    { destruct (querySelector_img kids) as [[ia im]|];
        [apply Additive_processImage | apply Additive_id]. }
    destruct (JS.eqb tag (lit "DIV") || JS.eqb tag (lit "P")).
    { intros st. rewrite !children_loop. now apply Additive_processNodes. }
    destruct (truthy _); [apply Additive_push | apply Additive_id].
Qed.

Lemma processNodes_app l1 l2 st :
  processNodes (l1 ++ l2) st = processNodes l2 (processNodes l1 st).
Proof. revert st. induction l1; intros; simpl; auto. Qed.

End ExportFacts.

Section AspectFit.
Import ExportPipeline.
Open Scope Q_scope.

Lemma Math_round_nearest (x : Q) :
  inject_Z (Math_round x) - (1 # 2) <= x
  /\ x < inject_Z (Math_round x) + (1 # 2).
Proof.
  unfold Math_round.
  pose proof (Qfloor_le (x + (1 # 2))) as Hlo.
  pose proof (Qlt_floor (x + (1 # 2))) as Hhi.
  rewrite inject_Z_plus in Hhi. change (inject_Z 1) with 1 in Hhi.
  split; lra.
Qed.

Lemma inject_Z_pos (z : Z) : (0 < z)%Z -> 0 < inject_Z z.
Proof. intros H. change 0 with (inject_Z 0). now rewrite <- Zlt_Qlt. Qed.

Lemma exactRatio_pos (w h : Z) : (0 < w)%Z -> (0 < h)%Z -> 0 < exactRatio w h.
Proof.
  intros Hw Hh. unfold exactRatio.
  assert (0 < inject_Z 600 / inject_Z w).
  { apply Qlt_shift_div_l; [now apply inject_Z_pos|]. rewrite Qmult_0_l. reflexivity. }
  assert (0 < inject_Z 450 / inject_Z h).
  { apply Qlt_shift_div_l; [now apply inject_Z_pos|]. rewrite Qmult_0_l. reflexivity. }
  destruct (Q.min_spec (inject_Z 600 / inject_Z w) (inject_Z 450 / inject_Z h))
    as [[_ ->]|[_ ->]]; assumption.
Qed.

Lemma codeRatio_error (w h : Z) :
  (0 < w)%Z -> (0 < h)%Z ->
  exactRatio w h - unitRoundoff * exactRatio w h <= codeRatio w h
  /\ codeRatio w h <= exactRatio w h + unitRoundoff * exactRatio w h.
Proof.
  intros Hw Hh. unfold exactRatio, codeRatio, Math_min, maxWidth, maxHeight.
  pose proof (inject_Z_pos w Hw) as HW. pose proof (inject_Z_pos h Hh) as HH.
  destruct (fdiv_error (inject_Z 600) (inject_Z w) eq_refl HW) as [A1 A2].
  destruct (fdiv_error (inject_Z 450) (inject_Z h) eq_refl HH) as [B1 B2].
  set (a := inject_Z 600 / inject_Z w) in *.
  set (b := inject_Z 450 / inject_Z h) in *.
  set (fa := fdiv (inject_Z 600) (inject_Z w)) in *.
  set (fb := fdiv (inject_Z 450) (inject_Z h)) in *.
  unfold unitRoundoff in *.
  destruct (Q.min_spec a b) as [[Hab ->]|[Hab ->]];
    destruct (Q.min_spec fa fb) as [[Hf ->]|[Hf ->]]; split; lra.
Qed.

(** The exact scaled dimension is within the bound. *)
Lemma exact_scaled_le (w h : Z) :
  (0 < w)%Z -> (0 < h)%Z ->
  inject_Z w * exactRatio w h <= inject_Z 600
  /\ inject_Z h * exactRatio w h <= inject_Z 450.
Proof.
  intros Hw Hh. unfold exactRatio.
  pose proof (inject_Z_pos w Hw) as HW. pose proof (inject_Z_pos h Hh) as HH.
  assert (Ew : inject_Z w * (inject_Z 600 / inject_Z w) == inject_Z 600)
    by (apply Qmult_div_r; lra).
  assert (Eh : inject_Z h * (inject_Z 450 / inject_Z h) == inject_Z 450)
    by (apply Qmult_div_r; lra).
  split.
  - rewrite <- Ew at 2. apply Qmult_le_l; [exact HW|]. apply Q.le_min_l.
  - rewrite <- Eh at 2. apply Qmult_le_l; [exact HH|]. apply Q.le_min_r.
Qed.

(** The product that the code rounds is close to the exact scaled
    dimension [d * exactRatio]. *)
Lemma product_error (d w h : Z) :
  (0 < d)%Z -> (0 < w)%Z -> (0 < h)%Z ->
  let X := inject_Z d * exactRatio w h in
  let p := fmul (inject_Z d) (codeRatio w h) in
  X - (3 # 9007199254740992) * X <= p /\ p <= X + (3 # 9007199254740992) * X.
Proof.
  intros Hd Hw Hh X p.
  pose proof (inject_Z_pos d Hd) as HD.
  pose proof (exactRatio_pos w h Hw Hh) as Hr.
  destruct (codeRatio_error w h Hw Hh) as [R1 R2]. unfold unitRoundoff in R1, R2.
  assert (Hc : 0 < codeRatio w h) by lra.
  destruct (fmul_error (inject_Z d) (codeRatio w h) HD Hc) as [M1 M2].
  fold p in M1, M2. unfold unitRoundoff in M1, M2.
  assert (P1 : inject_Z d * (exactRatio w h - (1 # 9007199254740992) * exactRatio w h)
               <= inject_Z d * codeRatio w h)
    by (apply Qmult_le_l; assumption).
  assert (P2 : inject_Z d * codeRatio w h
               <= inject_Z d * (exactRatio w h + (1 # 9007199254740992) * exactRatio w h))
    by (apply Qmult_le_l; assumption).
  assert (HX : 0 < X) by (apply Qmult_lt_0_compat; assumption).
  subst X. split; lra.
Qed.

Lemma Qfloor_below (x : Q) (k : Z) : x < inject_Z (k + 1) -> (Qfloor x <= k)%Z.
Proof.
  intros H. pose proof (Qfloor_le x) as Hf.
  assert (Hlt : inject_Z (Qfloor x) < inject_Z (k + 1)) by lra.
  rewrite <- Zlt_Qlt in Hlt. lia.
Qed.

Lemma Math_round_pos (x : Q) : 0 < x -> (0 <= Math_round x)%Z.
Proof.
  intros H. destruct (Math_round_nearest x) as [_ Hhi].
  assert (Hlt : inject_Z (-1) < inject_Z (Math_round x)).
  { change (inject_Z (-1)) with (-1 # 1). lra. }
  rewrite <- Zlt_Qlt in Hlt. lia.
Qed.

Lemma exportSize_bounds (w h : Z) :
  (0 < w)%Z -> (0 < h)%Z ->
  (0 <= fst (exportSize w h) <= maxWidth)%Z
  /\ (0 <= snd (exportSize w h) <= maxHeight)%Z.
Proof.
  intros Hw Hh. unfold exportSize.
  destruct ((w >? maxWidth)%Z || (h >? maxHeight)%Z) eqn:E; cbn [fst snd].
  - fold (codeRatio w h).
    destruct (exact_scaled_le w h Hw Hh) as [Xw Xh].
    pose proof (exactRatio_pos w h Hw Hh) as Hr.
    pose proof (inject_Z_pos w Hw) as HW. pose proof (inject_Z_pos h Hh) as HH.
    assert (HXw : 0 < inject_Z w * exactRatio w h) by now apply Qmult_lt_0_compat.
    assert (HXh : 0 < inject_Z h * exactRatio w h) by now apply Qmult_lt_0_compat.
    destruct (product_error w w h Hw Hw Hh) as [W1 W2].
    destruct (product_error h w h Hh Hw Hh) as [H1 H2].
    cbv zeta in W1, W2, H1, H2.
    change (inject_Z 600) with (600 # 1) in Xw.
    change (inject_Z 450) with (450 # 1) in Xh.
    unfold maxWidth, maxHeight.
    repeat split.
    + apply Math_round_pos. lra.
    + unfold Math_round. apply Qfloor_below.
      change (inject_Z (600 + 1)) with (601 # 1). lra.
    + apply Math_round_pos. lra.
    + unfold Math_round. apply Qfloor_below.
      change (inject_Z (450 + 1)) with (451 # 1). lra.
  - apply orb_false_iff in E. destruct E as [E1 E2].
    rewrite Z.gtb_ltb, Z.ltb_ge in E1, E2. lia.
Qed.

Ltac push_inject_Z :=
  unfold Z.sub;
  repeat (rewrite inject_Z_plus || rewrite inject_Z_mult || rewrite inject_Z_opp).

Ltac push_inject_Z_in H :=
  unfold Z.sub in H;
  repeat (rewrite inject_Z_plus in H || rewrite inject_Z_mult in H
          || rewrite inject_Z_opp in H).

(** An integer within a half and a little of a fraction of small
    denominator is within a half of it. *)
Lemma nearest_of_close (e N D : Z) (p : Q) :
  (0 < D < 4294967296)%Z ->
  let X := inject_Z N / inject_Z D in
  X - (1 # 17179869184) <= p -> p <= X + (1 # 17179869184) ->
  inject_Z e - (1 # 2) <= p -> p < inject_Z e + (1 # 2) ->
  inject_Z e - X <= 1 # 2 /\ X - inject_Z e <= 1 # 2.
Proof.
  intros [HD0 HD1] X P1 P2 E1 E2.
  pose proof (inject_Z_pos D HD0) as HDq.
  assert (HDb : inject_Z D < 4294967296 # 1).
  { change (4294967296 # 1) with (inject_Z 4294967296). now rewrite <- Zlt_Qlt. }
  assert (HX : X * inject_Z D == inject_Z N).
  { unfold X. rewrite Qmult_comm. apply Qmult_div_r. lra. }
  set (Dq := inject_Z D) in *. set (Nq := inject_Z N) in *. set (eq := inject_Z e) in *.
  assert (A1 : (eq - X - (1 # 2) - (1 # 17179869184)) * Dq <= 0 * Dq)
    by (apply Qmult_le_compat_r; lra).
  assert (A2 : (X - eq - (1 # 2) - (1 # 17179869184)) * Dq <= 0 * Dq)
    by (apply Qmult_le_compat_r; lra).
  assert (K1 : inject_Z (2 * e * D - 2 * N - D) < inject_Z 1).
  { push_inject_Z.
    fold Dq Nq eq. change (inject_Z 2) with (2 # 1). change (inject_Z 1) with 1.
    lra. }
  assert (K2 : inject_Z (2 * N - 2 * e * D - D) < inject_Z 1).
  { push_inject_Z.
    fold Dq Nq eq. change (inject_Z 2) with (2 # 1). change (inject_Z 1) with 1.
    lra. }
  rewrite <- Zlt_Qlt in K1, K2.
  assert (L1 : inject_Z (2 * e * D - 2 * N - D) <= inject_Z 0)
    by (rewrite <- Zle_Qle; lia).
  assert (L2 : inject_Z (2 * N - 2 * e * D - D) <= inject_Z 0)
    by (rewrite <- Zle_Qle; lia).
  push_inject_Z_in L1. push_inject_Z_in L2.
  fold Dq Nq eq in L1, L2. change (inject_Z 2) with (2 # 1) in L1, L2.
  change (inject_Z 0) with 0 in L1, L2.
  split.
  - apply (Qmult_le_r _ _ Dq HDq). lra.
  - apply (Qmult_le_r _ _ Dq HDq). lra.
Qed.

(** The exact scaled dimension is a fraction over the width or the
    height, or an integer. *)
Lemma exact_scaled_fraction (d w h : Z) :
  (0 < w < 4294967296)%Z -> (0 < h < 4294967296)%Z ->
  (d = w \/ d = h) ->
  exists N D,
    (0 < D < 4294967296)%Z
    /\ inject_Z d * exactRatio w h == inject_Z N / inject_Z D.
Proof.
  intros Hw Hh Hd. unfold exactRatio.
  pose proof (inject_Z_pos w (proj1 Hw)) as HW.
  pose proof (inject_Z_pos h (proj1 Hh)) as HH.
  destruct (Q.min_spec (inject_Z 600 / inject_Z w) (inject_Z 450 / inject_Z h))
    as [[_ E]|[_ E]].
  - exists (d * 600)%Z, w. split; [exact Hw|].
    rewrite E, inject_Z_mult. unfold Qdiv. ring.
  - exists (d * 450)%Z, h. split; [exact Hh|].
    rewrite E, inject_Z_mult. unfold Qdiv. ring.
Qed.

(** The rounded product is an integer nearest to the exact scaled
    dimension. *)
Lemma scaled_nearest (d w h : Z) :
  (0 < w < 4294967296)%Z -> (0 < h < 4294967296)%Z ->
  (d = w \/ d = h) ->
  let X := inject_Z d * exactRatio w h in
  let e := Math_round (fmul (inject_Z d) (codeRatio w h)) in
  inject_Z e - X <= 1 # 2 /\ X - inject_Z e <= 1 # 2.
Proof.
  intros Hw Hh Hd X e.
  assert (Hd0 : (0 < d)%Z) by (destruct Hd; subst; lia).
  destruct (exact_scaled_fraction d w h Hw Hh Hd) as (N & D & HD & HX).
  fold X in HX.
  destruct (product_error d w h Hd0 (proj1 Hw) (proj1 Hh)) as [P1 P2].
  cbv zeta in P1, P2. fold X in P1, P2.
  destruct (exact_scaled_le w h (proj1 Hw) (proj1 Hh)) as [Xw Xh].
  assert (HXb : 0 < X /\ X <= 600 # 1).
  { pose proof (exactRatio_pos w h (proj1 Hw) (proj1 Hh)) as Hr.
    pose proof (inject_Z_pos d Hd0) as HDq.
    split; [now apply Qmult_lt_0_compat|].
    unfold X. change (inject_Z 600) with (600 # 1) in Xw.
    change (inject_Z 450) with (450 # 1) in Xh.
    destruct Hd; subst d; lra. }
  destruct (Math_round_nearest (fmul (inject_Z d) (codeRatio w h))) as [E1 E2].
  fold e in E1, E2.
  rewrite HX. apply (nearest_of_close e N D (fmul (inject_Z d) (codeRatio w h)) HD).
  - rewrite <- HX. lra.
  - rewrite <- HX. lra.
  - exact E1.
  - exact E2.
Qed.

Lemma originalWidth_pos m : (0 < originalWidth m)%Z.
Proof.
  unfold originalWidth, or_else.
  destruct (N.eqb_spec (naturalWidth m) 0) as [E|E]; cbv iota.
  - destruct (N.eqb_spec (width m) 0) as [E'|E']; lia.
  - destruct (N.eqb_spec (naturalWidth m) 0); lia.
Qed.

Lemma originalHeight_pos m : (0 < originalHeight m)%Z.
Proof.
  unfold originalHeight, or_else.
  destruct (N.eqb_spec (naturalHeight m) 0) as [E|E]; cbv iota.
  - destruct (N.eqb_spec (height m) 0) as [E'|E']; lia.
  - destruct (N.eqb_spec (naturalHeight m) 0); lia.
Qed.

End AspectFit.

Section ExportClaims.
Import ExportPipeline Coordinator.
Open Scope Z_scope.

Lemma paragraphs_cons k l :
  paragraphs (processNodes (k :: l) emptyExport)
  = paragraphs (processNode k emptyExport) ++ paragraphs (processNodes l emptyExport).
Proof.
  simpl. rewrite (Additive_processNodes l).
  - reflexivity.
  - apply Forall_forall. intros n _. apply Additive_processNode.
Qed.

Lemma Sourced_nil l : Sourced l [].
Proof. intros p d ew eh []. Qed.

Lemma Sourced_text l ls : Sourced l (map textParagraph ls).
Proof.
  intros p d ew eh Hin Hrun. apply in_map_iff in Hin as (x & <- & _).
  simpl in Hrun. destruct Hrun as [Hrun|[]]. discriminate.
Qed.

Lemma Within_more n l l' : (forall x, In x l -> In x l') -> Within n l -> Within n l'.
Proof.
  intros Hsub H. inversion H as [l0 H0|tag attrs m kids l0 H0 Hk]; subst.
  - apply Within_here. auto.
  - eapply Within_below; eauto.
Qed.

Lemma Sourced_more l l' ps :
  (forall x, In x l -> In x l') -> Sourced l ps -> Sourced l' ps.
Proof.
  intros Hsub H p d ew eh Hp Hrun.
  destruct (H p d ew eh Hp Hrun) as (node & attrs & m & src & Hw & Hrest).
  exists node, attrs, m, src. split; [|exact Hrest].
  exact (Within_more _ _ _ Hsub Hw).
Qed.

Lemma Sourced_app l ps qs : Sourced l ps -> Sourced l qs -> Sourced l (ps ++ qs).
Proof.
  intros Hp Hq p d ew eh Hin. apply in_app_or in Hin as [Hin|Hin]; eauto.
Qed.

Lemma Sourced_processImage node attrs m :
  imageOf node = Some (attrs, m) ->
  Sourced [node] (paragraphs (processImage attrs m emptyExport)).
Proof.
  intros Himg. unfold processImage.
  destruct (getAttribute (lit "src") attrs) as [src|] eqn:Esrc; [|apply Sourced_nil].
  destruct (truthy src && startsWith src (lit "data:image/")) eqn:Edata;
    [|apply Sourced_nil].
  destruct (exportSize (originalWidth m) (originalHeight m)) as [ew eh] eqn:E.
  destruct (Base64.atob _) as [bytes|] eqn:Eb; [|apply Sourced_nil].
  intros p d ew' eh' [<-|[]] [Hrun|[]]. inversion Hrun; subst.
  exists node, attrs, m, src.
  apply andb_true_iff in Edata as [_ Edata].
  repeat split; auto. apply Within_here. now left.
Qed.

Lemma Sourced_processNodes l :
  Forall (fun n => Sourced [n] (paragraphs (processNode n emptyExport))) l ->
  Sourced l (paragraphs (processNodes l emptyExport)).
Proof.
  induction 1 as [|k l Hk _ IH].
  - apply Sourced_nil.
  - rewrite paragraphs_cons. apply Sourced_app.
    + apply (Sourced_more [k]); [|exact Hk]. intros x [<-|[]]. now left.
    + apply (Sourced_more l); [|exact IH]. intros x Hx. now right.
Qed.

Lemma Sourced_processNode n : Sourced [n] (paragraphs (processNode n emptyExport)).
Proof.
  induction n as [d|d|tag attrs m kids IH] using Node_induction.
  - cbn [processNode]. rewrite processText_spec. apply Sourced_text.
  - apply Sourced_nil.
  - cbn [processNode].
    destruct (JS.eqb tag (lit "IMG")) eqn:Eimg.
    { apply Sourced_processImage. cbn [imageOf]. now rewrite Eimg. }
    destruct (JS.eqb tag (lit "SPAN") && classList_contains attrs (lit "inline-image"))
      eqn:Espan.
    { destruct (querySelector_img kids) as [[ia im]|] eqn:Eq; [|apply Sourced_nil].
      apply Sourced_processImage. cbn [imageOf]. now rewrite Eimg, Espan. }
    destruct (JS.eqb tag (lit "DIV") || JS.eqb tag (lit "P")).
    { rewrite children_loop.
      pose proof (Sourced_processNodes kids IH) as Hk.
      intros p d ew eh Hp Hrun.
      destruct (Hk p d ew eh Hp Hrun) as (node & ia & im & src & Hw & Hrest).
      exists node, ia, im, src. split; [|exact Hrest].
      eapply Within_below; [now left | exact Hw]. }
    destruct (truthy _); [|apply Sourced_nil].
    apply (Sourced_text _ [_]).
Qed.

Lemma Sourced_document parseHTML w :
  Sourced (parseHTML (htmlContent (content w)))
    (sections (handleExportWord parseHTML w)).
Proof.
  unfold handleExportWord.
  assert (H : Sourced (parseHTML (htmlContent (content w)))
                (paragraphs (collect parseHTML w))).
  { unfold collect. destruct (editorRef w) as [ed|]; [|apply Sourced_nil].
    destruct (truthy _); [|apply Sourced_nil].
    apply Sourced_processNodes, Forall_forall. intros k _.
    apply Sourced_processNode. }
  destruct (paragraphs (collect parseHTML w)); [|exact H].
  apply (Sourced_text _ [_]).
Qed.

(** C1: the export size of an image is its own size when that is within
    600 by 450; otherwise each dimension is multiplied by the smaller of
    600/width and 450/height and rounded, which gives an integer nearest to
    the dimension scaled exactly by min(600/width, 450/height).  No export
    size exceeds 600 by 450.  Every image run of an exported document comes
    from an image of the parsed snapshot: it holds the decoded bytes of
    that image, and its size is the export size of the dimensions of that
    same image.  (1200, 300) gives (600, 150), (300, 200) stays,
    (800, 900) gives (400, 450). *)
Theorem C1_aspect_fit :
  (forall m : ImgMetrics,
     let w := originalWidth m in
     let h := originalHeight m in
     let within := (w <=? 600) && (h <=? 450) in
     w < 4294967296 -> h < 4294967296 ->
     exportSize w h
     = (if within then (w, h)
        else (Math_round (fmul (inject_Z w) (codeRatio w h)),
              Math_round (fmul (inject_Z h) (codeRatio w h))))
     /\ (within = false ->
         let scaledW := (inject_Z w * exactRatio w h)%Q in
         let scaledH := (inject_Z h * exactRatio w h)%Q in
         ((inject_Z (fst (exportSize w h)) - scaledW <= 1 # 2)%Q
          /\ (scaledW - inject_Z (fst (exportSize w h)) <= 1 # 2)%Q)
         /\ ((inject_Z (snd (exportSize w h)) - scaledH <= 1 # 2)%Q
             /\ (scaledH - inject_Z (snd (exportSize w h)) <= 1 # 2)%Q))
     /\ 0 <= fst (exportSize w h) <= 600
     /\ 0 <= snd (exportSize w h) <= 450)
  /\ (forall (parseHTML : jsstring -> list Node) (w : World) p data ew eh,
        In p (sections (handleExportWord parseHTML w)) ->
        In (ImageRun data ew eh) (children p) ->
        (exists node attrs m src,
           Within node (parseHTML (htmlContent (content w)))
           /\ imageOf node = Some (attrs, m)
           /\ getAttribute (lit "src") attrs = Some src
           /\ startsWith src (lit "data:image/") = true
           /\ Base64.atob (payload src) = Some data
           /\ (ew, eh) = exportSize (originalWidth m) (originalHeight m))
        /\ 0 <= ew <= 600 /\ 0 <= eh <= 450)
  /\ exportSize 1200 300 = (600, 150)
  /\ exportSize 300 200 = (300, 200)
  /\ exportSize 800 900 = (400, 450).
Proof.
  split; [|split; [|repeat split; vm_compute; reflexivity]].
  - intros m w h within Hw Hh.
    pose proof (originalWidth_pos m) as Hw0. pose proof (originalHeight_pos m) as Hh0.
    fold w in Hw0. fold h in Hh0.
    assert (Heq : exportSize w h
                  = (if within then (w, h)
                     else (Math_round (fmul (inject_Z w) (codeRatio w h)),
                           Math_round (fmul (inject_Z h) (codeRatio w h))))).
    { unfold exportSize, within, maxWidth, maxHeight.
      rewrite !Z.gtb_ltb, !Z.ltb_antisym, <- negb_andb.
      now destruct ((w <=? 600) && (h <=? 450)). }
    split; [exact Heq|]. split.
    + intros Hout scaledW scaledH. rewrite Heq, Hout. cbn [fst snd].
      split.
      * apply (scaled_nearest w w h); [lia | lia | now left].
      * apply (scaled_nearest h w h); [lia | lia | now right].
    + apply (exportSize_bounds w h Hw0 Hh0).
  - intros parseHTML w p data ew eh Hp Hrun.
    destruct (Sourced_document parseHTML w _ _ _ _ Hp Hrun)
      as (node & attrs & m & src & Hw & Hi & Hs & Hd & Hb & Hm).
    split; [now exists node, attrs, m, src|].
    pose proof (exportSize_bounds _ _ (originalWidth_pos m) (originalHeight_pos m)) as Hbd.
    rewrite <- Hm in Hbd. exact Hbd.
Qed.

(** C2, as the code has it: the text of a text node is trimmed as a whole
    and split at line feeds; every line that is not all whitespace gives one
    paragraph of one run holding that line as it is, in order, and the
    other lines give nothing.  The text of two lines "line one" and
    "line two" gives those two paragraphs. *)
Theorem C2_text_node_lines :
  (forall data st,
     processNode (TextNode data) st
     = {| paragraphs :=
            paragraphs st
            ++ map textParagraph (filter nonBlank (split LF (trim data)));
          console := console st |})
  /\ processNodes [TextNode (lit "line one" ++ [LF] ++ lit "line two")] emptyExport
     = {| paragraphs := [textParagraph (lit "line one");
                         textParagraph (lit "line two")];
          console := [] |}.
Proof.
  split.
  - intros data st. apply processText_spec.
  - reflexivity.
Qed.

(** C2 as stated fails: the lines of "a \n b" keep the blank next to the
    line feed, where the claim has them trimmed. *)
Lemma C2_lines_are_not_trimmed :
  let data := lit "a " ++ [LF] ++ lit " b" in
  paragraphs (processNode (TextNode data) emptyExport)
  = [textParagraph (lit "a "); textParagraph (lit " b")]
  /\ trimmedLines data = [textParagraph (lit "a"); textParagraph (lit "b")]
  /\ paragraphs (processNode (TextNode data) emptyExport) <> trimmedLines data.
Proof.
  repeat split; try reflexivity. discriminate.
Qed.

(** C3: when the traversal collects no paragraph, and so for the empty
    snapshot, the document is one paragraph of one run that is a single
    space. *)
Theorem C3_empty_export (parseHTML : jsstring -> list Node) (w : World) :
  paragraphs (collect parseHTML w) = [] \/ htmlContent (content w) = [] ->
  handleExportWord parseHTML w = blankDocument.
Proof.
  intros [H|H]; unfold handleExportWord.
  - now rewrite H.
  - unfold collect. rewrite H. simpl. now destruct (editorRef w).
Qed.

End ExportClaims.

Section DomFacts.
Import ExportPipeline Dom.

Lemma nth_error_replace {A} (l : list A) i x y :
  nth_error l i = Some y ->
  nth_error (firstn i l ++ x :: skipn (S i) l) i = Some x.
Proof.
  intros H. assert (Hi : i < List.length l) by (apply nth_error_Some; congruence).
  rewrite nth_error_app2; rewrite length_firstn, Nat.min_l by lia; [|lia].
  now rewrite Nat.sub_diag.
Qed.

Lemma replace_replace {A} (l : list A) i x x' y :
  nth_error l i = Some y ->
  let l1 := firstn i l ++ x :: skipn (S i) l in
  firstn i l1 ++ x' :: skipn (S i) l1 = firstn i l ++ x' :: skipn (S i) l.
Proof.
  intros H l1. assert (Hi : i < List.length l) by (apply nth_error_Some; congruence).
  assert (Hl : List.length (firstn i l) = i) by (rewrite length_firstn; lia).
  subst l1. f_equal.
  - rewrite firstn_app, Hl, Nat.sub_diag, firstn_O, app_nil_r.
    rewrite firstn_firstn. f_equal. lia.
  - f_equal. rewrite skipn_app, Hl.
    replace (S i - i) with 1 by lia.
    rewrite (skipn_all2 (n := S i) (firstn i l)) by lia. reflexivity.
Qed.

Lemma lookup_element_inv n i p x :
  lookup n (i :: p) = Some x ->
  exists tg a m kids k,
    n = ElementNode tg a m kids /\ nth_error kids i = Some k /\ lookup k p = Some x.
Proof.
  simpl. destruct n as [d|d|tg a m kids]; simpl.
  - destruct i; discriminate.
  - destruct i; discriminate.
  - destruct (nth_error kids i) as [k|] eqn:E; [|discriminate].
    intros H. now exists tg, a, m, kids, k.
Qed.

Lemma updateChildren_defined f p : forall root tg a m kids,
  lookup root p = Some (ElementNode tg a m kids) ->
  exists root',
    updateChildren root p f = Some root'
    /\ lookup root' p = Some (ElementNode tg a m (f kids)).
Proof.
  induction p as [|i p IH]; intros root tg a m kids H.
  - simpl in H. injection H as ->. simpl. eauto.
  - apply lookup_element_inv in H as (tg0 & a0 & m0 & kids0 & k & -> & Hk & Hl).
    destruct (IH _ _ _ _ _ Hl) as (k' & Hu & Hl').
    cbn [updateChildren]. rewrite Hk, Hu. eexists. split; [reflexivity|].
    cbn [lookup childNodes]. now rewrite (nth_error_replace _ _ _ _ Hk).
Qed.

Lemma updateChildren_twice f g p : forall root root1,
  updateChildren root p f = Some root1 ->
  updateChildren root1 p g = updateChildren root p (fun kids => g (f kids)).
Proof.
  induction p as [|i p IH]; intros root root1 H.
  - destruct root as [d|d|tg a m kids]; simpl in H; try discriminate.
    injection H as <-. reflexivity.
  - destruct root as [d|d|tg a m kids]; simpl in H; try discriminate.
    destruct (nth_error kids i) as [k|] eqn:Hk; [|discriminate].
    destruct (updateChildren k p f) as [k'|] eqn:Hu; [|discriminate].
    injection H as <-. cbn [updateChildren].
    rewrite (nth_error_replace _ _ _ _ Hk), Hk, (IH _ _ Hu).
    destruct (updateChildren k p (fun kids => g (f kids))); [|reflexivity].
    now rewrite (replace_replace _ _ _ _ _ Hk).
Qed.

Lemma comparePoints_refl p o : comparePoints p o p o = Equal.
Proof.
  induction p as [|a p IH]; simpl.
  - now rewrite Nat.ltb_irrefl.
  - now rewrite Nat.eqb_refl.
Qed.

Lemma pathEqb_refl p : pathEqb p p = true.
Proof. induction p; simpl; [|rewrite Nat.eqb_refl]; auto. Qed.

Lemma pathEqb_eq p q : pathEqb p q = true -> p = q.
Proof.
  revert q. induction p as [|a p IH]; intros [|b q]; simpl; try discriminate; auto.
  intros H. apply andb_true_iff in H as [Hab Hpq].
  apply Nat.eqb_eq in Hab. f_equal; auto.
Qed.

Lemma pathEqb_snoc p k : pathEqb (p ++ [k]) p = false.
Proof.
  induction p as [|a p IH]; simpl; [reflexivity|].
  now rewrite IH, andb_false_r.
Qed.

Lemma isPrefix_app p q : isPrefix p (p ++ q) = true.
Proof. induction p; simpl; [|rewrite Nat.eqb_refl]; auto. Qed.

Lemma skipn_length_app {A} (p q : list A) : skipn (List.length p) (p ++ q) = q.
Proof. induction p; simpl; auto. Qed.

Lemma setTree_setTree pg t r1 r2 :
  t < List.length (trees pg) ->
  setTree (setTree pg t r1) t r2 = setTree pg t r2.
Proof.
  intros Ht. unfold setTree. simpl. f_equal.
  assert (Hn : exists y, nth_error (trees pg) t = Some y).
  { destruct (nth_error (trees pg) t) eqn:E; eauto.
    apply nth_error_None in E. lia. }
  destruct Hn as [y Hy]. exact (replace_replace _ _ r1 r2 _ Hy).
Qed.

Lemma nth_error_setTree pg t r y :
  nth_error (trees pg) t = Some y ->
  nth_error (trees (setTree pg t r)) t = Some r.
Proof. intros H. unfold setTree. simpl. exact (nth_error_replace _ _ _ _ H). Qed.

End DomFacts.

Section WidgetFacts.
Import ExportPipeline Dom Widget.

Lemma collapsed_caret t p o : collapsed (caret t p o) = true.
Proof.
  unfold collapsed, caret, sameTree. simpl.
  now rewrite !Nat.eqb_refl, pathEqb_refl.
Qed.

Lemma collapsed_eq r : collapsed r = true -> rangeStart r = rangeEnd r.
Proof.
  destruct r as [[[ts ps] os] [[te pe] oe]]. unfold collapsed, sameTree. simpl.
  intros H. apply andb_true_iff in H as [H Ho].
  apply andb_true_iff in H as [Ht Hp].
  apply Nat.eqb_eq in Ht, Ho. apply pathEqb_eq in Hp. now subst.
Qed.

Lemma shiftInsert_at t p o : shiftInsert t p o (point t p o) = point t p o.
Proof.
  unfold shiftInsert, point. simpl.
  now rewrite Nat.eqb_refl, pathEqb_refl, Nat.ltb_irrefl.
Qed.

Lemma shiftSplit_at t pp k o :
  shiftSplit t pp k o (point t (pp ++ [k]) o) = point t (pp ++ [k]) o.
Proof.
  unfold shiftSplit, point. simpl.
  now rewrite Nat.eqb_refl, pathEqb_snoc, pathEqb_refl, Nat.ltb_irrefl.
Qed.

Lemma shiftInsert_below t pp k o :
  shiftInsert t pp (S k) (point t (pp ++ [k]) o) = point t (pp ++ [k]) o.
Proof.
  unfold shiftInsert, point. cbn [container tree at_path offset].
  rewrite Nat.eqb_refl, pathEqb_snoc, isPrefix_app, skipn_length_app.
  cbn [negb].
  destruct (Nat.leb_spec (S k) k) as [H|_]; [lia|reflexivity].
Qed.

Lemma insertAt_app (a b : list Node) x :
  insertAt (List.length a) x (a ++ b) = a ++ x :: b.
Proof.
  unfold insertAt.
  rewrite firstn_app, Nat.sub_diag, firstn_all, firstn_O, app_nil_r.
  rewrite skipn_app, Nat.sub_diag, skipn_all. reflexivity.
Qed.

Lemma insertAt_length j x l :
  List.length (insertAt j x l) = S (List.length l).
Proof.
  unfold insertAt. rewrite length_app. simpl.
  rewrite length_firstn, length_skipn. lia.
Qed.

Lemma insert_in_element pg t root p o tg a m kids node :
  nth_error (trees pg) t = Some root ->
  lookup root p = Some (ElementNode tg a m kids) ->
  o <= List.length kids ->
  exists root',
    updateChildren root p (insertAt o node) = Some root'
    /\ lookup root' p = Some (ElementNode tg a m (insertAt o node kids))
    /\ insertNode pg (caret t p o) node
       = Ok (setTree pg t root',
             {| rangeStart := point t p o; rangeEnd := point t p (S o) |},
             {| tree := t; at_path := p ++ [o] |}).
Proof.
  intros Ht Hl Ho.
  destruct (updateChildren_defined (insertAt o node) p _ _ _ _ _ Hl) as (root' & Hu & Hl').
  exists root'. split; [exact Hu|]. split; [exact Hl'|].
  unfold insertNode. cbn [caret rangeStart rangeEnd point container tree at_path offset].
  rewrite Ht, Hl, Nat.min_l by exact Ho. rewrite Hu.
  fold (point t p o). rewrite shiftInsert_at.
  unfold afterInsert. fold (caret t p o). now rewrite collapsed_caret.
Qed.

Lemma setStartAfter_child pg t root p j tg a m kids s :
  nth_error (trees pg) t = Some root ->
  lookup root p = Some (ElementNode tg a m kids) ->
  j < List.length kids ->
  setStartAfter pg {| rangeStart := s; rangeEnd := point t p (S j) |}
    {| tree := t; at_path := p ++ [j] |}
  = Ok (caret t p (S j)).
Proof.
  intros Ht Hl Hj. unfold setStartAfter. cbn [at_path tree].
  rewrite rev_unit, rev_involutive.
  unfold setStart, resolve. cbn [tree at_path]. rewrite Ht, Hl.
  cbn [nodeLength].
  destruct (Nat.ltb_spec (List.length kids) (S j)) as [H|H]; [lia|].
  unfold isAfter, sameTree, point.
  cbn [rangeEnd container tree at_path offset].
  rewrite Nat.eqb_refl, comparePoints_refl. reflexivity.
Qed.

Lemma lookup_snoc p : forall root k x,
  lookup root (p ++ [k]) = Some x ->
  exists tg a m kids,
    lookup root p = Some (ElementNode tg a m kids) /\ nth_error kids k = Some x.
Proof.
  induction p as [|i p IH]; intros root k x H.
  - apply lookup_element_inv in H as (tg & a & m & kids & c & -> & Hc & Hx).
    simpl in Hx. injection Hx as ->. simpl. eauto 6.
  - cbn [app] in H.
    apply lookup_element_inv in H as (tg & a & m & kids & c & -> & Hc & Hx).
    cbn [lookup childNodes]. rewrite Hc. eauto.
Qed.

Lemma insert_in_text pg t root pp k o d node :
  nth_error (trees pg) t = Some root ->
  lookup root (pp ++ [k]) = Some (TextNode d) ->
  o <= List.length d ->
  exists tg a m kids root',
    lookup root pp = Some (ElementNode tg a m kids)
    /\ nth_error kids k = Some (TextNode d)
    /\ updateChildren root pp
         (fun kids => insertAt (S k) node (splitAt k o d kids)) = Some root'
    /\ lookup root' pp
       = Some (ElementNode tg a m (insertAt (S k) node (splitAt k o d kids)))
    /\ insertNode pg (caret t (pp ++ [k]) o) node
       = Ok (setTree pg t root',
             {| rangeStart := point t (pp ++ [k]) o;
                rangeEnd := point t pp (S (S k)) |},
             {| tree := t; at_path := pp ++ [S k] |}).
Proof.
  intros Ht Hl Ho.
  destruct (lookup_snoc _ _ _ _ Hl) as (tg & a & m & kids & Hp & Hk).
  destruct (updateChildren_defined
              (fun kids => insertAt (S k) node (splitAt k o d kids)) pp _ _ _ _ _ Hp)
    as (root' & Hu & Hl').
  exists tg, a, m, kids, root'. repeat (split; [assumption|]).
  unfold insertNode. cbn [caret rangeStart rangeEnd point container tree at_path offset].
  rewrite Ht, Hl, rev_unit, rev_involutive.
  destruct (Nat.ltb_spec (List.length d) o) as [H|_]; [lia|].
  rewrite Hu.
  fold (point t (pp ++ [k]) o). rewrite shiftSplit_at, shiftInsert_below.
  unfold afterInsert. fold (caret t (pp ++ [k]) o). now rewrite collapsed_caret.
Qed.

End WidgetFacts.

Section WidgetClaim.
Import ExportPipeline Dom Widget.

Lemma updateChildren_ext_at f g p : forall root tg a m kids,
  lookup root p = Some (ElementNode tg a m kids) ->
  f kids = g kids ->
  updateChildren root p f = updateChildren root p g.
Proof.
  induction p as [|i p IH]; intros root tg a m kids Hl Hfg.
  - simpl in Hl. injection Hl as ->. simpl. now rewrite Hfg.
  - apply lookup_element_inv in Hl as (tg0 & a0 & m0 & kids0 & k & -> & Hk & Hl).
    cbn [updateChildren]. rewrite Hk. now rewrite (IH _ _ _ _ _ Hl Hfg).
Qed.

Lemma deleteContents_caret pg range root p o :
  rangeStart (snd (deleteContents pg range)) = point 0 p o ->
  nth_error (trees (fst (deleteContents pg range))) 0 = Some root ->
  snd (deleteContents pg range) = caret 0 p o.
Proof.
  unfold deleteContents. destruct (collapsed range) eqn:E; cbn [fst snd].
  - intros Hs _. pose proof (collapsed_eq _ E) as He.
    destruct range as [s e]. simpl in *. subst. reflexivity.
  - destruct (nth_error (trees pg) (tree (container (rangeStart range)))) eqn:Et;
      cbn [fst snd rangeStart].
    + intros -> _. reflexivity.
    + intros Hs Hr. rewrite Hs in Et. cbn [point container tree] in Et. congruence.
Qed.

(** One insertion at a caret in an element followed by stepping over the
    new node. *)
Lemma insert_and_step pg root p o tg a m kids node :
  nth_error (trees pg) 0 = Some root ->
  lookup root p = Some (ElementNode tg a m kids) ->
  o <= List.length kids ->
  exists root',
    updateChildren root p (insertAt o node) = Some root'
    /\ lookup root' p = Some (ElementNode tg a m (insertAt o node kids))
    /\ nth_error (trees (setTree pg 0 root')) 0 = Some root'
    /\ forall B (k : Range -> M B),
         ('(range, ref) <~ range_insertNode (caret 0 p o) node ;;
          range <~ range_setStartAfter range ref ;; k range) pg
         = k (caret 0 p (S o)) (setTree pg 0 root').
Proof.
  intros Ht Hl Ho.
  destruct (insert_in_element pg 0 root p o tg a m kids node Ht Hl Ho)
    as (root' & Hu & Hl' & Hins).
  pose proof (nth_error_setTree pg 0 root' _ Ht) as Ht'.
  exists root'. repeat (split; [assumption|]).
  intros B k. unfold mbind, range_insertNode, range_setStartAfter.
  rewrite Hins.
  rewrite (setStartAfter_child _ 0 root' p o tg a m (insertAt o node kids) _ Ht' Hl').
  - reflexivity.
  - rewrite insertAt_length. lia.
Qed.

Lemma three_inserted (kids : list Node) o x y z :
  o <= List.length kids ->
  insertAt (S (S o)) z (insertAt (S o) y (insertAt o x kids))
  = firstn o kids ++ [x; y; z] ++ skipn o kids.
Proof.
  intros Ho.
  assert (Hl : List.length (firstn o kids) = o) by (rewrite length_firstn; lia).
  unfold insertAt at 3.
  replace (firstn o kids ++ x :: skipn o kids)
    with ((firstn o kids ++ [x]) ++ skipn o kids) by now rewrite <- app_assoc.
  replace (S o) with (List.length (firstn o kids ++ [x])) at 2
    by (rewrite length_app, Hl; simpl; lia).
  rewrite insertAt_app.
  replace ((firstn o kids ++ [x]) ++ y :: skipn o kids)
    with ((firstn o kids ++ [x; y]) ++ skipn o kids)
    by (rewrite <- !app_assoc; reflexivity).
  replace (S (S o)) with (List.length (firstn o kids ++ [x; y]))
    by (rewrite length_app, Hl; simpl; lia).
  rewrite insertAt_app. now rewrite <- app_assoc.
Qed.

Lemma lookup_child root p tg a m kids j x :
  lookup root p = Some (ElementNode tg a m kids) ->
  nth_error kids j = Some x ->
  lookup root (p ++ [j]) = Some x.
Proof.
  revert root. induction p as [|i p IH]; intros root Hl Hx.
  - simpl in Hl. injection Hl as ->. simpl. now rewrite Hx.
  - apply lookup_element_inv in Hl as (tg0 & a0 & m0 & kids0 & k & -> & Hk & Hl).
    cbn [app lookup childNodes]. rewrite Hk. now apply IH.
Qed.

Lemma nth_error_after (a l : list Node) j i :
  j = List.length a + i -> nth_error (a ++ l) j = nth_error l i.
Proof.
  intros ->. rewrite nth_error_app2 by lia. f_equal. lia.
Qed.

End WidgetClaim.

Section DeleteFacts.
Import ExportPipeline Dom Widget.












End DeleteFacts.

Section SelectedContent.
Import ExportPipeline Dom.




Lemma comparePoints_Equal a : forall oa b ob,
  comparePoints a oa b ob = Equal -> a = b /\ oa = ob.
Proof.
  induction a as [|x a IH]; intros oa [|y b] ob; simpl.
  - destruct (Nat.ltb_spec oa ob); [discriminate|].
    destruct (Nat.ltb_spec ob oa); [discriminate|]. intros _. split; [reflexivity|lia].
  - destruct (y <? oa); discriminate.
  - destruct (x <? ob); discriminate.
  - destruct (Nat.eqb_spec x y) as [->|Hne].
    + intros H. destruct (IH _ _ _ H) as [-> ->]. auto.
    + destruct (x <? y); discriminate.
Qed.

Variables (ps : path) (os : nat) (pe : path) (oe : nat).
Hypothesis ordered : comparePoints ps os pe oe <> After.








End SelectedContent.

Section PasteDeletes.
Import ExportPipeline Dom.




End PasteDeletes.

Section WidgetTheorem.
Import ExportPipeline Dom Widget.

Lemma spliceWidget_unfold imgWrapper range :
  spliceWidget imgWrapper range
  = (range <~ range_deleteContents range ;;
     '(range, imgWrapperRef) <~ range_insertNode range imgWrapper ;;
     range <~ range_setStartAfter range imgWrapperRef ;;
     thenSentinels range).
Proof. reflexivity. Qed.

Lemma thenSentinels_spec pg root p j tg a m kids :
  nth_error (trees pg) 0 = Some root ->
  lookup root p = Some (ElementNode tg a m kids) ->
  j <= List.length kids ->
  exists root',
    updateChildren root p
      (fun kids => insertAt (S j) (TextNode [SPACE]) (insertAt j (TextNode [ZWSP]) kids))
    = Some root'
    /\ lookup root' p
       = Some (ElementNode tg a m
                 (insertAt (S j) (TextNode [SPACE]) (insertAt j (TextNode [ZWSP]) kids)))
    /\ thenSentinels (caret 0 p j) pg
       = ({| trees := trees (setTree pg 0 root');
             selection := Some (caret 0 p (S (S j))) |}, Ok tt).
Proof.
  intros Ht Hl Hj.
  destruct (insert_and_step pg root p j tg a m kids (TextNode [ZWSP]) Ht Hl Hj)
    as (root1 & Hu1 & Hl1 & Ht1 & Hstep1).
  assert (Hj1 : S j <= List.length (insertAt j (TextNode [ZWSP]) kids))
    by (rewrite insertAt_length; lia).
  destruct (insert_and_step _ root1 p (S j) tg a m _ (TextNode [SPACE]) Ht1 Hl1 Hj1)
    as (root2 & Hu2 & Hl2 & Ht2 & Hstep2).
  exists root2. split; [|split; [exact Hl2|]].
  - rewrite <- Hu2. symmetry. exact (updateChildren_twice _ _ p root root1 Hu1).
  - unfold thenSentinels.
    etransitivity; [apply Hstep1|].
    etransitivity; [apply Hstep2|].
    assert (H0 : 0 < List.length (trees pg))
      by (apply nth_error_Some; congruence).
    rewrite (setTree_setTree pg 0 root1 root2 H0). reflexivity.
Qed.

(** Lines 216-233 as a whole: the widget and the two sentinels at the
    point that [deleteContents] leaves, the caret after them. *)
Lemma spliceWidget_spec (imgWrapper : Node) (pg : Page)
  (range : Range) (root : Node) (p : path) (o : nat) :
  rangeStart (snd (deleteContents pg range)) = point 0 p o ->
  nth_error (trees (fst (deleteContents pg range))) 0 = Some root ->
  insertionPoint root p o ->
  exists root' parent i,
    spliced root p o (imgWrapper :: sentinels) = Some (root', parent, i)
    /\ spliceWidget imgWrapper range pg
       = ({| trees := trees (setTree (fst (deleteContents pg range)) 0 root');
             selection := Some (caret 0 parent i) |}, Ok tt)
    /\ 3 <= i
    /\ lookup root' (parent ++ [i - 3]) = Some imgWrapper
    /\ lookup root' (parent ++ [i - 2]) = Some (TextNode [ZWSP])
    /\ lookup root' (parent ++ [i - 1]) = Some (TextNode [SPACE]).
Proof.
  intros Hs Ht Hip.
  pose proof (deleteContents_caret pg range root p o Hs Ht) as Hc.
  rewrite spliceWidget_unfold.
  unfold mbind at 1. unfold range_deleteContents.
  destruct (deleteContents pg range) as [pg1 r1] eqn:Hdc.
  cbn [fst snd] in *. subst r1.
  assert (H0 : 0 < List.length (trees pg1)) by (apply nth_error_Some; congruence).
  unfold insertionPoint in Hip. unfold spliced.
  destruct (lookup root p) as [[d|d|tg a m kids]|] eqn:Hl; try contradiction.
  - (* the caret is in a text node *)
    destruct Hip as [Hne Ho].
    destruct (exists_last Hne) as (pp & k & ->).
    rewrite rev_unit, rev_involutive.
    destruct (insert_in_text pg1 0 root pp k o d imgWrapper Ht Hl Ho)
      as (tg & a & m & kids & root1 & Hp & Hk & Hu1 & Hl1 & Hins).
    pose proof (nth_error_setTree pg1 0 root1 _ Ht) as Ht1.
    assert (Hlen : S k < List.length (insertAt (S k) imgWrapper (splitAt k o d kids))).
    { rewrite insertAt_length. unfold splitAt. rewrite length_app. simpl.
      assert (k < List.length kids) by (apply nth_error_Some; congruence).
      rewrite length_firstn. lia. }
    destruct (thenSentinels_spec _ root1 pp (S (S k)) tg a m _ Ht1 Hl1 Hlen)
      as (root3 & Hu3 & Hl3 & Hrun).
    assert (Hkids :
      insertAt (S (S (S k))) (TextNode [SPACE])
        (insertAt (S (S k)) (TextNode [ZWSP])
           (insertAt (S k) imgWrapper (splitAt k o d kids)))
      = firstn k kids ++ TextNode (firstn o d) :: (imgWrapper :: sentinels)
          ++ TextNode (skipn o d) :: skipn (S k) kids).
    { assert (Hk' : k < List.length kids) by (apply nth_error_Some; congruence).
      unfold splitAt.
      replace (firstn k kids ++ TextNode (firstn o d) :: TextNode (skipn o d) :: skipn (S k) kids)
        with ((firstn k kids ++ [TextNode (firstn o d)]) ++ TextNode (skipn o d) :: skipn (S k) kids)
        by (rewrite <- app_assoc; reflexivity).
      assert (Hla : List.length (firstn k kids ++ [TextNode (firstn o d)]) = S k)
        by (rewrite length_app, length_firstn; simpl; lia).
      rewrite (three_inserted _ (S k)) by (rewrite length_app, Hla; simpl; lia).
      rewrite <- Hla at 1. rewrite firstn_app, Nat.sub_diag, firstn_all, firstn_O, app_nil_r.
      rewrite <- Hla. rewrite skipn_app, Nat.sub_diag, skipn_all.
      rewrite <- !app_assoc. reflexivity. }
    exists root3, pp, (S k + 3).
    split; [|split; [|split; [lia|]]].
    + rewrite (updateChildren_twice _ _ pp root root1 Hu1) in Hu3.
      erewrite updateChildren_ext_at; [rewrite Hu3; reflexivity | exact Hp |].
      cbn beta. now rewrite Hkids.
    + unfold mbind at 1, range_insertNode. rewrite Hins.
      unfold mbind at 1, range_setStartAfter.
      rewrite (setStartAfter_child _ 0 root1 pp (S k) tg a m _ _ Ht1 Hl1 Hlen).
      rewrite Hrun.
      replace (S k + 3) with (S (S (S (S k)))) by lia.
      now rewrite (setTree_setTree pg1 0 root1 root3 H0).
    + rewrite Hkids in Hl3.
      replace (S k + 3 - 3) with (S k) by lia.
      replace (S k + 3 - 2) with (S (S k)) by lia.
      replace (S k + 3 - 1) with (S (S (S k))) by lia.
      assert (Hk' : k < List.length kids) by (apply nth_error_Some; congruence).
      assert (Hf : List.length (firstn k kids) = k) by (rewrite length_firstn; lia).
      repeat split; eapply lookup_child; try exact Hl3.
      * now rewrite (nth_error_after (firstn k kids) _ (S k) 1) by lia.
      * now rewrite (nth_error_after (firstn k kids) _ (S (S k)) 2) by lia.
      * now rewrite (nth_error_after (firstn k kids) _ (S (S (S k))) 3) by lia.
  - (* the caret is in an element *)
    destruct (insert_and_step pg1 root p o tg a m kids imgWrapper Ht Hl Hip)
      as (root1 & Hu1 & Hl1 & Ht1 & Hstep1).
    assert (Hlen : S o <= List.length (insertAt o imgWrapper kids))
      by (rewrite insertAt_length; lia).
    destruct (thenSentinels_spec _ root1 p (S o) tg a m _ Ht1 Hl1 Hlen)
      as (root3 & Hu3 & Hl3 & Hrun).
    pose proof (three_inserted kids o imgWrapper (TextNode [ZWSP]) (TextNode [SPACE]) Hip)
      as Hkids.
    exists root3, p, (o + 3).
    split; [|split; [|split; [lia|]]].
    + rewrite (updateChildren_twice _ _ p root root1 Hu1) in Hu3.
      erewrite updateChildren_ext_at; [rewrite Hu3; reflexivity | exact Hl |].
      cbn beta. now rewrite Hkids.
    + etransitivity; [apply Hstep1|]. rewrite Hrun.
      replace (o + 3) with (S (S (S o))) by lia.
      now rewrite (setTree_setTree pg1 0 root1 root3 H0).
    + rewrite Hkids in Hl3.
      replace (o + 3 - 3) with o by lia.
      replace (o + 3 - 2) with (S o) by lia.
      replace (o + 3 - 1) with (S (S o)) by lia.
      assert (Hf : List.length (firstn o kids) = o) by (rewrite length_firstn; lia).
      repeat split; eapply lookup_child; try exact Hl3.
      * now rewrite (nth_error_after (firstn o kids) _ o 0) by lia.
      * now rewrite (nth_error_after (firstn o kids) _ (S o) 1) by lia.
      * now rewrite (nth_error_after (firstn o kids) _ (S (S o)) 2) by lia.
Qed.

(** The paste once the selected content is deleted, at the point that the
    deletion leaves. *)
Lemma insertImage_spec (editor : NodeRef) (imgWrapper : Node) (pg : Page)
  (range : Range) (root : Node) (p : path) (o : nat) :
  selection pg = Some range ->
  contains editor (commonAncestorContainer range) = true ->
  rangeStart (snd (deleteContents pg range)) = point 0 p o ->
  nth_error (trees (fst (deleteContents pg range))) 0 = Some root ->
  insertionPoint root p o ->
  exists root' parent i,
    spliced root p o (imgWrapper :: sentinels) = Some (root', parent, i)
    /\ insertImage (Some editor) imgWrapper pg
       = ({| trees := trees (setTree (fst (deleteContents pg range)) 0 root');
             selection := Some (caret 0 parent i) |}, Ok true)
    /\ 3 <= i
    /\ lookup root' (parent ++ [i - 3]) = Some imgWrapper
    /\ lookup root' (parent ++ [i - 2]) = Some (TextNode [ZWSP])
    /\ lookup root' (parent ++ [i - 1]) = Some (TextNode [SPACE]).
Proof.
  intros Hsel Hin Hs Ht Hip.
  destruct (spliceWidget_spec imgWrapper pg range root p o Hs Ht Hip)
    as (root' & parent & i & Hspl & Hrun & Hrest).
  exists root', parent, i. split; [exact Hspl|]. split; [|exact Hrest].
  unfold insertImage. rewrite Hsel, Hin. unfold mbind. rewrite Hrun.
  reflexivity.
Qed.


End WidgetTheorem.

Section MoreExportClaims.
Import ExportPipeline Coordinator.

Lemma processNode_image node attrs m st :
  imageOf node = Some (attrs, m) ->
  processNode node st = processImage attrs m st.
Proof.
  destruct node as [d|d|tag a m0 kids]; try discriminate.
  cbn [imageOf processNode].
  destruct (JS.eqb tag (lit "IMG")).
  - now intros [= -> ->].
  - destruct (JS.eqb tag (lit "SPAN") && classList_contains a (lit "inline-image"));
      [|discriminate].
    now intros ->.
Qed.

Lemma processImage_skipped attrs m st :
  dataImageSrc attrs = false -> processImage attrs m st = st.
Proof.
  unfold dataImageSrc, processImage.
  destruct (getAttribute (lit "src") attrs) as [src|]; [|reflexivity].
  intros ->. now rewrite andb_false_r.
Qed.

Lemma startsWith_truthy s : startsWith s (lit "data:image/") = true -> truthy s = true.
Proof. destruct s; [discriminate|reflexivity]. Qed.

(** C10: an image of the export, a bare [IMG] or the [IMG] of an
    [inline-image] span, whose [src] is absent or does not start with
    [data:image/] adds no paragraph and logs no error, and the nodes around
    it are exported as if it were not there; an image that does add
    something has such a [src], and what it adds is one paragraph of one
    image run, or one logged error when the payload does not decode. *)
Theorem C10_only_data_images (node : Node) attrs m :
  imageOf node = Some (attrs, m) ->
  (dataImageSrc attrs = false ->
   (forall st, processNode node st = st)
   /\ (forall before after st,
         processNodes (before ++ node :: after) st
         = processNodes (before ++ after) st))
  /\ (forall st, processNode node st <> st -> dataImageSrc attrs = true)
  /\ (dataImageSrc attrs = true ->
      forall st,
        (exists bytes,
           processNode node st
           = push {| children :=
                       [ImageRun bytes
                          (fst (exportSize (originalWidth m) (originalHeight m)))
                          (snd (exportSize (originalWidth m) (originalHeight m)))] |}
               st)
        \/ processNode node st = consoleError FailedToProcessImage st).
Proof.
  intros Himg. split; [|split].
  - intros Hsrc.
    assert (Hskip : forall st, processNode node st = st).
    { intros st. rewrite (processNode_image _ _ _ _ Himg).
      now apply processImage_skipped. }
    split; [exact Hskip|].
    intros before after st. rewrite !processNodes_app. simpl. now rewrite Hskip.
  - intros st Hne. destruct (dataImageSrc attrs) eqn:E; [reflexivity|].
    exfalso. apply Hne. rewrite (processNode_image _ _ _ _ Himg).
    now apply processImage_skipped.
  - intros Hsrc st. rewrite (processNode_image _ _ _ _ Himg).
    unfold dataImageSrc in Hsrc. unfold processImage.
    destruct (getAttribute (lit "src") attrs) as [src|]; [|discriminate].
    rewrite Hsrc, (startsWith_truthy _ Hsrc). cbn [andb].
    destruct (exportSize (originalWidth m) (originalHeight m)) as [ew eh].
    destruct (Base64.atob _) as [bytes|]; [left; now exists bytes | now right].
Qed.

Lemma sizeless_Additive f g st :
  Additive f -> Additive g ->
  sizeless (f emptyExport) = sizeless (g emptyExport) ->
  sizeless (f st) = sizeless (g st).
Proof.
  intros Hf Hg H. rewrite (Hf st), (Hg st). unfold sizeless in *. cbn.
  injection H as Hp Hc. now rewrite !map_app, Hp, Hc.
Qed.

Lemma textContent_loop kids :
  (fix all (l : list Node) : jsstring :=
     match l with
     | [] => []
     | k :: l' => textContent k ++ all l'
     end) kids = flat_map textContent kids.
Proof. induction kids; simpl; congruence. Qed.

Lemma textContent_withoutMetrics n : textContent (withoutMetrics n) = textContent n.
Proof.
  induction n as [d|d|tag attrs m kids IH] using Node_induction; try reflexivity.
  cbn [withoutMetrics textContent]. rewrite !textContent_loop.
  induction IH as [|k kids Hk _ IHk]; [reflexivity|].
  cbn [map flat_map]. now rewrite Hk, IHk.
Qed.

Lemma firstImg_loop kids :
  (fix first (l : list Node) :=
     match l with
     | [] => None
     | k :: l' =>
         match firstImg k with
         | Some r => Some r
         | None => first l'
         end
     end) kids = querySelector_img kids.
Proof. induction kids; simpl; [reflexivity|]. now rewrite IHkids. Qed.

Lemma firstImg_withoutMetrics n :
  attributesOnly (firstImg (withoutMetrics n)) = attributesOnly (firstImg n).
Proof.
  induction n as [d|d|tag attrs m kids IH] using Node_induction; try reflexivity.
  cbn [withoutMetrics firstImg].
  destruct (JS.eqb tag (lit "IMG")); [reflexivity|].
  rewrite !firstImg_loop.
  induction IH as [|k kids Hk _ IHk]; [reflexivity|].
  cbn [map querySelector_img].
  destruct (firstImg k) as [r|], (firstImg (withoutMetrics k)) as [r'|];
    try discriminate; [exact Hk | exact IHk].
Qed.

Lemma querySelector_img_withoutMetrics kids :
  attributesOnly (querySelector_img (map withoutMetrics kids))
  = attributesOnly (querySelector_img kids).
Proof.
  induction kids as [|k kids IH]; [reflexivity|].
  cbn [map querySelector_img].
  pose proof (firstImg_withoutMetrics k) as Hk.
  destruct (firstImg k) as [r|], (firstImg (withoutMetrics k)) as [r'|];
    try discriminate; [exact Hk | exact IH].
Qed.

Lemma sizeless_processImage attrs m m' :
  sizeless (processImage attrs m emptyExport)
  = sizeless (processImage attrs m' emptyExport).
Proof.
  unfold processImage.
  destruct (getAttribute (lit "src") attrs) as [src|]; [|reflexivity].
  destruct (truthy src && startsWith src (lit "data:image/")); [|reflexivity].
  destruct (exportSize (originalWidth m) (originalHeight m)) as [ew eh].
  destruct (exportSize (originalWidth m') (originalHeight m')) as [ew' eh'].
  destruct (Base64.atob _); reflexivity.
Qed.

Lemma sizeless_processNodes l l' :
  Forall2 (fun n n' => sizeless (processNode n emptyExport)
                       = sizeless (processNode n' emptyExport)) l l' ->
  sizeless (processNodes l emptyExport) = sizeless (processNodes l' emptyExport).
Proof.
  induction 1 as [|k k' l l' Hk _ IH]; [reflexivity|].
  cbn [processNodes].
  assert (Hl : Additive (processNodes l))
    by (apply Additive_processNodes, Forall_forall; intros; apply Additive_processNode).
  assert (Hl' : Additive (processNodes l'))
    by (apply Additive_processNodes, Forall_forall; intros; apply Additive_processNode).
  rewrite (Hl (processNode k emptyExport)), (Hl' (processNode k' emptyExport)).
  unfold sizeless in *. cbn [paragraphs console].
  injection Hk as Hp Hc. injection IH as Hp' Hc'.
  now rewrite !map_app, Hp, Hc, Hp', Hc'.
Qed.

(** The export of a tree without its image properties differs from the
    export of the tree in the sizes of the images only. *)
Lemma sizeless_withoutMetrics n :
  sizeless (processNode (withoutMetrics n) emptyExport)
  = sizeless (processNode n emptyExport).
Proof.
  induction n as [d|d|tag attrs m kids IH] using Node_induction; try reflexivity.
  cbn [withoutMetrics processNode].
  destruct (JS.eqb tag (lit "IMG")); [apply sizeless_processImage|].
  destruct (JS.eqb tag (lit "SPAN") && classList_contains attrs (lit "inline-image")).
  { pose proof (querySelector_img_withoutMetrics kids) as Hq.
    destruct (querySelector_img kids) as [[ia im]|],
             (querySelector_img (map withoutMetrics kids)) as [[ia' im']|];
      try discriminate; [|reflexivity].
    injection Hq as ->. apply sizeless_processImage. }
  destruct (JS.eqb tag (lit "DIV") || JS.eqb tag (lit "P")).
  { rewrite !children_loop. apply sizeless_processNodes.
    induction IH as [|k kids Hk _ IHk]; constructor; assumption. }
  change (textContent (ElementNode tag attrs noMetrics (map withoutMetrics kids)))
    with (textContent (withoutMetrics (ElementNode tag attrs m kids))).
  now rewrite textContent_withoutMetrics.
Qed.

Lemma sizeless_same_markup l l' :
  map withoutMetrics l = map withoutMetrics l' ->
  sizeless (processNodes l emptyExport) = sizeless (processNodes l' emptyExport).
Proof.
  intros H. apply sizeless_processNodes. revert l' H.
  induction l as [|k l IH]; intros [|k' l'] H; try discriminate; constructor.
  - injection H as Hk _.
    now rewrite <- (sizeless_withoutMetrics k), Hk, sizeless_withoutMetrics.
  - injection H as _ Hl. now apply IH.
Qed.

(** C4, as the code has it: the exported document is determined by the
    snapshot string and by the image properties that the browser gives to
    the elements it parses from it.  Two exports by mounted components
    with the same snapshot, whose parses agree but for the image
    properties, give the same paragraphs, the same run texts and the same
    image bytes, whatever the selection, focus, composition state, timers,
    notification and timestamp; and they give the same document, export
    sizes included, when the parses agree on the image properties too. *)
Theorem C4_export_reads_only_the_snapshot (parse1 parse2 : jsstring -> list Node) (w1 w2 : World) :
  mounted w1 = mounted w2 ->
  htmlContent (content w1) = htmlContent (content w2) ->
  map withoutMetrics (parse1 (htmlContent (content w1)))
  = map withoutMetrics (parse2 (htmlContent (content w2))) ->
  withoutSizes (handleExportWord parse1 w1)
  = withoutSizes (handleExportWord parse2 w2)
  /\ (parse1 (htmlContent (content w1)) = parse2 (htmlContent (content w2)) ->
      handleExportWord parse1 w1 = handleExportWord parse2 w2).
Proof.
  intros Hm Hc Hp. unfold mounted in Hm. split.
  - assert (H : sizeless (collect parse1 w1) = sizeless (collect parse2 w2)).
    { unfold collect. rewrite <- Hc.
      destruct (editorRef w1), (editorRef w2); try discriminate; try reflexivity.
      destruct (truthy _); [|reflexivity].
      apply sizeless_same_markup. now rewrite Hp, Hc. }
    unfold handleExportWord, withoutSizes. f_equal.
    unfold sizeless in H. injection H as H _.
    destruct (paragraphs (collect parse1 w1)) as [|p ps],
             (paragraphs (collect parse2 w2)) as [|p' ps'];
      try discriminate; [reflexivity|].
    cbn [sections map] in *. injection H as Hh Ht.
    f_equal; [now f_equal|].
    clear - Ht. revert ps' Ht.
    induction ps as [|x ps IH]; intros [|y ps'] H; try discriminate; [reflexivity|].
    cbn [map] in *. injection H as Hx Hps. f_equal; [now f_equal | now apply IH].
  - intros He. unfold handleExportWord, collect. rewrite He, Hc.
    destruct (editorRef w1), (editorRef w2); try discriminate; reflexivity.
Qed.

(** C4 as stated fails: the snapshot of one image of 1200 by 300 is
    exported with the size 400 by 300 while the browser has not loaded the
    image, and with 600 by 150 once it has; the bytes are the same. *)
Lemma C4_sizes_depend_on_the_browser :
  map withoutMetrics (imageNotLoaded oneImage)
  = map withoutMetrics (imageLoaded oneImage)
  /\ handleExportWord imageNotLoaded imageWorld
     = {| sections :=
            [{| children :=
                  [ImageRun (FileReader.fileBytes widePng) 400 300] |}] |}
  /\ handleExportWord imageLoaded imageWorld
     = {| sections :=
            [{| children :=
                  [ImageRun (FileReader.fileBytes widePng) 600 150] |}] |}
  /\ handleExportWord imageNotLoaded imageWorld
     <> handleExportWord imageLoaded imageWorld.
Proof.
  split; [reflexivity|]. split; [vm_compute; reflexivity|].
  split; [vm_compute; reflexivity|]. vm_compute. discriminate.
Qed.

End MoreExportClaims.

Section CursorClaims.
Import ExportPipeline Dom Cursor Widget.

Lemma tryRestore_keeps_trees position pg pg' :
  tryRestore position pg = Ok pg' -> trees pg' = trees pg.
Proof.
  unfold tryRestore, bind.
  destruct (setStart _ _ _ _) as [r1|]; [|discriminate].
  destruct (setEnd _ _ _ _) as [r2|]; [|discriminate].
  intros [= <-]. unfold addRange, removeAllRanges. simpl.
  now destruct (negb _).
Qed.

(** The restoration does not raise, whatever the anchor, as long as the
    editor reference is a node. *)
Lemma restoreCursorPosition_returns position editorRef pg :
  (forall editor, editorRef = Some editor -> resolve pg editor <> None) ->
  exists pg', restoreCursorPosition position editorRef pg = Ok pg'.
Proof.
  intros Hed. unfold restoreCursorPosition.
  destruct position as [position|]; [|eauto].
  destruct editorRef as [editor|]; [|eauto].
  destruct (tryRestore position pg) as [pg'|e]; [eauto|].
  unfold caretToEnd, selectNodeContents, bind.
  destruct (resolve pg editor) eqn:E; [eauto|].
  now destruct (Hed editor eq_refl).
Qed.

(** When building the range throws, the caret goes to the end of the
    editor. *)
Lemma restoreCursorPosition_on_throw position editor pg e n :
  tryRestore position pg = Throw e ->
  resolve pg editor = Some n ->
  tree editor = 0 ->
  exists pg',
    restoreCursorPosition (Some position) (Some editor) pg = Ok pg'
    /\ selection pg' = caretAtEnd editor pg.
Proof.
  intros Ht Hn H0. unfold restoreCursorPosition. rewrite Ht.
  unfold caretToEnd, selectNodeContents, bind, caretAtEnd. rewrite Hn.
  eexists. split; [reflexivity|].
  unfold addRange, removeAllRanges, collapse. simpl. rewrite H0. reflexivity.
Qed.

(** C6 at an anchor whose node was removed from the document: no exception
    is thrown, so the [catch] block does not run; the selection is left
    empty, where the claim has a caret at the end of the editor. *)
Theorem C6_removed_node_leaves_no_caret :
  restoreCursorPosition (Some orphanAnchor) (Some editorDiv) pageWithOrphan
  = Ok {| trees := trees pageWithOrphan; selection := None |}
  /\ caretAtEnd editorDiv pageWithOrphan
     = Some {| rangeStart := {| container := editorDiv; offset := 1 |};
               rangeEnd := {| container := editorDiv; offset := 1 |} |}.
Proof. split; reflexivity. Qed.

End CursorClaims.

Section CoordinatorClaims.
Import ExportPipeline Dom Cursor Widget Markup Coordinator.

(** On the [input] path the guard holds the snapshot during a composition. *)
Lemma input_during_composition w pg moved :
  isComposing w = true ->
  content (step w (Input pg moved)) = content w.
Proof.
  intros H. unfold step, handleContentChange. cbn [editorRef withTimers withPage].
  rewrite H. now destruct (editorRef w).
Qed.

Lemma flags_handleContentChange b w :
  isComposing (handleContentChange b w) = isComposing w
  /\ imeActive (handleContentChange b w) = imeActive w.
Proof.
  unfold handleContentChange. destruct (editorRef w); [|auto].
  destruct (negb b); auto.
Qed.

Lemma flags_handlePaste items : forall w,
  isComposing (handlePaste items w) = isComposing w
  /\ imeActive (handlePaste items w) = imeActive w.
Proof.
  unfold handlePaste. induction items as [|item items IH]; intros w; [auto|].
  cbn [fold_left]. 
  destruct (startsWith (itemType item) (lit "image/")); [|apply IH].
  destruct (getAsFile item) as [base64|]; [|apply IH].
  destruct (editorRef w) as [editor|]; [|apply IH].
  destruct (IH (withReads (reads w ++ [(isComposing w, base64)]) w)) as [H1 H2].
  now rewrite H1, H2.
Qed.

(** The state cell [isComposing] follows the composition events. *)
Lemma isComposing_tracks_composition w ev :
  imeActive w = isComposing w ->
  imeActive (step w ev) = isComposing (step w ev).
Proof.
  intros H. destruct ev as [pg moved| | |items|i rnd lt m|i| |ms]; cbn [step].
  - destruct (flags_handleContentChange (isComposing w)
                (withTimers (map (fun t => (fst t, renameTask moved (snd t))) (timers w))
                   (withPage pg w))) as [-> ->].
    exact H.
  - reflexivity.
  - reflexivity.
  - destruct (flags_handlePaste items w) as [-> ->]. exact H.
  - destruct (nth_error (reads w) i) as [[captured base64]|]; [|exact H].
    unfold readerOnLoad.
    destruct (insertImage _ _ _) as [pg [[|]|e]]; try exact H.
    cbn [showNotification setTimeout setNotification withTimers isComposing imeActive].
    match goal with |- imeActive ?x = isComposing ?x => 
      destruct (flags_handleContentChange captured
                  (setTimeout FocusEditor 10 (withPage pg (withReads (removeNth i (reads w)) w))))
        as [H1 H2] end.
    now rewrite H1, H2.
  - destruct (nth_error (timers w) i) as [[due task]|]; [|exact H].
    destruct (due <=? now w)%Z; [|exact H].
    destruct task as [position| | |]; cbn [runTask].
    + destruct (restoreCursorPosition _ _ _); exact H.
    + destruct (editorRef _); exact H.
    + exact H.
    + destruct (editorRef _); exact H.
  - exact H.
  - exact H.
Qed.

(** The end of a composition schedules one deferred update and nothing
    else; the snapshot is replaced when that update runs, not before. *)
Lemma compositionEnd_schedules_one_update w :
  let w' := step w CompositionEnd in
  timers w' = timers w ++ [(now w, UpdateAfterComposition)]
  /\ content w' = content w
  /\ isComposing w' = false.
Proof.
  cbn. now rewrite Z.add_0_r.
Qed.

(** C7 on that trace: the [onload] callback calls the
    [handleContentChange] of the render in which the paste happened, whose
    [isComposing] is [false]; the snapshot is replaced while the composition
    is in progress. *)
Theorem C7_stale_guard_replaces_snapshot :
  let w := run editingWorld pasteThenCompose in
  let w' := step w readCompletes in
  imeActive w = true
  /\ isComposing w = true
  /\ content w = emptyDraft
  /\ imeActive w' = true
  /\ content w'
     = {| htmlContent := innerHTML (page w') editorDiv; timestamp := 5 |}.
Proof. repeat split. Qed.

(** The deferred update that the end of a composition schedules is not
    guarded: when the next composition starts before it runs, it replaces
    the snapshot during that composition. *)
Lemma deferred_update_during_next_composition :
  let w := run editingWorld
             [CompositionStart; Elapse 5; CompositionEnd; CompositionStart] in
  let w' := step w (TimerFires 0) in
  imeActive w = true
  /\ content w = emptyDraft
  /\ imeActive w' = true
  /\ content w'
     = {| htmlContent := innerHTML (page w') editorDiv; timestamp := 5 |}.
Proof. repeat split. Qed.

End CoordinatorClaims.

Section AutosaveClaims.
Import Autosave.
Open Scope Z_scope.

Lemma run_cons sys ev tr : run sys (ev :: tr) = run (step sys ev) tr.
Proof. reflexivity. Qed.

(** Once the timer has fired and a second has passed without a change, a
    burst has no change left: nothing more is written. *)
Lemma quiet_after_fire tr : forall sys since c,
  1000 <= since ->
  pending (autosave sys) = None ->
  burst since tr = true ->
  written (autosave (run sys tr)) = written (autosave sys)
  /\ pending (autosave (run sys tr)) = None
  /\ finalContent c tr = c.
Proof.
  induction tr as [|ev tr IH]; intros sys since c Hs Hp Hb; [auto|].
  rewrite run_cons. destruct ev as [c'|ms|]; cbn [burst finalContent] in *.
  - apply andb_true_iff in Hb as [Hlt _]. apply Z.ltb_lt in Hlt. lia.
  - destruct (IH (step sys (Elapse ms)) (since + Z.of_N ms) c) as (H1 & H2 & H3);
      [lia | exact Hp | exact Hb |]. auto.
  - assert (Hf : autosave (step sys TimerFires) = autosave sys).
    { cbn [step autosave]. unfold fire. now rewrite Hp. }
    destruct (IH (step sys TimerFires) since c) as (H1 & H2 & H3);
      [lia | now rewrite Hf | exact Hb |].
    rewrite Hf in H1. auto.
Qed.

(** With the timer armed [since] milliseconds ago for the content [c], a
    burst ends with nothing written and the timer armed for the content of
    its last change, or with that content written once and no timer. *)
Lemma burst_invariant tr : forall sys since c,
  0 <= since ->
  pending (autosave sys) = Some (clock sys - since + 1000, c) ->
  burst since tr = true ->
  (written (autosave (run sys tr)) = written (autosave sys)
   /\ exists since',
        0 <= since'
        /\ pending (autosave (run sys tr))
           = Some (clock (run sys tr) - since' + 1000, finalContent c tr))
  \/ (written (autosave (run sys tr))
      = written (autosave sys) ++ [JSON_stringify (finalContent c tr)]
      /\ pending (autosave (run sys tr)) = None).
Proof.
  induction tr as [|ev tr IH]; intros sys since c Hs Hp Hb.
  - left. simpl. eauto.
  - rewrite run_cons. destruct ev as [c'|ms|]; cbn [burst finalContent] in *.
    + apply andb_true_iff in Hb as [_ Hb].
      apply (IH (step sys (Change c')) 0 c'); [lia| |exact Hb].
      cbn. f_equal. f_equal. lia.
    + apply (IH (step sys (Elapse ms)) (since + Z.of_N ms) c); [lia| |exact Hb].
      cbn. rewrite Hp. f_equal. f_equal. lia.
    + destruct (Z.leb_spec (clock sys - since + 1000) (clock sys)) as [Hdue|Hdue].
      * right.
        assert (Hf : autosave (step sys TimerFires)
                     = {| pending := None;
                          storage := Some (JSON_stringify c);
                          written := written (autosave sys) ++ [JSON_stringify c] |}).
        { cbn [step autosave]. unfold fire. rewrite Hp.
          destruct (Z.leb_spec (clock sys - since + 1000) (clock sys)); [reflexivity|lia]. }
        destruct (quiet_after_fire tr (step sys TimerFires) since c) as (H1 & H2 & H3);
          [lia | now rewrite Hf | exact Hb |].
        rewrite H1, H2, H3, Hf. auto.
      * assert (Hf : autosave (step sys TimerFires) = autosave sys).
        { cbn [step autosave]. unfold fire. rewrite Hp.
          destruct (Z.leb_spec (clock sys - since + 1000) (clock sys)); [lia|reflexivity]. }
        destruct (IH (step sys TimerFires) since c) as [H|H];
          [lia | now rewrite Hf | exact Hb | |]; rewrite Hf in H; auto.
Qed.

(** C8: a change cancels the timer that was pending and arms one for the
    new content; through a burst of changes, each less than a second after
    the one before, nothing is written before the last change, and after it
    at most one write happens, of the content of the last change; once a
    second has passed after the burst and the timer has fired, that one
    write has happened. *)
Theorem C8_burst_writes_once (sys : System) (c : DraftContent) (tr : list Event) :
  burst 0 tr = true ->
  let armed := step sys (Change c) in
  let sys' := run armed tr in
  (pending (autosave armed) = Some (clock sys + 1000, c)
   /\ written (autosave armed) = written (autosave sys))
  /\ ((written (autosave sys') = written (autosave sys)
       /\ exists due, pending (autosave sys') = Some (due, finalContent c tr))
      \/ (written (autosave sys')
          = written (autosave sys) ++ [JSON_stringify (finalContent c tr)]
          /\ pending (autosave sys') = None))
  /\ written (autosave (run sys' [Elapse 1000; TimerFires]))
     = written (autosave sys) ++ [JSON_stringify (finalContent c tr)].
Proof.
  intros Hb armed sys'.
  assert (Hp : pending (autosave armed) = Some (clock armed - 0 + 1000, c)).
  { cbn. f_equal. f_equal. lia. }
  pose proof (burst_invariant tr armed 0 c (Z.le_refl 0) Hp Hb) as Hinv.
  fold sys' in Hinv.
  change (written (autosave armed)) with (written (autosave sys)) in Hinv.
  split; [split; reflexivity|].
  destruct Hinv as [(Hw & since' & Hs & Hpend)|(Hw & Hpend)].
  - split; [left; eauto|].
    cbn [run fold_left step autosave clock]. unfold fire. rewrite Hpend.
    destruct (Z.leb_spec (clock sys' - since' + 1000) (clock sys' + Z.of_N 1000));
      [|lia].
    cbn [written]. now rewrite Hw.
  - split; [right; auto|].
    cbn [run fold_left step autosave clock]. unfold fire. now rewrite Hpend.
Qed.

End AutosaveClaims.

Section StoredValue.
Import JsonText Persistence.

Variable numberText : bool -> N -> Z -> jsstring.

Lemma updated_draft (c : DraftContent) (html : jsstring) (t : Z) :
  updated (ofDraft c) html t = ofDraft {| htmlContent := html; timestamp := t |}.
Proof. reflexivity. Qed.

Lemma numberJSON_time (t : Z) :
  timeValue t = true ->
  numberJSON numberText (t <? 0)%Z (Z.abs_N t) 0 = Json.numberToString t.
Proof.
  unfold timeValue, numberJSON. intros H. apply Z.leb_le in H.
  assert (E : (Z.abs_N t <=? 9007199254740992)%N = true) by (apply N.leb_le; lia).
  rewrite E. cbn [Z.eqb andb]. f_equal.
  destruct (Z.ltb_spec t 0); lia.
Qed.

Lemma object_flat (k1 s1 k2 s2 : jsstring) :
  123%N :: join [k1 ++ 58%N :: s1; k2 ++ 58%N :: s2] ++ [125%N]
  = 123%N :: ([] ++ k1 ++ 58%N :: s1 ++ [COMMA] ++ k2 ++ 58%N :: s2 ++ [])
    ++ [125%N].
Proof.
  cbn [join app]. rewrite app_nil_r.
  repeat (rewrite <- app_assoc; cbn [app]). reflexivity.
Qed.

Lemma stringify_ofDraft (c : DraftContent) :
  timeValue (timestamp c) = true ->
  stringify numberText (ofDraft c) = JSON_stringify c.
Proof.
  intros H.
  transitivity
    (123%N :: join [Json.quote (lit "htmlContent") ++ 58%N :: Json.quote (htmlContent c);
                    Json.quote (lit "timestamp")
                    ++ 58%N :: numberJSON numberText (timestamp c <? 0)%Z
                                 (Z.abs_N (timestamp c)) 0]
     ++ [125%N]); [reflexivity|].
  rewrite (numberJSON_time _ H).
  exact (object_flat (Json.quote (lit "htmlContent")) (Json.quote (htmlContent c))
           (Json.quote (lit "timestamp")) (Json.numberToString (timestamp c))).
Qed.

Lemma DraftState_render (c : DraftContent) st :
  timeValue (timestamp c) = true -> DraftState (render (ofDraft c) st).
Proof. intros H. exists c. cbn. auto. Qed.

Lemma DraftState_mount (t0 : Z) (saved : option jsstring) :
  (loaded saved = None
   \/ exists c0, loaded saved = Some (ofDraft c0)
                 /\ timeValue (timestamp c0) = true) ->
  timeValue t0 = true ->
  DraftState (mount t0 saved) /\ clock (mount t0 saved) = t0
  /\ written (mount t0 saved) = [] /\ storage (mount t0 saved) = saved.
Proof.
  intros Hl Ht. unfold mount.
  destruct Hl as [->|(c0 & -> & Hc0)].
  - split; [|auto].
    apply (DraftState_render {| htmlContent := []; timestamp := t0 |}). exact Ht.
  - split; [|auto]. now apply DraftState_render.
Qed.

Lemma inTime_now now tr : inTime now tr = true -> timeValue now = true.
Proof. destruct tr; cbn [inTime]; intros H; now apply andb_true_iff in H. Qed.

Lemma inTime_step st ev tr :
  inTime (clock st) (ev :: tr) = true ->
  inTime (clock (step numberText st ev)) tr = true.
Proof.
  cbn [inTime]. intros H. apply andb_true_iff in H as [_ H].
  destruct ev as [html| |ms|]; cbn [step]; try exact H.
  - destruct (mounted st); [|exact H]. now destruct (updated _ _ _).
  - now destruct (mounted st).
  - destruct (pending st) as [[due c]|]; [|exact H].
    now destruct (due <=? clock st)%Z.
Qed.

(** What a step does to a draft state. *)
Lemma DraftState_step st ev :
  DraftState st -> timeValue (clock st) = true ->
  DraftState (step numberText st ev)
  /\ exists c : DraftContent,
       content st = ofDraft c
       /\ (written (step numberText st ev) = written st
           /\ storage (step numberText st ev) = storage st
           \/ written (step numberText st ev) = written st ++ [JSON_stringify c]
              /\ storage (step numberText st ev) = Some (JSON_stringify c))
       /\ (content (step numberText st ev) = content st
           \/ exists html,
                content (step numberText st ev)
                = ofDraft {| htmlContent := html; timestamp := clock st |}).
Proof.
  intros (c & Hc & Htc & Hm & Hp) Hnow.
  destruct ev as [html| |ms|]; cbn [step].
  - rewrite Hm, Hc, updated_draft. split.
    + now apply DraftState_render.
    + exists c. split; [reflexivity|]. split; [left; split; reflexivity|].
      right. now exists html.
  - rewrite Hm. split.
    + now apply (DraftState_render {| htmlContent := []; timestamp := clock st |}).
    + exists c. split; [exact Hc|]. split; [left; split; reflexivity|].
      right. now exists [].
  - split.
    + exists c. cbn. auto.
    + exists c. split; [exact Hc|]. split; [left; split; reflexivity | now left].
  - destruct (pending st) as [[due v]|] eqn:Ep.
    + destruct (due <=? clock st)%Z.
      * split.
        -- exists c. cbn. auto.
        -- exists c. split; [exact Hc|]. split; [|now left].
           right. cbn [written storage]. subst v.
           rewrite Hc, (stringify_ofDraft c Htc). auto.
      * split.
        -- exists c. rewrite Ep. auto.
        -- exists c. split; [exact Hc|]. split; [left; split; reflexivity | now left].
    + split.
      * exists c. rewrite Ep. auto.
      * exists c. split; [exact Hc|]. split; [left; split; reflexivity | now left].
Qed.

Lemma run_step st ev tr :
  run numberText st (ev :: tr) = run numberText (step numberText st ev) tr.
Proof. reflexivity. Qed.

Lemma DraftState_run tr : forall st,
  DraftState st -> inTime (clock st) tr = true ->
  DraftState (run numberText st tr)
  /\ inTime (clock (run numberText st tr)) [] = true
  /\ (storage (run numberText st tr) = storage st
      \/ exists c, timeValue (timestamp c) = true
                   /\ storage (run numberText st tr) = Some (JSON_stringify c)).
Proof.
  induction tr as [|ev tr IH]; intros st Hd Ht.
  - cbn [run fold_left]. auto.
  - rewrite run_step.
    destruct (DraftState_step st ev Hd (inTime_now _ _ Ht))
      as (Hd' & c & Hc & Hw & _).
    destruct (IH _ Hd' (inTime_step st ev tr Ht)) as (H1 & H2 & H3).
    split; [exact H1|]. split; [exact H2|].
    destruct H3 as [H3|H3]; [|now right].
    rewrite H3. destruct Hw as [[_ ->]|[_ ->]]; [now left|].
    right. exists c. split; [|reflexivity].
    destruct Hd as (c' & Hc' & Htc & _). rewrite Hc in Hc'.
    injection Hc' as Hh Hlt Hn.
    assert (timestamp c = timestamp c') as ->; [|exact Htc].
    destruct (Z.ltb_spec (timestamp c) 0), (Z.ltb_spec (timestamp c') 0);
      try discriminate; lia.
Qed.

Lemma inTime_app tr1 : forall now tr2,
  inTime now (tr1 ++ tr2) = true ->
  inTime now tr1 = true
  /\ forall st, clock st = now ->
       inTime (clock (run numberText st tr1)) tr2 = true.
Proof.
  induction tr1 as [|ev tr1 IH]; intros now tr2 H.
  - split; [now apply inTime_now in H; cbn; rewrite H|].
    intros st <-. exact H.
  - cbn [app] in H. split.
    + cbn [inTime] in *. apply andb_true_iff in H as [-> H]. cbn [andb].
      destruct ev; now apply IH in H.
    + intros st <-. rewrite run_step.
      apply (IH (clock (step numberText st ev)) tr2); [|reflexivity].
      now apply inTime_step.
Qed.

(** C9, as the code has it: when the value found in storage at the mount
    is absent, empty or not JSON, or is a draft, an object of the fields
    [htmlContent], a string, and [timestamp], a time value, in that order,
    the state is such an object through every run; a step writes nothing,
    or it writes the JSON text of the state, the object with the fields
    [htmlContent], the current snapshot string, and [timestamp], its time
    stamp; and a step that replaces the state stamps it with the time of
    the replacement. *)
Theorem C9_stored_value (t0 : Z) (saved : option jsstring) (tr : list Event)
  (ev : Event) :
  (loaded saved = None
   \/ exists c0, loaded saved = Some (ofDraft c0)
                 /\ timeValue (timestamp c0) = true) ->
  inTime t0 (tr ++ [ev]) = true ->
  let st := run numberText (mount t0 saved) tr in
  let st' := step numberText st ev in
  exists c : DraftContent,
    content st = ofDraft c
    /\ (written st' = written st
        \/ written st'
           = written st
             ++ [Json.stringify
                   (Json.JObject
                      [(lit "htmlContent", Json.JString (htmlContent c));
                       (lit "timestamp", Json.JNumber (timestamp c))])])
    /\ (content st' = content st
        \/ exists html,
             content st'
             = ofDraft {| htmlContent := html; timestamp := clock st |}).
Proof.
  intros Hl Ht st st'.
  destruct (inTime_app tr t0 [ev] Ht) as [Ht1 Ht2].
  destruct (DraftState_mount t0 saved Hl (inTime_now _ _ Ht1))
    as (Hd0 & Hc0 & _).
  assert (Hrun : inTime (clock (mount t0 saved)) tr = true) by now rewrite Hc0.
  destruct (DraftState_run tr _ Hd0 Hrun) as (Hd & _ & _).
  fold st in Hd.
  assert (Hnow : timeValue (clock st) = true).
  { apply (inTime_now _ [ev]). apply Ht2. exact Hc0. }
  destruct (DraftState_step st ev Hd Hnow) as (_ & c & Hc & Hw & Hn).
  exists c. split; [exact Hc|]. split; [|exact Hn].
  destruct Hw as [[Hw _]|[Hw _]]; [now left | now right].
Qed.

(** Without that condition the fields are not those two: a stored object
    with a third field is put into the state as it is, the update keeps the
    field, and it is written back. *)
Lemma foreign_fields_are_written_back :
  written (run numberText (mount 100 (Some foreignValue))
             [Update (lit "y"); Elapse 1000; TimerFires])
  = [Json.stringify
       (Json.JObject [(lit "htmlContent", Json.JString (lit "y"));
                      (lit "timestamp", Json.JNumber 100);
                      (lit "v", Json.JString (lit "w"))])].
Proof. vm_compute. reflexivity. Qed.

End StoredValue.

Section StoredField.
Import ExportPipeline Dom Cursor Widget Markup Coordinator.
Open Scope Z_scope.

Lemma handlePaste_keeps items : forall w,
  content (handlePaste items w) = content w
  /\ autosave (handlePaste items w) = autosave w.
Proof.
  unfold handlePaste. induction items as [|item items IH]; intros w; [auto|].
  cbn [fold_left].
  destruct (startsWith (itemType item) (lit "image/")); [|apply IH].
  destruct (getAsFile item) as [base64|]; [|apply IH].
  destruct (editorRef w) as [editor|]; [|apply IH].
  destruct (IH (withReads (reads w ++ [(isComposing w, base64)]) w)) as [H1 H2].
  now rewrite H1, H2.
Qed.

Lemma handleContentChange_updates b w :
  content (handleContentChange b w) = content w
  \/ exists html,
       ofDraft (content (handleContentChange b w))
       = Persistence.updated (ofDraft (content w)) html (now w).
Proof.
  unfold handleContentChange.
  destruct (editorRef w) as [editor|]; [|now left].
  destruct (negb b); [|now left].
  right. exists (innerHTML (page w) editor). reflexivity.
Qed.

(** The handlers change the content state as the events of [Persistence]
    do: a step of the component and a click on a delete button leave the
    content, or make of it what [Update] makes at the time of the step, and
    [handleClear] sets what [Clear] sets. *)
Lemma handlers_are_updates (w : World) :
  (forall ev,
     content (step w ev) = content w
     \/ exists html,
          ofDraft (content (step w ev))
          = Persistence.updated (ofDraft (content w)) html (now w))
  /\ (forall b imgWrapper,
        content (DeleteButton.onclick b imgWrapper w) = content w
        \/ exists html,
             ofDraft (content (DeleteButton.onclick b imgWrapper w))
             = Persistence.updated (ofDraft (content w)) html (now w))
  /\ ofDraft (content (Toolbar.handleClear w))
     = Persistence.draftObject [] (now w).
Proof.
  split; [|split].
  - intros ev.
    destruct ev as [pg moved| | |items|i rnd lt m|i| |ms]; cbn [step].
    + apply (handleContentChange_updates (isComposing w)
               (withTimers (map (fun t => (fst t, renameTask moved (snd t)))
                              (timers w)) (withPage pg w))).
    + now left.
    + now left.
    + left. apply handlePaste_keeps.
    + destruct (nth_error (reads w) i) as [[captured base64]|]; [|now left].
      unfold readerOnLoad.
      destruct (insertImage _ _ _) as [pg [[|]|e]]; try now left.
      apply (handleContentChange_updates captured
               (setTimeout FocusEditor 10
                  (withPage pg (withReads (removeNth i (reads w)) w)))).
    + destruct (nth_error (timers w) i) as [[due task]|]; [|now left].
      destruct (due <=? now w)%Z; [|now left].
      destruct task as [position| | |]; cbn [runTask].
      * destruct (restoreCursorPosition _ _ _); now left.
      * cbn [editorRef withTimers].
        destruct (editorRef w) as [editor|]; [|now left].
        right. exists (innerHTML (page w) editor). reflexivity.
      * now left.
      * cbn [editorRef withTimers]. destruct (editorRef w); now left.
    + now left.
    + now left.
  - intros b imgWrapper. unfold DeleteButton.onclick.
    destruct (DeleteButton.remove imgWrapper (page w)) as [pg moved].
    match goal with
    | |- context [handleContentChange b ?w0] =>
        exact (handleContentChange_updates b w0)
    end.
  - unfold Toolbar.handleClear. cbn [editorRef setContent].
    destruct (editorRef w) as [editor|]; [|reflexivity].
    destruct (Toolbar.replaceAll _ _ _) as [pg moved]. reflexivity.
Qed.

(** C9 as stated fails: the value written for the empty draft is
    [{"htmlContent":"","timestamp":0}], which has no field [content]. *)
Lemma C9_field_is_htmlContent :
  let w := run editingWorld [Elapse 1000; AutosaveFires] in
  Autosave.written (autosave w)
  = [[123; 34] ++ lit "htmlContent" ++ [34; 58; 34; 34; 44; 34]
     ++ lit "timestamp" ++ [34; 58; 48; 125]]%N
  /\ forall v, In v (Autosave.written (autosave w)) -> ~ contentAndTimestamp v.
Proof.
  split; [reflexivity|].
  intros v [<-|[]] (s & n & [H|H]); cbn in H; discriminate H.
Qed.

End StoredField.

(** * Further properties *)

Section ExportStructure.
Import ExportPipeline Coordinator.

Lemma JS_eqb_eq (a : jsstring) : forall b, JS.eqb a b = true -> a = b.
Proof.
  induction a as [|x a IH]; intros [|y b] H; simpl in H; try discriminate; auto.
  apply andb_true_iff in H as [Hx Hab]. apply N.eqb_eq in Hx.
  f_equal; auto.
Qed.

Lemma unwrap_loop (kids : list Node) :
  (fix all (l : list Node) : list Node :=
     match l with
     | [] => []
     | k :: l' => unwrap k ++ all l'
     end) kids = flat_map unwrap kids.
Proof. induction kids; simpl; congruence. Qed.

Lemma block_is_loop tag attrs m kids st :
  JS.eqb tag (lit "DIV") || JS.eqb tag (lit "P") = true ->
  processNode (ElementNode tag attrs m kids) st = processNodes kids st.
Proof.
  intros H. cbn [processNode].
  assert (E : JS.eqb tag (lit "IMG") = false /\ JS.eqb tag (lit "SPAN") = false).
  { apply orb_true_iff in H as [H|H]; apply JS_eqb_eq in H; subst tag; split; reflexivity. }
  destruct E as [-> ->]. cbn [andb]. rewrite H. apply children_loop.
Qed.

Lemma processNodes_unwrap n : forall st,
  processNodes (unwrap n) st = processNode n st.
Proof.
  induction n as [d|d|tag attrs m kids IH] using Node_induction; intros st;
    try reflexivity.
  cbn [unwrap].
  destruct (JS.eqb tag (lit "DIV") || JS.eqb tag (lit "P")) eqn:E; [|reflexivity].
  rewrite (block_is_loop _ _ _ _ _ E), unwrap_loop. revert st.
  induction IH as [|k kids Hk _ IHkids]; intros st; [reflexivity|].
  cbn [flat_map processNodes]. now rewrite processNodes_app, Hk, IHkids.
Qed.

(** X1: the export does not see the nesting in [DIV] and [P] elements: a
    list of nodes and the list with every [DIV] and [P] replaced by what is
    in it, at any depth, give the same paragraphs and the same log. *)
Theorem export_ignores_block_nesting (l : list Node) (st : ExportState) :
  processNodes (flat_map unwrap l) st = processNodes l st.
Proof.
  revert st. induction l as [|n l IH]; intros st; [reflexivity|].
  cbn [flat_map processNodes].
  now rewrite processNodes_app, processNodes_unwrap, IH.
Qed.

(** X2: the export of a sequence of nodes is the export of its parts, one
    after the other: what a node contributes does not depend on the nodes
    around it. *)
Theorem export_of_concatenation (l1 l2 : list Node) :
  processNodes (l1 ++ l2) emptyExport
  = {| paragraphs := paragraphs (processNodes l1 emptyExport)
                     ++ paragraphs (processNodes l2 emptyExport);
       console := console (processNodes l1 emptyExport)
                  ++ console (processNodes l2 emptyExport) |}.
Proof.
  rewrite processNodes_app.
  apply (Additive_processNodes l2).
  apply Forall_forall. intros n _. apply Additive_processNode.
Qed.

End ExportStructure.

Section ExportShape.
Import ExportPipeline Coordinator.

Lemma trimStart_head s c r : trimStart s = c :: r -> isWhiteSpace c = false.
Proof.
  induction s as [|x s IH]; simpl; [discriminate|].
  destruct (isWhiteSpace x) eqn:E; [exact IH|].
  now intros [= <- _].
Qed.

Lemma trimStart_suffix s : exists pre, s = pre ++ trimStart s.
Proof.
  induction s as [|x s [pre IH]]; simpl; [now exists []|].
  destruct (isWhiteSpace x); [|now exists []].
  exists (x :: pre). simpl. now f_equal.
Qed.

Lemma trimStart_fixed c r : isWhiteSpace c = false -> trimStart (c :: r) = c :: r.
Proof. intros H. simpl. now rewrite H. Qed.

(** Trimming what is trimmed changes nothing. *)
Lemma trim_trim s : trim (trim s) = trim s.
Proof.
  unfold trim at 2 3. unfold trimEnd.
  set (a := trimStart s).
  destruct (trimStart (rev a)) as [|x X] eqn:EX; [reflexivity|].
  pose proof (trimStart_head _ _ _ EX) as Hx.
  destruct (trimStart_suffix (rev a)) as [pre Hpre]. rewrite EX in Hpre.
  assert (Ha : a = rev (x :: X) ++ rev pre).
  { rewrite <- rev_app_distr, <- Hpre. now rewrite rev_involutive. }
  assert (Hs : trimStart (rev (x :: X)) = rev (x :: X)).
  { destruct (rev (x :: X)) as [|y l] eqn:Er.
    - reflexivity.
    - apply trimStart_fixed.
      apply (trimStart_head s y (l ++ rev pre)). fold a. now rewrite Ha. }
  unfold trim, trimEnd. rewrite Hs, rev_involutive.
  now rewrite (trimStart_fixed x X Hx).
Qed.

Lemma oneRun_lines ls : Forall oneRun (map textParagraph (filter nonBlank ls)).
Proof.
  apply Forall_forall. intros p Hp. apply in_map_iff in Hp as (l & <- & Hl).
  apply filter_In in Hl as [_ Hl]. exists (TextRun l). now split.
Qed.

Lemma oneRun_processImage attrs m :
  Forall oneRun (paragraphs (processImage attrs m emptyExport)).
Proof.
  unfold processImage.
  destruct (getAttribute (lit "src") attrs) as [src|]; [|constructor].
  destruct (truthy src && startsWith src (lit "data:image/")); [|constructor].
  destruct (exportSize _ _) as [ew eh].
  destruct (Base64.atob _) as [bytes|]; [|constructor].
  constructor; [|constructor]. now exists (ImageRun bytes ew eh).
Qed.

Lemma oneRun_processNodes l :
  Forall (fun n => Forall oneRun (paragraphs (processNode n emptyExport))) l ->
  Forall oneRun (paragraphs (processNodes l emptyExport)).
Proof.
  induction 1 as [|k l Hk Hl IH]; [constructor|].
  change (k :: l) with ([k] ++ l). rewrite processNodes_app.
  rewrite (Additive_processNodes l
             (proj2 (Forall_forall _ _) (fun n _ => Additive_processNode n))).
  cbn [paragraphs]. apply Forall_app. split; [exact Hk | exact IH].
Qed.

Lemma oneRun_processNode n :
  Forall oneRun (paragraphs (processNode n emptyExport)).
Proof.
  induction n as [d|d|tag attrs m kids IH] using Node_induction.
  - cbn [processNode]. rewrite processText_spec. apply oneRun_lines.
  - constructor.
  - cbn [processNode].
    destruct (JS.eqb tag (lit "IMG")); [apply oneRun_processImage|].
    destruct (JS.eqb tag (lit "SPAN") && classList_contains attrs (lit "inline-image")).
    { destruct (querySelector_img kids) as [[ia im]|];
        [apply oneRun_processImage | constructor]. }
    destruct (JS.eqb tag (lit "DIV") || JS.eqb tag (lit "P")).
    { rewrite children_loop. now apply oneRun_processNodes. }
    destruct (truthy (trim (textContent (ElementNode tag attrs m kids)))) eqn:E;
      [|constructor].
    constructor; [|constructor].
    eexists. split; [reflexivity|]. unfold nonBlank. now rewrite trim_trim.
Qed.

(** X3: the exported document always has a paragraph, every paragraph
    holds exactly one run, and no text run is blank, the one run of the
    placeholder document apart. *)
Theorem exported_document_shape (parseHTML : jsstring -> list Node) (w : World) :
  let doc := handleExportWord parseHTML w in
  sections doc <> []
  /\ (forall p, In p (sections doc) -> exists r, children p = [r])
  /\ (doc = blankDocument \/ Forall oneRun (sections doc)).
Proof.
  assert (H : Forall oneRun (paragraphs (collect parseHTML w))).
  { unfold collect. destruct (editorRef w); [|constructor].
    destruct (truthy _); [|constructor].
    apply oneRun_processNodes, Forall_forall. intros k _. apply oneRun_processNode. }
  unfold handleExportWord.
  destruct (paragraphs (collect parseHTML w)) as [|p ps] eqn:E.
  - split; [discriminate|]. split; [|now left].
    intros p [<-|[]]. now eexists.
  - split; [discriminate|]. split; [|now right].
    intros q Hq. cbn [sections] in Hq.
    destruct (proj1 (Forall_forall _ _) H q Hq) as (r & Hr & _). now exists r.
Qed.

End ExportShape.

Section DataUrl.
Import ExportPipeline Widget FileReader Base64.
Open Scope N_scope.

Lemma triples_induction (P : list N -> Prop) :
  P [] -> (forall a, P [a]) -> (forall a b, P [a; b]) ->
  (forall a b c r, P r -> P (a :: b :: c :: r)) ->
  forall l, P l.
Proof.
  intros H0 H1 H2 H3. fix IH 1.
  intros [|a [|b [|c r]]].
  - exact H0.
  - apply H1.
  - apply H2.
  - apply H3, IH.
Qed.

Lemma alphabet_range v :
  let c := alphabet v in
  (65 <= c <= 90 \/ 97 <= c <= 122 \/ 48 <= c <= 57 \/ c = 43 \/ c = 47).
Proof.
  unfold alphabet.
  destruct (N.ltb_spec v 26); [lia|].
  destruct (N.ltb_spec v 52); [lia|].
  destruct (N.ltb_spec v 62); [lia|].
  destruct (N.eqb_spec v 62); lia.
Qed.

Lemma alphabet_sextet v : v < 64 -> sextet (alphabet v) = Some v.
Proof.
  intros Hv. unfold alphabet, sextet.
  destruct (N.ltb_spec v 26).
  { replace ((65 <=? 65 + v) && (65 + v <=? 90))%bool with true
      by (symmetry; apply andb_true_iff; split; apply N.leb_le; lia).
    f_equal. lia. }
  destruct (N.ltb_spec v 52).
  { replace ((65 <=? 71 + v) && (71 + v <=? 90))%bool with false
      by (symmetry; apply andb_false_iff; right; apply N.leb_gt; lia).
    replace ((97 <=? 71 + v) && (71 + v <=? 122))%bool with true
      by (symmetry; apply andb_true_iff; split; apply N.leb_le; lia).
    f_equal. lia. }
  destruct (N.ltb_spec v 62).
  { replace ((65 <=? v - 4) && (v - 4 <=? 90))%bool with false
      by (symmetry; apply andb_false_iff; left; apply N.leb_gt; lia).
    replace ((97 <=? v - 4) && (v - 4 <=? 122))%bool with false
      by (symmetry; apply andb_false_iff; left; apply N.leb_gt; lia).
    replace ((48 <=? v - 4) && (v - 4 <=? 57))%bool with true
      by (symmetry; apply andb_true_iff; split; apply N.leb_le; lia).
    f_equal. lia. }
  destruct (N.eqb_spec v 62) as [->|Hne]; [reflexivity|].
  assert (v = 63) as -> by lia. reflexivity.
Qed.

Lemma alphabet_not_whitespace v : isAsciiWhitespace (alphabet v) = false.
Proof.
  pose proof (alphabet_range v) as H. cbv zeta in H. unfold isAsciiWhitespace.
  repeat (apply orb_false_iff; split); apply N.eqb_neq; lia.
Qed.

Lemma alphabet_not_equals v : N.eqb (alphabet v) EQUALS = false.
Proof.
  pose proof (alphabet_range v) as H. cbv zeta in H.
  apply N.eqb_neq. unfold EQUALS. lia.
Qed.

Lemma alphabet_not_comma v : N.eqb (alphabet v) COMMA = false.
Proof.
  pose proof (alphabet_range v) as H. cbv zeta in H.
  apply N.eqb_neq. unfold COMMA. lia.
Qed.

Lemma encode_no_whitespace bytes :
  filter (fun c => negb (isAsciiWhitespace c)) (encode bytes) = encode bytes.
Proof.
  induction bytes as [|a|a b|a b c r IH] using triples_induction;
    cbn [encode filter]; rewrite ?alphabet_not_whitespace; cbn [negb];
    try reflexivity.
  now rewrite IH.
Qed.

Lemma encode_no_comma bytes : existsb (N.eqb COMMA) (encode bytes) = false.
Proof.
  assert (E : forall v, N.eqb COMMA (alphabet v) = false)
    by (intros v; rewrite N.eqb_sym; apply alphabet_not_comma).
  induction bytes as [|a|a b|a b c r IH] using triples_induction;
    cbn [encode existsb]; rewrite ?E; cbn [orb]; auto.
Qed.

Lemma encode_length bytes : (List.length (encode bytes) mod 4 = 0)%nat.
Proof.
  induction bytes as [|a|a b|a b c r IH] using triples_induction;
    try reflexivity.
  cbn [encode List.length].
  replace (S (S (S (S (List.length (encode r))))))
    with (List.length (encode r) + 1 * 4)%nat by lia.
  rewrite Nat.Div0.mod_add. exact IH.
Qed.

Lemma stripPadding_after (pre s : jsstring) :
  (List.length pre mod 4 = 0)%nat -> (2 <= List.length s)%nat ->
  stripPadding (pre ++ s) = pre ++ stripPadding s.
Proof.
  intros Hpre Hs. unfold stripPadding.
  assert (Hm : ((List.length (pre ++ s)) mod 4 = (List.length s) mod 4)%nat).
  { rewrite length_app.
    rewrite (Nat.div_mod_eq (List.length pre) 4), Hpre, Nat.add_0_r.
    rewrite Nat.add_comm, Nat.mul_comm. apply Nat.Div0.mod_add. }
  rewrite Hm. destruct (Nat.eqb (List.length s mod 4) 0); [|reflexivity].
  rewrite rev_app_distr.
  destruct (rev s) as [|x [|y r]] eqn:Er.
  - apply (f_equal (@List.length _)) in Er. rewrite length_rev in Er.
    simpl in Er. lia.
  - apply (f_equal (@List.length _)) in Er. rewrite length_rev in Er.
    simpl in Er. lia.
  - cbn [app].
    destruct (N.eqb x EQUALS); [|reflexivity].
    destruct (N.eqb y EQUALS).
    + now rewrite rev_app_distr, rev_involutive.
    + change (y :: r ++ rev pre) with ((y :: r) ++ rev pre).
      now rewrite rev_app_distr, rev_involutive.
Qed.

Lemma stripPadding_encode bytes : stripPadding (encode bytes) = unpadded bytes.
Proof.
  induction bytes as [|a|a b|a b c r IH] using triples_induction.
  - reflexivity.
  - reflexivity.
  - cbn [encode unpadded]. unfold stripPadding. cbn [List.length Nat.modulo].
    cbn -[alphabet N.eqb]. rewrite alphabet_not_equals. reflexivity.
  - cbn [encode unpadded].
    destruct r as [|x r'].
    + unfold stripPadding. cbn -[alphabet N.eqb].
      rewrite alphabet_not_equals. reflexivity.
    + rewrite <- IH.
      apply (stripPadding_after
               [alphabet (a / 4); alphabet ((a mod 4) * 16 + b / 16);
                alphabet ((b mod 16) * 4 + c / 64); alphabet (c mod 64)]
               (encode (x :: r')) eq_refl).
      destruct r' as [|y [|z r'']]; cbn [encode List.length]; lia.
Qed.

Lemma unpadded_length bytes :
  Nat.eqb (List.length (unpadded bytes) mod 4) 1 = false.
Proof.
  induction bytes as [|a|a b|a b c r IH] using triples_induction;
    try reflexivity.
  cbn [unpadded List.length].
  replace (S (S (S (S (List.length (unpadded r))))))
    with (List.length (unpadded r) + 1 * 4)%nat by lia.
  rewrite Nat.Div0.mod_add. exact IH.
Qed.

Lemma sextets_unpadded bytes :
  forallb (fun b => b <? 256) bytes = true ->
  sextets (unpadded bytes) = Some (sextetsOf bytes).
Proof.
  induction bytes as [|a|a b|a b c r IH] using triples_induction;
    cbn [forallb unpadded sextetsOf sextets]; intros H.
  - reflexivity.
  - apply andb_true_iff in H as [Ha _]. apply N.ltb_lt in Ha.
    rewrite !alphabet_sextet; [reflexivity| |].
    + pose proof (N.mod_upper_bound a 4). lia.
    + apply N.Div0.div_lt_upper_bound. lia.
  - apply andb_true_iff in H as [Ha H]. apply andb_true_iff in H as [Hb _].
    apply N.ltb_lt in Ha, Hb.
    pose proof (N.mod_upper_bound a 4). pose proof (N.mod_upper_bound b 16).
    assert (a / 4 < 64) by (apply N.Div0.div_lt_upper_bound; lia).
    assert (b / 16 < 16) by (apply N.Div0.div_lt_upper_bound; lia).
    rewrite !alphabet_sextet; [reflexivity|lia|lia|lia].
  - apply andb_true_iff in H as [Ha H]. apply andb_true_iff in H as [Hb H].
    apply andb_true_iff in H as [Hc H].
    apply N.ltb_lt in Ha, Hb, Hc.
    pose proof (N.mod_upper_bound a 4). pose proof (N.mod_upper_bound b 16).
    pose proof (N.mod_upper_bound c 64).
    assert (a / 4 < 64) by (apply N.Div0.div_lt_upper_bound; lia).
    assert (b / 16 < 16) by (apply N.Div0.div_lt_upper_bound; lia).
    assert (c / 64 < 4) by (apply N.Div0.div_lt_upper_bound; lia).
    rewrite !alphabet_sextet by lia. now rewrite (IH H).
Qed.

Lemma bytesOf_sextetsOf bytes : forall fuel,
  forallb (fun b => b <? 256) bytes = true ->
  (List.length bytes < 3 * fuel)%nat ->
  bytesOf fuel (sextetsOf bytes) = bytes.
Proof.
  induction bytes as [|a|a b|a b c r IH] using triples_induction;
    intros [|fuel] H Hf; cbn [List.length] in Hf; try lia;
    cbn [forallb] in H; cbn [sextetsOf bytesOf].
  - reflexivity.
  - apply andb_true_iff in H as [Ha _]. apply N.ltb_lt in Ha.
    pose proof (N.div_mod a 4). pose proof (N.mod_upper_bound a 4).
    f_equal. symmetry. apply (N.div_unique _ 16 a 0); lia.
  - apply andb_true_iff in H as [Ha H]. apply andb_true_iff in H as [Hb _].
    apply N.ltb_lt in Ha, Hb.
    pose proof (N.div_mod a 4). pose proof (N.div_mod b 16).
    pose proof (N.mod_upper_bound a 4). pose proof (N.mod_upper_bound b 16).
    set (w := a / 4 * 4096 + (a mod 4 * 16 + b / 16) * 64 + b mod 16 * 4).
    assert (Hw : w = (a * 256 + b) * 4) by (unfold w; lia).
    assert (E1 : w / 1024 = a)
      by (symmetry; apply (N.div_unique _ 1024 a (b * 4)); lia).
    assert (E2 : w / 4 = a * 256 + b)
      by (symmetry; apply (N.div_unique _ 4 _ 0); lia).
    assert (E3 : (a * 256 + b) mod 256 = b)
      by (symmetry; apply (N.mod_unique _ 256 a b); lia).
    now rewrite E1, E2, E3.
  - apply andb_true_iff in H as [Ha H]. apply andb_true_iff in H as [Hb H].
    apply andb_true_iff in H as [Hc H].
    apply N.ltb_lt in Ha, Hb, Hc.
    pose proof (N.div_mod a 4). pose proof (N.div_mod b 16).
    pose proof (N.div_mod c 64).
    pose proof (N.mod_upper_bound a 4). pose proof (N.mod_upper_bound b 16).
    pose proof (N.mod_upper_bound c 64).
    set (w := a / 4 * 262144 + (a mod 4 * 16 + b / 16) * 4096
              + (b mod 16 * 4 + c / 64) * 64 + c mod 64).
    assert (Hw : w = a * 65536 + (b * 256 + c)) by (unfold w; lia).
    assert (E1 : w / 65536 = a)
      by (symmetry; apply (N.div_unique _ 65536 a (b * 256 + c)); lia).
    assert (E2 : w / 256 = a * 256 + b)
      by (symmetry; apply (N.div_unique _ 256 _ c); lia).
    assert (E3 : (a * 256 + b) mod 256 = b)
      by (symmetry; apply (N.mod_unique _ 256 a b); lia).
    assert (E4 : w mod 256 = c)
      by (symmetry; apply (N.mod_unique _ 256 (a * 256 + b) c); lia).
    rewrite E1, E2, E3, E4, (IH fuel H) by lia. reflexivity.
Qed.

Lemma sextetsOf_length bytes :
  (List.length bytes <= List.length (sextetsOf bytes))%nat.
Proof.
  induction bytes as [|a|a b|a b c r IH] using triples_induction;
    cbn [sextetsOf List.length]; lia.
Qed.

(** Decoding what was encoded gives the bytes back. *)
Lemma atob_encode bytes :
  forallb (fun b => b <? 256) bytes = true ->
  atob (encode bytes) = Some bytes.
Proof.
  intros H. unfold atob.
  rewrite encode_no_whitespace, stripPadding_encode, unpadded_length.
  rewrite (sextets_unpadded bytes H). f_equal.
  apply bytesOf_sextetsOf; [exact H|].
  pose proof (sextetsOf_length bytes). lia.
Qed.

End DataUrl.

Section PasteToExport.
Import ExportPipeline Widget FileReader Base64.

Lemma split_without sep s :
  existsb (N.eqb sep) s = false -> split sep s = [s].
Proof.
  induction s as [|c s IH]; cbn [existsb split]; [reflexivity|].
  intros H. apply orb_false_iff in H as [Hc Hs].
  rewrite N.eqb_sym, Hc, (IH Hs). reflexivity.
Qed.

Lemma split_at_first sep p r :
  existsb (N.eqb sep) p = false ->
  split sep (p ++ sep :: r) = p :: split sep r.
Proof.
  induction p as [|c p IH]; cbn [existsb split app]; intros H.
  - now rewrite N.eqb_refl.
  - apply orb_false_iff in H as [Hc Hp].
    rewrite N.eqb_sym, Hc, (IH Hp). reflexivity.
Qed.

Lemma startsWith_after a : forall s p,
  startsWith (a ++ s) (a ++ p) = startsWith s p.
Proof.
  induction a as [|x a IH]; intros s p; [reflexivity|].
  cbn [app startsWith]. now rewrite N.eqb_refl, IH.
Qed.

Lemma startsWith_longer p : forall s t,
  startsWith s p = true -> startsWith (s ++ t) p = true.
Proof.
  induction p as [|x p IH]; intros s t H.
  - now destruct (s ++ t).
  - destruct s as [|c s]; [discriminate|].
    cbn [startsWith app] in *.
    apply andb_true_iff in H as [Hc Hs]. now rewrite Hc, (IH s t Hs).
Qed.

(** The image of a file, in a widget or bare, gives the bytes of the file. *)
Lemma processImage_of_file (file : File) attrs m st :
  getAttribute (lit "src") attrs = Some (readAsDataURL file) ->
  startsWith (fileType file) (lit "image/") = true ->
  existsb (N.eqb COMMA) (fileType file) = false ->
  forallb (fun b => (b <? 256)%N) (fileBytes file) = true ->
  processImage attrs m st
  = push {| children :=
              [ImageRun (fileBytes file)
                 (fst (exportSize (originalWidth m) (originalHeight m)))
                 (snd (exportSize (originalWidth m) (originalHeight m)))] |} st.
Proof.
  intros Hsrc Hty Hcomma Hbytes. unfold processImage. rewrite Hsrc.
  assert (Hs : startsWith (readAsDataURL file) (lit "data:image/") = true).
  { unfold readAsDataURL.
    change (lit "data:image/") with (lit "data:" ++ lit "image/").
    rewrite startsWith_after. now apply startsWith_longer. }
  rewrite Hs, (startsWith_truthy _ Hs). cbn [andb].
  destruct (exportSize (originalWidth m) (originalHeight m)) as [ew eh].
  assert (Hsplit : split COMMA (readAsDataURL file)
                   = [lit "data:" ++ fileType file ++ lit ";base64";
                      encode (fileBytes file)]).
  { unfold readAsDataURL.
    change (lit ";base64,") with (lit ";base64" ++ [COMMA]).
    rewrite <- !app_assoc. cbn [app].
    replace (lit "data:" ++ fileType file ++ lit ";base64" ++ COMMA :: encode (fileBytes file))
      with ((lit "data:" ++ fileType file ++ lit ";base64") ++ COMMA :: encode (fileBytes file))
      by now rewrite <- !app_assoc.
    rewrite split_at_first.
    - now rewrite (split_without COMMA _ (encode_no_comma (fileBytes file))).
    - rewrite !existsb_app.
      apply orb_false_iff. split; [reflexivity|].
      apply orb_false_iff. split; [exact Hcomma | reflexivity]. }
  rewrite Hsplit. cbn [nth_error].
  now rewrite (atob_encode _ Hbytes).
Qed.

Lemma imageOf_imgWrapper imageId src alt m :
  exists attrs,
    imageOf (imgWrapper imageId src alt m) = Some (attrs, m)
    /\ getAttribute (lit "src") attrs = Some src.
Proof. eexists. split; reflexivity. Qed.

(** X4: the bytes of a pasted image file are the bytes of the image run
    that the export makes of its widget: the data URL that
    [readAsDataURL] gives for a file whose type starts with [image/] and
    has no comma passes the test of the export, is split at its one comma
    and decodes to the file. *)
Theorem pasted_bytes_are_exported (file : File) (imageId alt : jsstring)
  (m : ImgMetrics) (st : ExportState) :
  startsWith (fileType file) (lit "image/") = true ->
  existsb (N.eqb COMMA) (fileType file) = false ->
  forallb (fun b => (b <? 256)%N) (fileBytes file) = true ->
  processNode (imgWrapper imageId (readAsDataURL file) alt m) st
  = push {| children :=
              [ImageRun (fileBytes file)
                 (fst (exportSize (originalWidth m) (originalHeight m)))
                 (snd (exportSize (originalWidth m) (originalHeight m)))] |} st.
Proof.
  intros Hty Hcomma Hbytes.
  destruct (imageOf_imgWrapper imageId (readAsDataURL file) alt m)
    as (attrs & Himg & Hsrc).
  rewrite (processNode_image _ _ _ st Himg).
  now apply processImage_of_file.
Qed.

(** X5: an image whose [src] starts with [data:image/] and holds no comma
    is not exported: [split(",")[1]] is [undefined], [atob] throws on it,
    and the error is logged. *)
Theorem image_without_comma_is_logged (node : Node) attrs m (src : jsstring)
  (st : ExportState) :
  imageOf node = Some (attrs, m) ->
  getAttribute (lit "src") attrs = Some src ->
  startsWith src (lit "data:image/") = true ->
  existsb (N.eqb COMMA) src = false ->
  processNode node st = consoleError FailedToProcessImage st.
Proof.
  intros Himg Hsrc Hs Hcomma.
  rewrite (processNode_image _ _ _ _ Himg). unfold processImage.
  rewrite Hsrc, Hs, (startsWith_truthy _ Hs). cbn [andb].
  destruct (exportSize (originalWidth m) (originalHeight m)) as [ew eh].
  rewrite (split_without COMMA src Hcomma). reflexivity.
Qed.

End PasteToExport.

Section Sentinel.
Import ExportPipeline.

Lemma trimStart_snoc (z : char16) : isWhiteSpace z = false ->
  forall l : jsstring, exists X : jsstring, trimStart (l ++ [z]) = X ++ [z].
Proof.
  intros Hz. induction l as [|c l [X IH]]; cbn [app trimStart].
  - rewrite Hz. now exists [].
  - destruct (isWhiteSpace c); [now exists X|]. now exists (c :: l).
Qed.

Lemma trim_keeps_head (z : char16) (t : jsstring) :
  isWhiteSpace z = false -> exists u : jsstring, trim (z :: t) = z :: u.
Proof.
  intros Hz. unfold trim. rewrite (trimStart_fixed z t Hz). unfold trimEnd.
  cbn [rev]. destruct (trimStart_snoc z Hz (rev t)) as [X ->].
  rewrite rev_app_distr. now exists (rev X).
Qed.

Lemma split_head (sep c : char16) (s : jsstring) :
  N.eqb c sep = false ->
  exists (l : jsstring) (ls : list jsstring), split sep (c :: s) = (c :: l) :: ls.
Proof.
  intros H. cbn [split]. rewrite H.
  destruct (split sep s) as [|l ls]; eauto.
Qed.

(** The lines of a text that begins with a character that is not
    whitespace: the first one is exported and begins with that character. *)
Lemma lines_keep_head (z : char16) (t : jsstring) :
  isWhiteSpace z = false -> N.eqb z LF = false ->
  exists (line : jsstring) (rest : list Paragraph),
    map textParagraph (filter nonBlank (split LF (trim (z :: t))))
    = textParagraph (z :: line) :: rest.
Proof.
  intros Hz Hlf.
  destruct (trim_keeps_head z t Hz) as [u Hu].
  destruct (split_head LF z u Hlf) as (l & ls & Hl).
  destruct (trim_keeps_head z l Hz) as [v Hv].
  exists l, (map textParagraph (filter nonBlank ls)).
  replace (trim (z :: t)) with (z :: u).
  replace (split LF (z :: u)) with ((z :: l) :: ls).
  cbn [filter]. unfold nonBlank at 1.
  replace (trim (z :: l)) with (z :: v). reflexivity.
Qed.

(** X6: the zero width space that a paste puts after an image is not
    whitespace for [trim]: a text node that begins with it is exported, and
    the first paragraph it gives begins with it; the two sentinels alone,
    in two text nodes or merged in one, give one paragraph whose run holds
    the zero width space and nothing else. *)
Theorem sentinel_is_exported :
  (forall t : jsstring,
     exists line rest,
       paragraphs (processNode (TextNode (ZWSP :: t)) emptyExport)
       = textParagraph (ZWSP :: line) :: rest)
  /\ processNodes [TextNode [ZWSP]; TextNode [SPACE]] emptyExport
     = {| paragraphs := [textParagraph [ZWSP]]; console := [] |}
  /\ processNodes [TextNode [ZWSP; SPACE]] emptyExport
     = {| paragraphs := [textParagraph [ZWSP]]; console := [] |}.
Proof.
  split; [|split; reflexivity].
  intros t. cbn [processNode]. rewrite processText_spec. cbn [paragraphs app].
  exact (lines_keep_head ZWSP t eq_refl eq_refl).
Qed.

End Sentinel.

Section TextLines.
Import ExportPipeline.

Lemma split_no_separator sep s :
  Forall (fun l => existsb (N.eqb sep) l = false) (split sep s).
Proof.
  induction s as [|c s IH]; cbn [split].
  - constructor; [reflexivity|constructor].
  - destruct (N.eqb_spec c sep) as [->|Hne].
    + constructor; [reflexivity|exact IH].
    + destruct (split sep s) as [|l ls]; inversion IH; subst.
      * constructor; [|constructor]. cbn [existsb].
        rewrite N.eqb_sym. apply N.eqb_neq in Hne. now rewrite Hne.
      * constructor; [|assumption]. cbn [existsb].
        rewrite N.eqb_sym. apply N.eqb_neq in Hne. rewrite Hne. assumption.
Qed.

(** X7: a run that the export makes of a text node holds no line feed:
    the text is split at every line feed, so a paragraph never spans two
    lines of a text node. *)
Theorem text_node_runs_hold_no_line_feed (data : jsstring) (st : ExportState)
  (p : Paragraph) :
  In p (paragraphs (processNode (TextNode data) st)) ->
  In p (paragraphs st)
  \/ exists line, p = textParagraph line /\ existsb (N.eqb LF) line = false.
Proof.
  cbn [processNode]. rewrite processText_spec. cbn [paragraphs].
  intros H. apply in_app_or in H as [H|H]; [now left|right].
  apply in_map_iff in H as (line & <- & Hl).
  apply filter_In in Hl as [Hl _].
  exists line. split; [reflexivity|].
  exact (proj1 (Forall_forall _ _) (split_no_separator LF (trim data)) line Hl).
Qed.

End TextLines.

Section AspectFitMore.
Import ExportPipeline.
Open Scope Q_scope.

Lemma exactRatio_width (w h : Z) :
  (0 < w)%Z -> (0 < h)%Z -> (4 * h <= 3 * w)%Z ->
  inject_Z w * exactRatio w h == inject_Z 600.
Proof.
  intros Hw Hh Hle. unfold exactRatio.
  pose proof (inject_Z_pos w Hw) as HW. pose proof (inject_Z_pos h Hh) as HH.
  assert (Hq : inject_Z 4 * inject_Z h <= inject_Z 3 * inject_Z w)
    by (rewrite <- !inject_Z_mult, <- Zle_Qle; exact Hle).
  change (inject_Z 4) with (4 # 1) in Hq. change (inject_Z 3) with (3 # 1) in Hq.
  rewrite Q.min_l.
  - apply Qmult_div_r. lra.
  - apply Qle_shift_div_l; [exact HH|].
    unfold Qdiv. rewrite <- Qmult_assoc, (Qmult_comm (/ inject_Z w)), Qmult_assoc.
    apply Qle_shift_div_r; [exact HW|].
    change (inject_Z 600) with (600 # 1). change (inject_Z 450) with (450 # 1). lra.
Qed.

Lemma exactRatio_height (w h : Z) :
  (0 < w)%Z -> (0 < h)%Z -> (3 * w <= 4 * h)%Z ->
  inject_Z h * exactRatio w h == inject_Z 450.
Proof.
  intros Hw Hh Hle. unfold exactRatio.
  pose proof (inject_Z_pos w Hw) as HW. pose proof (inject_Z_pos h Hh) as HH.
  assert (Hq : inject_Z 3 * inject_Z w <= inject_Z 4 * inject_Z h)
    by (rewrite <- !inject_Z_mult, <- Zle_Qle; exact Hle).
  change (inject_Z 4) with (4 # 1) in Hq. change (inject_Z 3) with (3 # 1) in Hq.
  rewrite Q.min_r.
  - apply Qmult_div_r. lra.
  - apply Qle_shift_div_l; [exact HW|].
    unfold Qdiv. rewrite <- Qmult_assoc, (Qmult_comm (/ inject_Z h)), Qmult_assoc.
    apply Qle_shift_div_r; [exact HH|].
    change (inject_Z 600) with (600 # 1). change (inject_Z 450) with (450 # 1). lra.
Qed.

(** An integer within a half of an integer is that integer. *)
Lemma integer_within_half (e k : Z) (X : Q) :
  X == inject_Z k ->
  inject_Z e - X <= 1 # 2 -> X - inject_Z e <= 1 # 2 -> e = k.
Proof.
  intros HX H1 H2. rewrite HX in H1, H2.
  assert (A : inject_Z e < inject_Z (k + 1))
    by (rewrite inject_Z_plus; change (inject_Z 1) with 1; lra).
  assert (B : inject_Z k < inject_Z (e + 1))
    by (rewrite inject_Z_plus; change (inject_Z 1) with 1; lra).
  rewrite <- Zlt_Qlt in A, B. lia.
Qed.

Lemma exportSize_oversize (w h : Z) :
  (600 < w \/ 450 < h)%Z ->
  exportSize w h
  = (Math_round (fmul (inject_Z w) (codeRatio w h)),
     Math_round (fmul (inject_Z h) (codeRatio w h))).
Proof.
  intros H. unfold exportSize, maxWidth, maxHeight.
  replace ((w >? 600)%Z || (h >? 450)%Z)%bool with true; [reflexivity|].
  symmetry. apply orb_true_iff. rewrite !Z.gtb_ltb, !Z.ltb_lt. exact H.
Qed.

Lemma limiting_dimension (w h : Z) :
  (0 < w < 4294967296)%Z -> (0 < h < 4294967296)%Z ->
  (600 < w \/ 450 < h)%Z ->
  ((4 * h <= 3 * w)%Z -> fst (exportSize w h) = 600%Z)
  /\ ((3 * w <= 4 * h)%Z -> snd (exportSize w h) = 450%Z).
Proof.
  intros Hw Hh Hbig. rewrite (exportSize_oversize w h Hbig). cbn [fst snd].
  split; intros Hle.
  - destruct (scaled_nearest w w h Hw Hh (or_introl eq_refl)) as [A B].
    cbv zeta in A, B.
    exact (integer_within_half _ 600 _
             (exactRatio_width w h (proj1 Hw) (proj1 Hh) Hle) A B).
  - destruct (scaled_nearest h w h Hw Hh (or_intror eq_refl)) as [A B].
    cbv zeta in A, B.
    exact (integer_within_half _ 450 _
             (exactRatio_height w h (proj1 Hw) (proj1 Hh) Hle) A B).
Qed.

(** An integer that is not negative and within a half of a number below a
    half is zero. *)
Lemma rounds_to_zero (e : Z) (X : Q) :
  (0 <= e)%Z -> X < 1 # 2 -> inject_Z e - X <= 1 # 2 -> e = 0%Z.
Proof.
  intros He HX H.
  assert (A : inject_Z e < inject_Z 1) by (change (inject_Z 1) with 1; lra).
  rewrite <- Zlt_Qlt in A. lia.
Qed.

(** X8: an image that is too large is scaled until it touches the box of
    600 by 450: when the width is the limiting dimension (the image is at
    least as wide as 4:3) the export width is exactly 600, and when the
    height is, the export height is exactly 450. *)
Theorem oversize_image_touches_the_box (w h : Z) :
  (0 < w < 4294967296)%Z -> (0 < h < 4294967296)%Z ->
  (600 < w \/ 450 < h)%Z ->
  ((4 * h <= 3 * w)%Z -> fst (exportSize w h) = 600%Z)
  /\ ((3 * w <= 4 * h)%Z -> snd (exportSize w h) = 450%Z).
Proof. exact (limiting_dimension w h). Qed.

(** X9: an image more than 1200 times as wide as it is high is exported
    with the height 0, and one more than 900 times as high as it is wide
    with the width 0: the scaled dimension is below a half and
    [Math.round] takes it to zero. *)
Theorem extreme_image_collapses (w h : Z) :
  (0 < w < 4294967296)%Z -> (0 < h < 4294967296)%Z ->
  ((1200 * h < w)%Z -> exportSize w h = (600, 0)%Z)
  /\ ((900 * w < h)%Z -> exportSize w h = (0, 450)%Z).
Proof.
  intros Hw Hh.
  pose proof (inject_Z_pos w (proj1 Hw)) as HW.
  pose proof (inject_Z_pos h (proj1 Hh)) as HH.
  destruct (exportSize_bounds w h (proj1 Hw) (proj1 Hh)) as [[Bw _] [Bh _]].
  split; intros Hx.
  - assert (Hbig : (600 < w \/ 450 < h)%Z) by lia.
    assert (Hle : (4 * h <= 3 * w)%Z) by lia.
    destruct (limiting_dimension w h Hw Hh Hbig) as [Hfst _].
    specialize (Hfst Hle).
    rewrite (surjective_pairing (exportSize w h)), Hfst. f_equal.
    rewrite (exportSize_oversize w h Hbig) in Bh |- *. cbn [snd] in *.
    destruct (scaled_nearest h w h Hw Hh (or_intror eq_refl)) as [A _].
    cbv zeta in A.
    apply (rounds_to_zero _ (inject_Z h * exactRatio w h) Bh); [|exact A].
    pose proof (exactRatio_width w h (proj1 Hw) (proj1 Hh) Hle) as Er.
    apply (Qmult_lt_r _ _ (inject_Z w) HW).
    assert (Hq : inject_Z 1200 * inject_Z h < inject_Z w)
      by (rewrite <- inject_Z_mult, <- Zlt_Qlt; exact Hx).
    change (inject_Z 1200) with (1200 # 1) in Hq.
    change (inject_Z 600) with (600 # 1) in Er.
    setoid_replace (inject_Z h * exactRatio w h * inject_Z w)
      with (inject_Z h * (inject_Z w * exactRatio w h)) by ring.
    rewrite Er. lra.
  - assert (Hbig : (600 < w \/ 450 < h)%Z) by lia.
    assert (Hle : (3 * w <= 4 * h)%Z) by lia.
    destruct (limiting_dimension w h Hw Hh Hbig) as [_ Hsnd].
    specialize (Hsnd Hle).
    rewrite (surjective_pairing (exportSize w h)), Hsnd. f_equal.
    rewrite (exportSize_oversize w h Hbig) in Bw |- *. cbn [fst] in *.
    destruct (scaled_nearest w w h Hw Hh (or_introl eq_refl)) as [A _].
    cbv zeta in A.
    apply (rounds_to_zero _ (inject_Z w * exactRatio w h) Bw); [|exact A].
    pose proof (exactRatio_height w h (proj1 Hw) (proj1 Hh) Hle) as Er.
    apply (Qmult_lt_r _ _ (inject_Z h) HH).
    assert (Hq : inject_Z 900 * inject_Z w < inject_Z h)
      by (rewrite <- inject_Z_mult, <- Zlt_Qlt; exact Hx).
    change (inject_Z 900) with (900 # 1) in Hq.
    change (inject_Z 450) with (450 # 1) in Er.
    setoid_replace (inject_Z w * exactRatio w h * inject_Z h)
      with (inject_Z w * (inject_Z h * exactRatio w h)) by ring.
    rewrite Er. lra.
Qed.

End AspectFitMore.

Section CursorRoundTrip.
Import ExportPipeline Dom Cursor.

(** X10: restoring an anchor that was just saved leaves the page as it is:
    for a selection of the document that lies in the editor, [setStart] and
    [setEnd] rebuild the range that was saved and [addRange] selects it
    again. *)
Theorem saved_position_is_restored (editor : NodeRef) (pg : Page)
  (range : Range) :
  selection pg = Some range ->
  tree (container (rangeStart range)) = 0 ->
  tree (container (rangeEnd range)) = 0 ->
  validPoint pg (rangeStart range) -> validPoint pg (rangeEnd range) ->
  isAfter (rangeStart range) (rangeEnd range) = false ->
  contains editor (commonAncestorContainer range) = true ->
  exists position,
    saveCursorPosition (Some editor) pg = Some position
    /\ restoreCursorPosition (Some position) (Some editor) pg = Ok pg.
Proof.
  intros Hsel Hts Hte Hvs Hve Hord Hin.
  unfold saveCursorPosition. rewrite Hsel, Hin.
  eexists. split; [reflexivity|].
  destruct pg as [ts sel]. cbn [selection] in Hsel. subst sel.
  destruct range as [[cs os] [ce oe]].
  cbn [rangeStart rangeEnd container offset] in *.
  unfold validPoint in Hvs, Hve. cbn [container offset] in Hvs, Hve.
  unfold restoreCursorPosition, tryRestore, bind.
  cbn [startContainer startOffset endContainer endOffset].
  unfold setStart.
  destruct (resolve _ cs) as [ns|]; [|contradiction].
  replace (nodeLength ns <? os) with false by (symmetry; apply Nat.ltb_ge; exact Hvs).
  assert (E1 : exists e1,
             (if negb (sameTree {| container := cs; offset := os |} (rangeEnd createRange))
                 || isAfter {| container := cs; offset := os |} (rangeEnd createRange)
              then Ok {| rangeStart := {| container := cs; offset := os |};
                         rangeEnd := {| container := cs; offset := os |} |}
              else Ok {| rangeStart := {| container := cs; offset := os |};
                         rangeEnd := rangeEnd createRange |})
             = Ok {| rangeStart := {| container := cs; offset := os |};
                     rangeEnd := e1 |}).
  { destruct (negb _ || _); eauto. }
  destruct E1 as [e1 ->].
  unfold setEnd.
  destruct (resolve _ ce) as [ne|]; [|contradiction].
  replace (nodeLength ne <? oe) with false by (symmetry; apply Nat.ltb_ge; exact Hve).
  cbn [rangeStart]. unfold sameTree at 1. cbn [container tree].
  rewrite Hts, Hte, Hord. cbn [Nat.eqb negb orb].
  unfold addRange, removeAllRanges. cbn [rangeStart container tree selection trees].
  rewrite Hts. reflexivity.
Qed.

Lemma stale_throws pg position :
  staleOffset pg position -> exists e, tryRestore position pg = Throw e.
Proof.
  intros [(n & Hn & Hlt)|(n & Hn & Hlt)]; unfold tryRestore, bind.
  - unfold setStart. rewrite Hn.
    replace (nodeLength n <? startOffset position) with true
      by (symmetry; now apply Nat.ltb_lt).
    eauto.
  - destruct (setStart _ _ _ _) as [r1|e]; [|eauto].
    unfold setEnd. rewrite Hn.
    replace (nodeLength n <? endOffset position) with true
      by (symmetry; now apply Nat.ltb_lt).
    eauto.
Qed.

(** X11: when an offset of the anchor is past the end of its node, as after
    the text was shortened, [setStart] or [setEnd] throws and the [catch]
    block puts the caret at the end of the editor; the document is not
    touched. *)
Theorem stale_offset_moves_caret_to_end (position : CursorPosition)
  (editor : NodeRef) (pg : Page) (n : Node) :
  staleOffset pg position ->
  resolve pg editor = Some n ->
  tree editor = 0 ->
  restoreCursorPosition (Some position) (Some editor) pg
  = Ok {| trees := trees pg; selection := caretAtEnd editor pg |}.
Proof.
  intros Hstale Hn H0.
  destruct (stale_throws pg position Hstale) as [e He].
  unfold restoreCursorPosition. rewrite He.
  unfold caretToEnd, selectNodeContents, bind, caretAtEnd. rewrite Hn.
  unfold addRange, removeAllRanges, collapse.
  cbn [rangeEnd rangeStart container tree selection trees].
  rewrite H0. reflexivity.
Qed.

End CursorRoundTrip.

Section CoordinatorMore.
Import ExportPipeline Dom Cursor Widget Markup Coordinator.

Lemma tracks_on_traces tr : forall w,
  imeActive w = isComposing w ->
  imeActive (run w tr) = isComposing (run w tr).
Proof.
  induction tr as [|ev tr IH]; intros w H; [exact H|].
  apply (IH (step w ev)). now apply isComposing_tracks_composition.
Qed.

(** X12: the state cell [isComposing] follows the composition events along
    every trace, so on the [input] path the guard holds: while a
    composition is in progress an [input] event does not replace the
    snapshot. *)
Theorem input_guard_holds_on_traces (w : World) (tr : list Event)
  (pg : Page) (moved : NodeRef -> NodeRef) :
  imeActive w = isComposing w ->
  let w' := run w tr in
  imeActive w' = isComposing w'
  /\ (imeActive w' = true -> content (step w' (Input pg moved)) = content w').
Proof.
  intros H w'. pose proof (tracks_on_traces tr w H) as Ht. fold w' in Ht.
  split; [exact Ht|]. intros Hime.
  apply input_during_composition. now rewrite <- Ht.
Qed.

Lemma nth_error_last {A} (l : list A) x : nth_error (l ++ [x]) (List.length l) = Some x.
Proof. induction l; simpl; auto. Qed.

Lemma removeNth_last {A} (l : list A) x : removeNth (List.length l) (l ++ [x]) = l.
Proof. induction l; simpl; [reflexivity|]. now f_equal. Qed.

(** X13: the end of a composition replaces nothing at once and schedules
    one task; when that task runs the snapshot becomes the markup of the
    editor stamped with the time, the page is untouched, and the timers are
    as before the composition ended. *)
Theorem composition_end_updates_snapshot (w : World) (editor : NodeRef) :
  editorRef w = Some editor ->
  let w1 := step w CompositionEnd in
  let w2 := step w1 (TimerFires (List.length (timers w))) in
  content w1 = content w
  /\ timers w1 = timers w ++ [(now w, UpdateAfterComposition)]
  /\ content w2 = {| htmlContent := innerHTML (page w) editor;
                     timestamp := now w |}
  /\ timers w2 = timers w
  /\ page w2 = page w.
Proof.
  intros He w1 w2.
  assert (Ht : timers w1 = timers w ++ [(now w, UpdateAfterComposition)]).
  { cbn. now rewrite Z.add_0_r. }
  split; [reflexivity|]. split; [exact Ht|].
  unfold w2. cbn [step]. rewrite Ht, nth_error_last.
  replace (now w <=? now w1)%Z with true by (symmetry; apply Z.leb_le; cbn; lia).
  rewrite removeNth_last. cbn [runTask]. cbn [editorRef withTimers w1 step].
  unfold handleCompositionEnd, setTimeout, setIsComposing, withIme.
  cbn [editorRef withTimers]. rewrite He.
  cbn. auto.
Qed.

(** X14: whatever happens, the snapshot is left as it is or becomes the
    markup of the editor at that moment, stamped with the time: no handler
    stores anything else. *)
Theorem snapshot_is_markup_of_editor (w : World) (ev : Event) :
  content (step w ev) = content w
  \/ exists editor,
       editorRef w = Some editor
       /\ content (step w ev)
          = {| htmlContent := innerHTML (page (step w ev)) editor;
               timestamp := now w |}.
Proof.
  assert (Hc : forall b w0,
             content (handleContentChange b w0) = content w0
             \/ exists editor,
                  editorRef w0 = Some editor
                  /\ content (handleContentChange b w0)
                     = {| htmlContent :=
                            innerHTML (page (handleContentChange b w0)) editor;
                          timestamp := now w0 |}).
  { intros b w0. unfold handleContentChange.
    destruct (editorRef w0) as [editor|] eqn:E; [|now left].
    destruct (negb b); [|now left]. right. exists editor. split; reflexivity. }
  destruct ev as [pg moved| | |items|i rnd lt m|i| |ms]; cbn [step].
  - apply (Hc (isComposing w)
             (withTimers (map (fun t => (fst t, renameTask moved (snd t))) (timers w))
                (withPage pg w))).
  - now left.
  - now left.
  - left. apply handlePaste_keeps.
  - destruct (nth_error (reads w) i) as [[captured base64]|]; [|now left].
    unfold readerOnLoad.
    destruct (insertImage _ _ _) as [pg [[|]|e]]; try now left.
    apply (Hc captured
             (setTimeout FocusEditor 10
                (withPage pg (withReads (removeNth i (reads w)) w)))).
  - destruct (nth_error (timers w) i) as [[due task]|]; [|now left].
    destruct (due <=? now w)%Z; [|now left].
    destruct task as [position| | |]; cbn [runTask].
    + destruct (restoreCursorPosition _ _ _); now left.
    + cbn [editorRef withTimers].
      destruct (editorRef w) as [editor|] eqn:E; [|now left].
      right. exists editor. split; reflexivity.
    + now left.
    + cbn [editorRef withTimers]. destruct (editorRef w); now left.
  - now left.
  - now left.
Qed.

Lemma handlePaste_reads items : forall w editor,
  editorRef w = Some editor ->
  handlePaste items w
  = withReads (reads w ++ map (pair (isComposing w)) (imageFiles items)) w.
Proof.
  unfold handlePaste.
  induction items as [|item items IH]; intros w editor He.
  - cbn. rewrite app_nil_r. now destruct w.
  - cbn [fold_left imageFiles flat_map].
    fold (imageFiles items).
    destruct (startsWith (itemType item) (lit "image/")); [|now apply (IH w editor)].
    destruct (getAsFile item) as [base64|]; [|now apply (IH w editor)].
    rewrite He.
    rewrite (IH (withReads (reads w ++ [(isComposing w, base64)]) w) editor He).
    cbn [reads withReads isComposing map app]. now rewrite <- app_assoc.
Qed.

Lemma handlePaste_unmounted items : forall w,
  editorRef w = None -> handlePaste items w = w.
Proof.
  unfold handlePaste.
  induction items as [|item items IH]; intros w He; [reflexivity|].
  cbn [fold_left]. rewrite He.
  destruct (startsWith _ _); [destruct (getAsFile item)|]; now apply IH.
Qed.

(** X15: a paste starts one read for every clipboard item that is an image
    file, in the order of the items, each holding the [isComposing] of the
    render, and changes nothing else; a paste with no image file, or with
    no editor mounted, changes nothing. *)
Theorem paste_starts_one_read_per_image (items : list ClipboardItem) (w : World) :
  (editorRef w = None \/ imageFiles items = [] -> handlePaste items w = w)
  /\ (forall editor, editorRef w = Some editor ->
      handlePaste items w
      = withReads (reads w ++ map (pair (isComposing w)) (imageFiles items)) w).
Proof.
  split.
  - intros [He|Hi].
    + now apply handlePaste_unmounted.
    + destruct (editorRef w) as [editor|] eqn:He;
        [|now apply handlePaste_unmounted].
      rewrite (handlePaste_reads items w editor He), Hi. cbn.
      rewrite app_nil_r. now destruct w.
  - apply handlePaste_reads.
Qed.

(** X16: when the file has been read and the selection is empty or outside
    the editor, the image is dropped: the read is gone and the document, the
    snapshot, the notification and the timers are as before. *)
Theorem image_is_dropped_without_caret (w : World) (i : nat) (captured : bool)
  (base64 random localeTime : jsstring) (m : ImgMetrics) :
  nth_error (reads w) i = Some (captured, base64) ->
  match selection (page w), editorRef w with
  | Some range, Some editor =>
      contains editor (commonAncestorContainer range) = false
  | _, _ => True
  end ->
  step w (ReaderLoads i random localeTime m)
  = withReads (removeNth i (reads w)) w.
Proof.
  intros Hread Hsel. cbn [step]. rewrite Hread.
  unfold readerOnLoad, insertImage. cbn [page editorRef withReads].
  destruct (selection (page w)) as [range|]; [|reflexivity].
  destruct (editorRef w) as [editor|]; [|reflexivity].
  rewrite Hsel. reflexivity.
Qed.

End CoordinatorMore.

Section CursorNeverEdits.
Import ExportPipeline Dom Cursor.

(** X17: restoring the cursor never changes the document: when it returns,
    the trees of the page are those it was given, whatever the anchor. *)
Theorem restore_leaves_the_document (position : option CursorPosition)
  (editorRef : option NodeRef) (pg : Page) :
  match restoreCursorPosition position editorRef pg with
  | Ok pg' => trees pg' = trees pg
  | Throw _ => True
  end.
Proof.
  unfold restoreCursorPosition.
  destruct position as [position|]; [|reflexivity].
  destruct editorRef as [editor|]; [|reflexivity].
  destruct (tryRestore position pg) as [pg'|e] eqn:E.
  - exact (tryRestore_keeps_trees position pg pg' E).
  - unfold caretToEnd, selectNodeContents, bind.
    destruct (resolve pg editor); [|exact I].
    unfold addRange, removeAllRanges. cbn [selection trees].
    now destruct (negb _).
Qed.

End CursorNeverEdits.

Section Notifications.
Import ExportPipeline Dom Coordinator.
Open Scope Z_scope.

(** X18: the timer that hides a notification is not tied to it: when a
    second notification is shown [d] milliseconds after a first, the timer
    of the first hides the second after [3000 - d] milliseconds, and the
    timer of the second is still to come. *)
Theorem earlier_timer_hides_later_notification (w : World)
  (msg1 msg2 : jsstring) (ty1 ty2 : NotificationType) (d : N) :
  (d <= 3000)%N ->
  let w1 := showNotification msg1 ty1 w in
  let w2 := showNotification msg2 ty2 (step w1 (Elapse d)) in
  let w3 := step (step w2 (Elapse (3000 - d)))
              (TimerFires (List.length (timers w))) in
  notification w2 = {| message := msg2; type := ty2; visible := true |}
  /\ now w3 = now w + 3000
  /\ notification w3 = {| message := msg2; type := ty2; visible := false |}
  /\ timers w3 = timers w ++ [(now w + Z.of_N d + 3000, HideNotification)].
Proof.
  intros Hd w1 w2 w3.
  assert (Hn : now (step w2 (Elapse (3000 - d))) = now w + 3000).
  { change (now (step w2 (Elapse (3000 - d))))
      with (now w + Z.of_N d + Z.of_N (3000 - d)).
    rewrite N2Z.inj_sub by exact Hd. lia. }
  assert (Ht : timers (step w2 (Elapse (3000 - d)))
               = (timers w ++ [(now w + 3000, HideNotification)])
                 ++ [(now w + Z.of_N d + 3000, HideNotification)]).
  { reflexivity. }
  split; [reflexivity|].
  unfold w3. set (w2e := step w2 (Elapse (3000 - d))) in *.
  cbn [step]. rewrite Ht, Hn.
  rewrite <- app_assoc. cbn [app].
  rewrite nth_error_app2, Nat.sub_diag by apply Nat.le_refl. cbn [nth_error].
  rewrite Z.leb_refl.
  assert (Hrm : removeNth (List.length (timers w))
                  (timers w ++ [(now w + 3000, HideNotification);
                                (now w + Z.of_N d + 3000, HideNotification)])
                = timers w ++ [(now w + Z.of_N d + 3000, HideNotification)]).
  { clear. induction (timers w) as [|t ts IH]; [reflexivity|].
    cbn [List.length app removeNth]. now rewrite IH. }
  rewrite Hrm. cbn [runTask].
  split; [exact Hn|]. split; reflexivity.
Qed.

End Notifications.

Section ToolbarFacts.
Import ExportPipeline Dom Cursor Widget Markup Coordinator Toolbar.

Lemma withoutButtons_loop kids :
  (fix each (l : list Node) : list Node :=
     match l with
     | [] => []
     | k :: l' =>
         if isDeleteButton k then each l' else withoutButtons k :: each l'
     end) kids = removeButtons kids.
Proof. induction kids as [|k kids IH]; simpl; [reflexivity|]. now rewrite IH. Qed.

Lemma buttonFree_loop kids :
  (fix all (l : list Node) : bool :=
     match l with
     | [] => true
     | k :: l' => buttonFree k && all l'
     end) kids = forallb buttonFree kids.
Proof. induction kids as [|k kids IH]; simpl; [reflexivity|]. now rewrite IH. Qed.

Lemma isDeleteButton_withoutButtons n :
  isDeleteButton (withoutButtons n) = isDeleteButton n.
Proof. now destruct n. Qed.

Lemma buttonFree_withoutButtons n :
  isDeleteButton n = false -> buttonFree (withoutButtons n) = true.
Proof.
  induction n as [d|d|tag attrs m kids IH] using Node_induction; intros Hn.
  - reflexivity.
  - reflexivity.
  - cbn [withoutButtons buttonFree]. rewrite withoutButtons_loop, buttonFree_loop.
    cbn [isDeleteButton] in *. rewrite Hn. cbn [negb andb].
    induction IH as [|k kids Hk _ IHkids]; [reflexivity|].
    cbn [removeButtons]. destruct (isDeleteButton k) eqn:E; [exact IHkids|].
    cbn [forallb]. now rewrite (Hk eq_refl), IHkids.
Qed.

Lemma buttonFree_removeButtons l : forallb buttonFree (removeButtons l) = true.
Proof.
  induction l as [|k l IH]; [reflexivity|]. cbn [removeButtons].
  destruct (isDeleteButton k) eqn:E; [exact IH|].
  cbn [forallb]. now rewrite (buttonFree_withoutButtons k E), IH.
Qed.

Lemma withoutButtons_fixed n : buttonFree n = true -> withoutButtons n = n.
Proof.
  induction n as [d|d|tag attrs m kids IH] using Node_induction; intros Hn.
  - reflexivity.
  - reflexivity.
  - cbn [withoutButtons buttonFree] in *.
    rewrite withoutButtons_loop. rewrite buttonFree_loop in Hn.
    apply andb_true_iff in Hn as [_ Hkids]. f_equal.
    induction IH as [|k kids Hk _ IHkids]; [reflexivity|].
    cbn [forallb] in Hkids. apply andb_true_iff in Hkids as [Hk1 Hk2].
    cbn [removeButtons].
    assert (E : isDeleteButton k = false).
    { destruct k; cbn [buttonFree] in Hk1; try reflexivity.
      apply andb_true_iff in Hk1 as [Hk1 _]. now apply negb_true_iff in Hk1. }
    rewrite E, (Hk Hk1), (IHkids Hk2). reflexivity.
Qed.

Lemma removeButtons_fixed l :
  forallb buttonFree l = true -> removeButtons l = l.
Proof.
  induction l as [|k l IH]; [reflexivity|]. cbn [forallb removeButtons].
  intros H. apply andb_true_iff in H as [Hk Hl].
  assert (E : isDeleteButton k = false).
  { destruct k; cbn [buttonFree] in Hk; try reflexivity.
    apply andb_true_iff in Hk as [Hk _]. now apply negb_true_iff in Hk. }
  now rewrite E, (withoutButtons_fixed k Hk), (IH Hl).
Qed.

(** X19: what [handleCopyAll] puts on the clipboard holds no delete button:
    after the removal no element of the copy, at any depth, has the class
    [inline-image-delete] or [image-delete-btn]; a tree without such
    elements is copied as it is; the widget of a pasted image is copied as
    its wrapper with the image alone; and the markup of every call that the
    handler makes on the clipboard is the serialization of such a tree. *)
Theorem copy_holds_no_delete_button :
  (forall l : list Node, forallb buttonFree (removeButtons l) = true)
  /\ (forall l : list Node, forallb buttonFree l = true -> removeButtons l = l)
  /\ (forall (imageId base64 alt : jsstring) (m : ImgMetrics),
        removeButtons [imgWrapper imageId base64 alt m]
        = [copiedWidget imageId base64 alt m])
  /\ (forall (parseHTML : jsstring -> list Node)
         (innerText : Page -> NodeRef -> jsstring)
         (clipboard clipboardItem : bool) (w : World) (call : ClipboardCall),
        copyAttempt parseHTML innerText clipboard clipboardItem w = Awaits call ->
        exists nodes,
          forallb buttonFree nodes = true
          /\ markupOf call = serializeChildren (lit "div") nodes).
Proof.
  split; [exact buttonFree_removeButtons|].
  split; [exact removeButtons_fixed|].
  split; [reflexivity|].
  intros parseHTML innerText clipboard clipboardItem w call.
  unfold copyAttempt. destruct (editorRef w) as [editor|]; [|discriminate].
  exists (removeButtons (parseHTML (innerHTML (page w) editor))).
  split; [apply buttonFree_removeButtons|].
  destruct (clipboard && clipboardItem).
  - injection H as <-. reflexivity.
  - destruct clipboard; [|discriminate]. injection H as <-. reflexivity.
Qed.

(** X20: when the write on the clipboard fails, the [catch] block selects
    the content of the editor, runs [execCommand("copy")] on it and empties
    the selection: the document and the snapshot are untouched, success is
    reported, and the selection the user had is gone. *)
Theorem copy_fallback_drops_the_selection (w : World) (editor : NodeRef) (n : Node) :
  editorRef w = Some editor ->
  resolve (page w) editor = Some n ->
  tree editor = 0 ->
  let w' := fst (copyFallback w) in
  snd (copyFallback w)
  = Some (Some {| rangeStart := {| container := editor; offset := 0 |};
                  rangeEnd := {| container := editor; offset := nodeLength n |} |})
  /\ selection (page w') = None
  /\ trees (page w') = trees (page w)
  /\ content w' = content w
  /\ notification w' = {| message := copied; type := success; visible := true |}.
Proof.
  intros He Hn H0. unfold copyFallback. rewrite He.
  unfold selectNodeContents. rewrite Hn.
  unfold addRange, removeAllRanges.
  cbn [rangeStart container tree selection trees]. rewrite H0.
  cbn. auto.
Qed.

Lemma resolve_replaceAll editor new pg tag attrs m kids :
  resolve pg editor = Some (ElementNode tag attrs m kids) ->
  resolve (fst (replaceAll editor new pg)) editor
  = Some (ElementNode tag attrs m new).
Proof.
  unfold resolve, replaceAll.
  destruct (nth_error (trees pg) (tree editor)) as [root|] eqn:Er; [|discriminate].
  intros Hl. rewrite Hl.
  destruct (updateChildren_defined (fun _ => new) _ _ _ _ _ _ Hl) as (root' & Hu & Hl').
  rewrite Hu. cbn [fst trees].
  rewrite nth_error_app1.
  - now rewrite (nth_error_setTree pg _ root' root Er).
  - apply nth_error_Some. now rewrite (nth_error_setTree pg _ root' root Er).
Qed.

(** X21: after [handleClear] the editor has no child, the snapshot is the
    empty string stamped with the time and agrees with the markup of the
    editor, the dialog is closed, the notification is shown, the export is
    the placeholder document, and the autosave that fires a second later
    stores the empty draft. *)
Theorem clear_empties_editor_and_snapshot (w : World) (editor : NodeRef)
  tag attrs m kids :
  editorRef w = Some editor ->
  resolve (page w) editor = Some (ElementNode tag attrs m kids) ->
  let w' := handleClear w in
  resolve (page w') editor = Some (ElementNode tag attrs m [])
  /\ content w' = {| htmlContent := []; timestamp := now w |}
  /\ innerHTML (page w') editor = htmlContent (content w')
  /\ showClearConfirm w' = false
  /\ notification w'
     = {| message := documentCleared; type := success; visible := true |}
  /\ (forall parseHTML, handleExportWord parseHTML w' = blankDocument)
  /\ Autosave.storage (autosave (run w' [Elapse 1000; AutosaveFires]))
     = Some (JSON_stringify {| htmlContent := []; timestamp := now w |}).
Proof.
  intros He Hn w'.
  assert (Hp : page w' = fst (replaceAll editor [] (page w))).
  { unfold w', handleClear. cbn [editorRef setContent]. rewrite He.
    cbn [page setContent].
    destruct (replaceAll editor [] (page w)) as [pg moved]. reflexivity. }
  assert (Hc : content w' = {| htmlContent := []; timestamp := now w |}).
  { unfold w', handleClear. cbn [editorRef setContent]. rewrite He.
    cbn [page setContent].
    destruct (replaceAll editor [] (page w)) as [pg moved]. reflexivity. }
  assert (Hr : resolve (page w') editor = Some (ElementNode tag attrs m [])).
  { rewrite Hp. exact (resolve_replaceAll editor [] (page w) tag attrs m kids Hn). }
  split; [exact Hr|]. split; [exact Hc|].
  split.
  { unfold innerHTML. rewrite Hr, Hc. cbn [htmlContent serializeChildren].
    now destruct (isVoid _). }
  split.
  { unfold w', handleClear. cbn [editorRef setContent]. rewrite He.
    destruct (replaceAll editor [] _) as [pg moved]. reflexivity. }
  split.
  { unfold w', handleClear. cbn [editorRef setContent]. rewrite He.
    destruct (replaceAll editor [] _) as [pg moved]. reflexivity. }
  split.
  { intros parseHTML. unfold handleExportWord, collect. rewrite Hc.
    cbn [htmlContent truthy]. now destruct (editorRef w'). }
  unfold w', handleClear. cbn [editorRef setContent]. rewrite He.
  destruct (replaceAll editor [] _) as [pg moved].
  cbn. unfold Autosave.fire. cbn.
  replace (now w + 1000 <=? now w + 1000)%Z with true
    by (symmetry; apply Z.leb_refl).
  reflexivity.
Qed.

End ToolbarFacts.

Section DeleteClick.
Import ExportPipeline Dom Cursor Widget Markup Coordinator DeleteButton.

Lemma parentAndIndex_snoc (pp : path) (k : nat) :
  parentAndIndex (pp ++ [k]) = Some (pp, k).
Proof.
  unfold parentAndIndex. rewrite rev_app_distr. simpl.
  now rewrite rev_involutive.
Qed.

Lemma length_setTree pg t r y :
  nth_error (trees pg) t = Some y ->
  List.length (trees (setTree pg t r)) = List.length (trees pg).
Proof.
  intros H. unfold setTree. cbn [trees].
  assert (Ht : t < List.length (trees pg)) by (apply nth_error_Some; congruence).
  rewrite length_app, length_firstn. cbn [List.length]. rewrite length_skipn. lia.
Qed.

Lemma nth_error_removeNth_before {A} (l : list A) : forall k j,
  j < k -> nth_error (removeNth k l) j = nth_error l j.
Proof.
  induction l as [|x l IH]; intros [|k] [|j] H; simpl; try lia; auto.
  apply IH. lia.
Qed.

Lemma nth_error_removeNth_after {A} (l : list A) : forall k j,
  k <= j -> nth_error (removeNth k l) j = nth_error l (S j).
Proof.
  induction l as [|x l IH]; intros [|k] [|j] H; simpl; try lia; auto.
  apply IH. lia.
Qed.

(** The removal of child [k] of an element. *)
Lemma remove_child pg parent tg a m kids k x :
  resolve pg parent = Some (ElementNode tg a m kids) ->
  nth_error kids k = Some x ->
  exists root root',
    nth_error (trees pg) (tree parent) = Some root
    /\ lookup root' (at_path parent) = Some (ElementNode tg a m (removeNth k kids))
    /\ remove {| tree := tree parent; at_path := at_path parent ++ [k] |} pg
       = ({| trees := trees (setTree pg (tree parent) root') ++ [x];
             selection :=
               option_map
                 (fun r =>
                    {| rangeStart := shiftRemove (tree parent) (at_path parent) k
                                       (List.length (trees pg)) (rangeStart r);
                       rangeEnd := shiftRemove (tree parent) (at_path parent) k
                                     (List.length (trees pg)) (rangeEnd r) |})
                 (selection pg) |},
          afterRemove (tree parent) (at_path parent) k (List.length (trees pg))).
Proof.
  intros Hres Hk. unfold resolve in Hres.
  destruct (nth_error (trees pg) (tree parent)) as [root|] eqn:Ht; [|discriminate].
  destruct (updateChildren_defined (removeNth k) _ _ _ _ _ _ Hres)
    as (root' & Hu & Hl').
  exists root, root'. split; [reflexivity|]. split; [exact Hl'|].
  unfold remove. cbn [tree at_path]. rewrite parentAndIndex_snoc, Ht.
  rewrite (lookup_child _ _ _ _ _ _ _ _ Hres Hk), Hu. reflexivity.
Qed.

Lemma resolve_removed pg parent tg a m kids k x :
  resolve pg parent = Some (ElementNode tg a m kids) ->
  nth_error kids k = Some x ->
  let pg' := fst (remove {| tree := tree parent;
                            at_path := at_path parent ++ [k] |} pg) in
  resolve pg' parent = Some (ElementNode tg a m (removeNth k kids))
  /\ resolve pg' {| tree := List.length (trees pg); at_path := [] |} = Some x.
Proof.
  intros Hres Hk.
  destruct (remove_child pg parent tg a m kids k x Hres Hk)
    as (root & root' & Ht & Hl' & Hrm).
  cbv zeta. rewrite Hrm. cbn [fst]. unfold resolve. cbn [trees tree at_path].
  pose proof (length_setTree pg (tree parent) root' root Ht) as Hlen.
  assert (Hlt : tree parent < List.length (trees pg))
    by (apply nth_error_Some; congruence).
  split.
  - rewrite nth_error_app1 by lia.
    rewrite (nth_error_setTree pg _ root' root Ht). exact Hl'.
  - rewrite <- Hlen. rewrite nth_error_app2 by lia. rewrite Nat.sub_diag.
    reflexivity.
Qed.

Lemma isPrefix_length p : forall q, isPrefix p q = true -> List.length p <= List.length q.
Proof.
  induction p as [|i p IH]; intros [|j q] H; simpl in *; try lia; try discriminate.
  apply andb_true_iff in H. destruct H as [_ H]. apply IH in H. lia.
Qed.

Lemma isPrefix_antisym p : forall q,
  isPrefix p q = true -> isPrefix q p = true -> p = q.
Proof.
  induction p as [|i p IH]; intros [|j q] H1 H2; simpl in *;
    try discriminate; auto.
  apply andb_true_iff in H1. destruct H1 as [E H1].
  apply andb_true_iff in H2. destruct H2 as [_ H2].
  apply Nat.eqb_eq in E. subst. f_equal. now apply IH.
Qed.

(** A node that holds the parent of the removed node stays where it is. *)
Lemma afterRemove_ancestor t pp k base (r : NodeRef) :
  contains r {| tree := t; at_path := pp |} = true ->
  afterRemove t pp k base r = r.
Proof.
  unfold contains, afterRemove. cbn [tree at_path]. intros H.
  apply andb_true_iff in H. destruct H as [Ht Hp].
  rewrite Ht. cbn [negb].
  destruct (isPrefix pp (at_path r)) eqn:E; [|reflexivity].
  rewrite (isPrefix_antisym _ _ E Hp), skipn_all. reflexivity.
Qed.

Lemma page_handleContentChange c w : page (handleContentChange c w) = page w.
Proof.
  unfold handleContentChange. destruct (editorRef w); [|reflexivity].
  destruct c; reflexivity.
Qed.

Lemma editorRef_handleContentChange c w :
  editorRef (handleContentChange c w) = editorRef w.
Proof.
  unfold handleContentChange. destruct (editorRef w) eqn:E; [|exact E].
  destruct c; cbn; exact E.
Qed.

Lemma page_onclick c wrapper w :
  page (onclick c wrapper w) = fst (remove wrapper (page w)).
Proof.
  unfold onclick. destruct (remove wrapper (page w)) as [pg moved].
  now rewrite page_handleContentChange.
Qed.

(** X24: a click on the delete button of a widget that is child [k] of an
    element in the editor takes the widget out of that element, the other
    children staying in their order, and keeps it as a tree of its own.
    The snapshot becomes the markup of the editor without the widget when
    the closure was made by a render with [isComposing] false; when it was
    made by a render with [isComposing] true, the snapshot stays as it
    was, with the widget still in it. *)
Theorem delete_click_removes_widget (captured : bool) (editor parent : NodeRef)
  (k : nat) (w : World) (tag : jsstring) (attrs : list (jsstring * jsstring))
  (m : ImgMetrics) (kids : list Node) (x : Node) :
  editorRef w = Some editor ->
  contains editor parent = true ->
  resolve (page w) parent = Some (ElementNode tag attrs m kids) ->
  nth_error kids k = Some x ->
  let w' := onclick captured {| tree := tree parent;
                                at_path := at_path parent ++ [k] |} w in
  editorRef w' = Some editor
  /\ resolve (page w') parent = Some (ElementNode tag attrs m (removeNth k kids))
  /\ resolve (page w') {| tree := List.length (trees (page w)); at_path := [] |}
     = Some x
  /\ content w'
     = (if captured then content w
        else {| htmlContent := innerHTML (page w') editor;
                timestamp := now w |}).
Proof.
  intros He Hin Hres Hk w'.
  destruct (resolve_removed (page w) parent tag attrs m kids k x Hres Hk)
    as [Hp Hx].
  assert (Hpage : page w' = fst (remove {| tree := tree parent;
                                           at_path := at_path parent ++ [k] |}
                                   (page w)))
    by apply page_onclick.
  destruct (remove_child (page w) parent tag attrs m kids k x Hres Hk)
    as (root & root' & Ht & Hl' & Hrm).
  assert (Hmoved : afterRemove (tree parent) (at_path parent) k
                     (List.length (trees (page w))) editor = editor).
  { apply afterRemove_ancestor. destruct parent; exact Hin. }
  split; [|split; [|split]].
  - subst w'. unfold onclick. rewrite Hrm, editorRef_handleContentChange.
    cbn [editorRef]. rewrite He. cbn [option_map]. now rewrite Hmoved.
  - rewrite Hpage. exact Hp.
  - rewrite Hpage. exact Hx.
  - rewrite Hpage. subst w'. unfold onclick. rewrite Hrm. cbn [fst].
    unfold handleContentChange. cbn [editorRef page now content].
    rewrite He. cbn [option_map]. rewrite Hmoved.
    destruct captured; reflexivity.
Qed.

Lemma resolve_child pg parent tg a m kids j x :
  resolve pg parent = Some (ElementNode tg a m kids) ->
  nth_error kids j = Some x ->
  resolve pg {| tree := tree parent; at_path := at_path parent ++ [j] |} = Some x.
Proof.
  unfold resolve. cbn [tree at_path].
  destruct (nth_error (trees pg) (tree parent)) as [root|]; [|discriminate].
  intros Hl Hj. exact (lookup_child _ _ _ _ _ _ _ _ Hl Hj).
Qed.

Lemma page_readerOnLoad c base64 random localeTime m w :
  page (readerOnLoad c base64 random localeTime m w)
  = fst (insertImage (editorRef w)
           (imgWrapper (Json.numberToString (now w) ++ random) base64
              (pastedImage_ ++ localeTime) m) (page w)).
Proof.
  unfold readerOnLoad.
  destruct (insertImage _ _ (page w)) as [pg [[|]|e]]; try reflexivity.
  unfold showNotification, setTimeout, withTimers, setNotification.
  cbn [page fst]. now rewrite page_handleContentChange.
Qed.

(** X25: the delete button does not undo the paste.  After an image was
    pasted at a point of the editor and the button of its widget was
    clicked, the two text nodes that the paste put after the widget, the
    zero width space and the space, are where the widget was, and the
    caret is right after them. *)
Theorem delete_after_paste_leaves_sentinels (c1 c2 : bool)
  (base64 random localeTime : jsstring) (m : ImgMetrics) (w : World)
  (editor : NodeRef) (range : Range) (root : Node) (p : path) (o : nat) :
  editorRef w = Some editor ->
  selection (page w) = Some range ->
  contains editor (commonAncestorContainer range) = true ->
  rangeStart (snd (deleteContents (page w) range)) = point 0 p o ->
  nth_error (trees (fst (deleteContents (page w) range))) 0 = Some root ->
  insertionPoint root p o ->
  exists parent i,
    3 <= i
    /\ let w1 := readerOnLoad c1 base64 random localeTime m w in
       let wrapper := {| tree := 0; at_path := parent ++ [i - 3] |} in
       let w2 := onclick c2 wrapper w1 in
       resolve (page w1) wrapper
       = Some (imgWrapper (Json.numberToString (now w) ++ random) base64
                 (pastedImage_ ++ localeTime) m)
       /\ resolve (page w2) wrapper = Some (TextNode [ZWSP])
       /\ resolve (page w2) {| tree := 0; at_path := parent ++ [i - 2] |}
          = Some (TextNode [SPACE])
       /\ selection (page w2) = Some (caret 0 parent (i - 1)).
Proof.
  intros He Hsel Hin Hs Ht Hip.
  set (widget := imgWrapper (Json.numberToString (now w) ++ random) base64
                   (pastedImage_ ++ localeTime) m).
  destruct (insertImage_spec editor widget (page w) range root p o
              Hsel Hin Hs Ht Hip)
    as (root' & parent & i & _ & Hrun & Hi & Hw & Hz & Hsp).
  exists parent, i. split; [exact Hi|]. cbv zeta.
  rewrite page_onclick, page_readerOnLoad. fold widget. rewrite He, Hrun.
  cbn [fst].
  set (pg1 := {| trees := trees (setTree (fst (deleteContents (page w) range)) 0 root');
                 selection := Some (caret 0 parent i) |}).
  destruct (lookup_snoc _ _ _ _ Hw) as (tg & a & mm & kids & Hl & Hkw).
  destruct (lookup_snoc _ _ _ _ Hz) as (tg1 & a1 & mm1 & kids1 & Hl1 & Hkz).
  destruct (lookup_snoc _ _ _ _ Hsp) as (tg2 & a2 & mm2 & kids2 & Hl2 & Hks).
  rewrite Hl in Hl1, Hl2.
  injection Hl1 as <- <- <- <-. injection Hl2 as <- <- <- <-.
  assert (Hres : resolve pg1 {| tree := 0; at_path := parent |}
                 = Some (ElementNode tg a mm kids)).
  { unfold resolve, pg1. cbn [trees tree at_path].
    rewrite (nth_error_setTree _ 0 root' root Ht). exact Hl. }
  split; [exact (resolve_child pg1 _ _ _ _ _ _ _ Hres Hkw)|].
  destruct (resolve_removed pg1 _ tg a mm kids (i - 3) widget Hres Hkw)
    as [Hp _].
  cbn [tree at_path] in Hp.
  split; [|split].
  - apply (resolve_child _ {| tree := 0; at_path := parent |} _ _ _ _ _ _ Hp).
    rewrite nth_error_removeNth_after by lia.
    replace (S (i - 3)) with (i - 2) by lia. exact Hkz.
  - apply (resolve_child _ {| tree := 0; at_path := parent |} _ _ _ _ _ _ Hp).
    rewrite nth_error_removeNth_after by lia.
    replace (S (i - 2)) with (i - 1) by lia. exact Hks.
  - destruct (remove_child pg1 {| tree := 0; at_path := parent |}
                tg a mm kids (i - 3) widget Hres Hkw)
      as (r0 & r1 & _ & _ & Hrm).
    cbn [tree at_path] in Hrm. rewrite Hrm. cbn [fst selection pg1 option_map].
    unfold caret, point, shiftRemove.
    cbn [rangeStart rangeEnd container offset tree at_path negb Nat.eqb].
    rewrite pathEqb_refl.
    replace (i - 3 <? i) with true by (symmetry; apply Nat.ltb_lt; lia).
    replace (Nat.pred i) with (i - 1) by lia. reflexivity.
Qed.

End DeleteClick.

Section JsonFuel.
Import Json JsonText.

Lemma skipWhitespace_length s : List.length (skipWhitespace s) <= List.length s.
Proof.
  induction s as [|c s IH]; cbn [skipWhitespace List.length]; [lia|].
  destruct (isWhitespace c); cbn [List.length]; lia.
Qed.

Lemma characters_length : forall s t r,
  characters s = Some (t, r) -> List.length r < List.length s.
Proof.
  fix IH 1. intros [|c s] t r; cbn [characters]; [discriminate|].
  destruct (N.eqb c QUOTE); [intros [= _ <-]; cbn [List.length]; lia|].
  destruct (N.eqb c BACKSLASH).
  - destruct s as [|e s']; [discriminate|].
    destruct (N.eqb e 117).
    + destruct s' as [|h1 [|h2 [|h3 [|h4 s'']]]]; try discriminate.
      destruct (hexValue h1), (hexValue h2), (hexValue h3), (hexValue h4);
        try discriminate.
      destruct (characters s'') as [[t' r']|] eqn:E; [|discriminate].
      intros [= _ <-]. apply IH in E. cbn [List.length]. lia.
    + destruct (simpleEscape e); [|discriminate].
      destruct (characters s') as [[t' r']|] eqn:E; [|discriminate].
      intros [= _ <-]. apply IH in E. cbn [List.length]. lia.
  - destruct (c <? 32)%N; [discriminate|].
    destruct (characters s) as [[t' r']|] eqn:E; [|discriminate].
    intros [= _ <-]. apply IH in E. cbn [List.length]. lia.
Qed.

Lemma digitRun_length s :
  List.length (fst (digitRun s)) + List.length (snd (digitRun s)) = List.length s.
Proof.
  induction s as [|c s IH]; cbn [digitRun]; [reflexivity|].
  destruct (isDigit c); [|reflexivity].
  destruct (digitRun s) as [ds rest]. cbn [fst snd List.length] in *. lia.
Qed.

Lemma integerPart_length s ip r :
  integerPart s = Some (ip, r) -> List.length r < List.length s.
Proof.
  unfold integerPart. destruct s as [|c s']; [discriminate|].
  destruct (N.eqb c 48); [intros [= _ <-]; cbn [List.length]; lia|].
  destruct (isDigit c) eqn:Ed; [|discriminate].
  intros H. injection H as H.
  pose proof (digitRun_length (c :: s')) as L.
  cbn [digitRun] in H, L. rewrite Ed in H, L.
  destruct (digitRun s') as [ds rest]. injection H as <- <-.
  cbn [fst snd List.length] in L. cbn [List.length]. lia.
Qed.

Lemma fractionPart_length s fp r :
  fractionPart s = Some (fp, r) -> List.length r <= List.length s.
Proof.
  unfold fractionPart. destruct s as [|c s']; [intros [= _ <-]; lia|].
  destruct (N.eqb c 46); [|intros [= _ <-]; lia].
  pose proof (digitRun_length s') as L.
  destruct (digitRun s') as [[|d ds] rest]; [discriminate|].
  intros [= _ <-]. cbn [fst snd List.length] in *. lia.
Qed.

Lemma exponentPart_length s e r :
  exponentPart s = Some (e, r) -> List.length r <= List.length s.
Proof.
  unfold exponentPart. destruct s as [|c s']; [intros [= _ <-]; lia|].
  destruct (N.eqb c 101 || N.eqb c 69); [|intros [= _ <-]; lia].
  assert (H : forall r1 : jsstring, List.length r1 <= List.length s' ->
            match digitRun r1 with
            | ([], _) => None
            | (d :: ds, rest) => Some (e, rest)
            end = Some (e, r) -> List.length r <= List.length (c :: s')).
  { intros r1 Hr1. pose proof (digitRun_length r1) as L.
    destruct (digitRun r1) as [[|d ds] rest]; [discriminate|].
    intros [= <-]. cbn [fst snd List.length] in *. lia. }
  destruct s' as [|x r1].
  - cbn [digitRun]. discriminate.
  - destruct (N.eqb x 45).
    + pose proof (digitRun_length r1) as L.
      destruct (digitRun r1) as [[|d ds] rest]; [discriminate|].
      intros [= _ <-]. cbn [fst snd List.length] in *. lia.
    + destruct (N.eqb x 43).
      * pose proof (digitRun_length r1) as L.
        destruct (digitRun r1) as [[|d ds] rest]; [discriminate|].
        intros [= _ <-]. cbn [fst snd List.length] in *. lia.
      * pose proof (digitRun_length (x :: r1)) as L.
        destruct (digitRun (x :: r1)) as [[|d ds] rest]; [discriminate|].
        intros [= _ <-]. cbn [fst snd List.length] in *. lia.
Qed.

Lemma number_length s v r :
  number s = Some (v, r) -> List.length r < List.length s.
Proof.
  unfold number.
  assert (H : forall s1 : jsstring, List.length s1 <= List.length s ->
            match integerPart s1 with
            | Some (ip, s2) =>
                match fractionPart s2 with
                | Some (fp, s3) =>
                    match exponentPart s3 with
                    | Some (e, s4) =>
                        Some (PNumber false (natural (ip ++ fp))
                                (e - Z.of_nat (List.length fp))%Z, s4)
                    | None => None
                    end
                | None => None
                end
            | None => None
            end = Some (v, r) \/
            match integerPart s1 with
            | Some (ip, s2) =>
                match fractionPart s2 with
                | Some (fp, s3) =>
                    match exponentPart s3 with
                    | Some (e, s4) =>
                        Some (PNumber true (natural (ip ++ fp))
                                (e - Z.of_nat (List.length fp))%Z, s4)
                    | None => None
                    end
                | None => None
                end
            | None => None
            end = Some (v, r) ->
            List.length r < List.length s).
  { intros s1 Hs1 Hm.
    destruct (integerPart s1) as [[ip s2]|] eqn:E1; [|destruct Hm; discriminate].
    destruct (fractionPart s2) as [[fp s3]|] eqn:E2; [|destruct Hm; discriminate].
    destruct (exponentPart s3) as [[e s4]|] eqn:E3; [|destruct Hm; discriminate].
    apply integerPart_length in E1. apply fractionPart_length in E2.
    apply exponentPart_length in E3.
    assert (r = s4) as -> by (destruct Hm as [Hm|Hm]; now injection Hm).
    lia. }
  destruct s as [|c s'].
  - intros Hm. apply (H [] (Nat.le_refl _)). now left.
  - destruct (N.eqb c 45).
    + intros Hm. apply (H s'); [cbn [List.length]; lia|now right].
    + intros Hm. apply (H (c :: s') (Nat.le_refl _)). now left.
Qed.

Section LoopsConsume.
Variable val : jsstring -> option (parsed * jsstring).
Hypothesis val_length : forall s v r,
  val s = Some (v, r) -> List.length r < List.length s.

Lemma elements_length : forall n s acc v r,
  elements val n s acc = Some (v, r) -> List.length r < List.length s.
Proof.
  induction n as [|n IH]; intros s acc v r; cbn [elements]; [discriminate|].
  destruct (val s) as [[v1 r1]|] eqn:E; [|discriminate].
  apply val_length in E. pose proof (skipWhitespace_length r1) as L.
  destruct (skipWhitespace r1) as [|x r2]; [discriminate|].
  cbn [List.length] in L.
  destruct (N.eqb x COMMA).
  - intros H. apply IH in H. lia.
  - destruct (N.eqb x 93); [|discriminate]. intros [= _ <-]. lia.
Qed.

Lemma members_length : forall n s acc v r,
  members val n s acc = Some (v, r) -> List.length r < List.length s.
Proof.
  induction n as [|n IH]; intros s acc v r; cbn [members]; [discriminate|].
  pose proof (skipWhitespace_length s) as L0.
  destruct (skipWhitespace s) as [|q r1]; [discriminate|].
  cbn [List.length] in L0.
  destruct (N.eqb q QUOTE); [|discriminate].
  destruct (characters r1) as [[k r2]|] eqn:Ek; [|discriminate].
  apply characters_length in Ek. pose proof (skipWhitespace_length r2) as L2.
  destruct (skipWhitespace r2) as [|colon r3]; [discriminate|].
  cbn [List.length] in L2.
  destruct (N.eqb colon 58); [|discriminate].
  destruct (val r3) as [[v1 r4]|] eqn:E; [|discriminate].
  apply val_length in E. pose proof (skipWhitespace_length r4) as L4.
  destruct (skipWhitespace r4) as [|x r5]; [discriminate|].
  cbn [List.length] in L4.
  destruct (N.eqb x COMMA).
  - intros H. apply IH in H. lia.
  - destruct (N.eqb x 125); [|discriminate]. intros [= _ <-]. lia.
Qed.

End LoopsConsume.

(** A value takes at least one character. *)
Lemma value_length : forall fuel s v r,
  value fuel s = Some (v, r) -> List.length r < List.length s.
Proof.
  induction fuel as [|fuel IH]; intros s v r; cbn [value]; [discriminate|].
  pose proof (skipWhitespace_length s) as L.
  destruct (skipWhitespace s) as [|c r0]; [discriminate|].
  cbn [List.length] in L.
  destruct (N.eqb c QUOTE).
  { destruct (characters r0) as [[t rest]|] eqn:E; [|discriminate].
    apply characters_length in E. intros [= _ <-]. lia. }
  destruct (N.eqb c 91).
  { pose proof (skipWhitespace_length r0) as L0.
    destruct (skipWhitespace r0) as [|c' r']; [discriminate|].
    cbn [List.length] in L0.
    destruct (N.eqb c' 93); [intros [= _ <-]; lia|].
    intros H. apply (elements_length (value fuel) IH) in H. lia. }
  destruct (N.eqb c 123).
  { pose proof (skipWhitespace_length r0) as L0.
    destruct (skipWhitespace r0) as [|c' r']; [discriminate|].
    cbn [List.length] in L0.
    destruct (N.eqb c' 125); [intros [= _ <-]; lia|].
    intros H. apply (members_length (value fuel) IH) in H. lia. }
  destruct (startsWith (c :: r0) (lit "null")).
  { intros [= _ <-].
    destruct r0 as [|? [|? [|? [|? ?]]]]; cbn [List.length] in *; lia. }
  destruct (startsWith (c :: r0) (lit "true")).
  { intros [= _ <-].
    destruct r0 as [|? [|? [|? [|? ?]]]]; cbn [List.length] in *; lia. }
  destruct (startsWith (c :: r0) (lit "false")).
  { intros [= _ <-].
    destruct r0 as [|? [|? [|? [|? ?]]]]; cbn [List.length] in *; lia. }
  intros H. apply number_length in H. cbn [List.length] in H. lia.
Qed.

Section LoopsAgree.
Variables val1 val2 : jsstring -> option (parsed * jsstring).
Hypothesis val1_length : forall s v r,
  val1 s = Some (v, r) -> List.length r < List.length s.

Lemma elements_agree : forall n1 n2 s acc,
  List.length s < n1 -> List.length s < n2 ->
  (forall s', List.length s' <= List.length s -> val1 s' = val2 s') ->
  elements val1 n1 s acc = elements val2 n2 s acc.
Proof.
  induction n1 as [|n1 IH]; intros [|n2] s acc H1 H2 Hv; try lia.
  cbn [elements]. rewrite <- (Hv s (Nat.le_refl _)).
  destruct (val1 s) as [[v r1]|] eqn:E; [|reflexivity].
  apply val1_length in E. pose proof (skipWhitespace_length r1) as L.
  destruct (skipWhitespace r1) as [|x r2]; [reflexivity|].
  cbn [List.length] in L.
  destruct (N.eqb x COMMA); [|reflexivity].
  apply IH; try lia. intros s' Hs'. apply Hv. lia.
Qed.

Lemma members_agree : forall n1 n2 s acc,
  List.length s < n1 -> List.length s < n2 ->
  (forall s', List.length s' <= List.length s -> val1 s' = val2 s') ->
  members val1 n1 s acc = members val2 n2 s acc.
Proof.
  induction n1 as [|n1 IH]; intros [|n2] s acc H1 H2 Hv; try lia.
  cbn [members].
  pose proof (skipWhitespace_length s) as L0.
  destruct (skipWhitespace s) as [|q r1]; [reflexivity|].
  cbn [List.length] in L0.
  destruct (N.eqb q QUOTE); [|reflexivity].
  destruct (characters r1) as [[k r2]|] eqn:Ek; [|reflexivity].
  apply characters_length in Ek. pose proof (skipWhitespace_length r2) as L2.
  destruct (skipWhitespace r2) as [|colon r3]; [reflexivity|].
  cbn [List.length] in L2.
  destruct (N.eqb colon 58); [|reflexivity].
  rewrite <- (Hv r3) by lia.
  destruct (val1 r3) as [[v r4]|] eqn:E; [|reflexivity].
  apply val1_length in E. pose proof (skipWhitespace_length r4) as L4.
  destruct (skipWhitespace r4) as [|x r5]; [reflexivity|].
  cbn [List.length] in L4.
  destruct (N.eqb x COMMA); [|reflexivity].
  apply IH; try lia. intros s' Hs'. apply Hv. lia.
Qed.

End LoopsAgree.

(** The fuel of [JSON_parse] is never used up: with more fuel than the
    text has characters, the value read does not depend on the fuel. *)
Lemma value_fuel : forall fuel1 fuel2 s,
  List.length s < fuel1 -> List.length s < fuel2 ->
  value fuel1 s = value fuel2 s.
Proof.
  induction fuel1 as [|fuel1 IH]; intros [|fuel2] s H1 H2; try lia.
  cbn [value].
  pose proof (skipWhitespace_length s) as L.
  destruct (skipWhitespace s) as [|c r0]; [reflexivity|].
  cbn [List.length] in L.
  destruct (N.eqb c QUOTE); [reflexivity|].
  destruct (N.eqb c 91).
  { pose proof (skipWhitespace_length r0) as L0.
    destruct (skipWhitespace r0) as [|c' r']; [reflexivity|].
    destruct (N.eqb c' 93); [reflexivity|].
    apply elements_agree; try lia.
    - apply value_length.
    - intros s' Hs'. apply IH; lia. }
  destruct (N.eqb c 123); [|reflexivity].
  pose proof (skipWhitespace_length r0) as L0.
  destruct (skipWhitespace r0) as [|c' r']; [reflexivity|].
  destruct (N.eqb c' 125); [reflexivity|].
  apply members_agree; try lia.
  - apply value_length.
  - intros s' Hs'. apply IH; lia.
Qed.

End JsonFuel.

Section JsonRoundTrip.
Import Json JsonText.
Open Scope N_scope.

Lemma characters_plain (c : char16) (r : jsstring) :
  N.eqb c QUOTE = false -> N.eqb c BACKSLASH = false -> (c <? 32) = false ->
  characters (c :: r)
  = match characters r with
    | Some (t, rest) => Some (c :: t, rest)
    | None => None
    end.
Proof. intros H1 H2 H3. cbn [characters]. now rewrite H1, H2, H3. Qed.

Lemma characters_simple (e x : char16) (r : jsstring) :
  simpleEscape e = Some x -> N.eqb e 117 = false ->
  characters (BACKSLASH :: e :: r)
  = match characters r with
    | Some (t, rest) => Some (x :: t, rest)
    | None => None
    end.
Proof.
  intros H1 H2. cbn [characters].
  change (N.eqb BACKSLASH QUOTE) with false.
  change (N.eqb BACKSLASH BACKSLASH) with true. cbv iota.
  rewrite H2, H1. reflexivity.
Qed.

Lemma hexValue_hexDigit d : d < 16 -> hexValue (hexDigit d) = Some d.
Proof.
  intros H. unfold hexDigit, hexValue, isDigit.
  destruct (N.ltb_spec d 10).
  - replace ((48 <=? 48 + d) && (48 + d <=? 57))%bool with true
      by (symmetry; apply andb_true_iff; split; apply N.leb_le; lia).
    f_equal. lia.
  - replace ((48 <=? 87 + d) && (87 + d <=? 57))%bool with false
      by (symmetry; apply andb_false_iff; right; apply N.leb_gt; lia).
    replace ((97 <=? 87 + d) && (87 + d <=? 102))%bool with true
      by (symmetry; apply andb_true_iff; split; apply N.leb_le; lia).
    f_equal. lia.
Qed.

Lemma characters_unicode (c : char16) (r : jsstring) :
  c < 65536 ->
  characters (unicodeEscape c ++ r)
  = match characters r with
    | Some (t, rest) => Some (c :: t, rest)
    | None => None
    end.
Proof.
  intros Hc. unfold unicodeEscape. cbn [app characters].
  change (N.eqb BACKSLASH QUOTE) with false.
  change (N.eqb BACKSLASH BACKSLASH) with true.
  change (N.eqb 117 117) with true. cbv iota.
  assert (H1 : c / 4096 < 16) by (apply N.Div0.div_lt_upper_bound; lia).
  pose proof (N.mod_upper_bound (c / 256) 16).
  pose proof (N.mod_upper_bound (c / 16) 16).
  pose proof (N.mod_upper_bound c 16).
  rewrite !hexValue_hexDigit by lia.
  assert (E : c / 4096 * 4096 + (c / 256) mod 16 * 256 + (c / 16) mod 16 * 16
              + c mod 16 = c).
  { pose proof (N.div_mod c 16). pose proof (N.div_mod (c / 16) 16).
    pose proof (N.div_mod (c / 256) 16).
    assert (c / 16 / 16 = c / 256) by (rewrite N.Div0.div_div; reflexivity).
    assert (c / 256 / 16 = c / 4096) by (rewrite N.Div0.div_div; reflexivity).
    lia. }
  rewrite E. reflexivity.
Qed.

Lemma surrogate_plain (c : char16) :
  (isHighSurrogate c || isLowSurrogate c)%bool = true ->
  N.eqb c QUOTE = false /\ N.eqb c BACKSLASH = false /\ (c <? 32) = false
  /\ c < 65536.
Proof.
  unfold isHighSurrogate, isLowSurrogate, QUOTE, BACKSLASH. intros H.
  assert (55296 <= c <= 57343).
  { apply orb_true_iff in H as [H|H]; apply andb_true_iff in H as [H1 H2];
      apply N.leb_le in H1, H2; lia. }
  repeat split; try (apply N.eqb_neq; lia); try (apply N.ltb_ge; lia); lia.
Qed.

(** Reading what [escape] wrote gives the string back. *)
Lemma characters_escape : forall (n : nat) (s : jsstring),
  (List.length s <= n)%nat ->
  forall rest, characters (escape s ++ QUOTE :: rest) = Some (s, rest).
Proof.
  induction n as [|n IH]; intros [|c s] Hn rest;
    try (cbn [List.length] in Hn; lia);
    try (cbn [escape app characters]; now rewrite N.eqb_refl).
  cbn [List.length] in Hn. cbn [escape].
  assert (IHs : characters (escape s ++ QUOTE :: rest) = Some (s, rest))
    by (apply IH; lia).
  destruct (N.eqb_spec c 8) as [->|N8].
  { cbn [app]. rewrite (characters_simple 98 8 _ eq_refl eq_refl), IHs. reflexivity. }
  destruct (N.eqb_spec c 9) as [->|N9].
  { cbn [app]. rewrite (characters_simple 116 9 _ eq_refl eq_refl), IHs. reflexivity. }
  destruct (N.eqb_spec c 10) as [->|N10].
  { cbn [app]. rewrite (characters_simple 110 10 _ eq_refl eq_refl), IHs. reflexivity. }
  destruct (N.eqb_spec c 12) as [->|N12].
  { cbn [app]. rewrite (characters_simple 102 12 _ eq_refl eq_refl), IHs. reflexivity. }
  destruct (N.eqb_spec c 13) as [->|N13].
  { cbn [app]. rewrite (characters_simple 114 13 _ eq_refl eq_refl), IHs. reflexivity. }
  destruct (N.eqb_spec c QUOTE) as [->|NQ].
  { cbn [app]. rewrite (characters_simple QUOTE QUOTE _ eq_refl eq_refl), IHs. reflexivity. }
  destruct (N.eqb_spec c BACKSLASH) as [->|NB].
  { cbn [app]. rewrite (characters_simple BACKSLASH BACKSLASH _ eq_refl eq_refl), IHs.
    reflexivity. }
  destruct (N.ltb_spec c 32) as [Hlt|Hge].
  { rewrite <- app_assoc, characters_unicode by lia. now rewrite IHs. }
  assert (Hplain : forall r, characters (c :: r)
                             = match characters r with
                               | Some (t, rest) => Some (c :: t, rest)
                               | None => None
                               end).
  { intros r. apply characters_plain.
    - now apply N.eqb_neq.
    - now apply N.eqb_neq.
    - now apply N.ltb_ge. }
  destruct (isHighSurrogate c) eqn:Eh.
  { destruct (surrogate_plain c) as (_ & _ & _ & Hc); [now rewrite Eh|].
    destruct s as [|c' s'].
    - rewrite characters_unicode by exact Hc.
      cbn [characters]. now rewrite N.eqb_refl.
    - destruct (isLowSurrogate c') eqn:El.
      + destruct (surrogate_plain c') as (Q1 & Q2 & Q3 & _);
          [rewrite El; apply orb_true_r|].
        cbn [app]. rewrite Hplain, (characters_plain c' _ Q1 Q2 Q3).
        rewrite (IH s') by (cbn [List.length] in Hn; lia). reflexivity.
      + rewrite <- app_assoc, characters_unicode by exact Hc. now rewrite IHs. }
  destruct (isLowSurrogate c) eqn:El.
  { destruct (surrogate_plain c) as (_ & _ & _ & Hc);
      [rewrite El; apply orb_true_r|].
    rewrite <- app_assoc, characters_unicode by exact Hc. now rewrite IHs. }
  cbn [app]. now rewrite Hplain, IHs.
Qed.

End JsonRoundTrip.

Section JsonNumbers.
Import Json JsonText.
Open Scope N_scope.

Lemma natural_snoc ds d : natural (ds ++ [d]) = natural ds * 10 + (d - 48).
Proof. unfold natural. now rewrite fold_left_app. Qed.

Lemma isDigit_digit d : d < 10 -> isDigit (48 + d) = true.
Proof.
  intros H. unfold isDigit. apply andb_true_iff. split; apply N.leb_le; lia.
Qed.

Lemma digitRun_app ds : forall rest,
  forallb isDigit ds = true ->
  match rest with c :: _ => isDigit c = false | [] => True end ->
  digitRun (ds ++ rest) = (ds, rest).
Proof.
  induction ds as [|d ds IH]; intros rest Hds Hrest.
  - destruct rest as [|c r]; [reflexivity|]. cbn [app digitRun]. now rewrite Hrest.
  - cbn [forallb] in Hds. apply andb_true_iff in Hds as [Hd Hds].
    cbn [app digitRun]. now rewrite Hd, (IH rest Hds Hrest).
Qed.

Lemma digits_step fuel n acc :
  digits (S fuel) n acc
  = if N.eqb (n / 10) 0 then (48 + n mod 10) :: acc
    else digits fuel (n / 10) ((48 + n mod 10) :: acc).
Proof. reflexivity. Qed.

(** What [digits] writes before [acc]: the decimal digits of [n], the one
    of most weight first and not [0] unless [n] is zero. *)
Lemma digits_spec : forall (fuel : nat) (n : N) (acc : jsstring),
  n < 2 ^ N.of_nat fuel ->
  exists ds,
    digits (S fuel) n acc = ds ++ acc
    /\ forallb isDigit ds = true
    /\ natural ds = n
    /\ match ds with
       | [] => False
       | d :: ds' => if N.eqb d 48 then n = 0 /\ ds' = [] else True
       end.
Proof.
  induction fuel as [|fuel IH]; intros n acc Hn.
  - assert (n = 0) as -> by (cbn in Hn; lia).
    exists [48]. repeat split; reflexivity.
  - rewrite digits_step.
    destruct (N.eqb_spec (n / 10) 0) as [E|E].
    + exists [48 + n mod 10].
      pose proof (N.mod_upper_bound n 10).
      pose proof (N.div_mod n 10).
      split; [reflexivity|]. split.
      { cbn [forallb]. rewrite isDigit_digit by lia. reflexivity. }
      split; [unfold natural; cbn [fold_left]; lia|].
      destruct (N.eqb_spec (48 + n mod 10) 48); [split; [lia|reflexivity]|exact I].
    + assert (Hq : n / 10 < 2 ^ N.of_nat fuel).
      { apply N.Div0.div_lt_upper_bound.
        rewrite Nat2N.inj_succ, N.pow_succ_r' in Hn. lia. }
      destruct (IH (n / 10) ((48 + n mod 10) :: acc) Hq) as (ds & Hd & Hall & Hval & Hhead).
      exists (ds ++ [48 + n mod 10]).
      pose proof (N.mod_upper_bound n 10).
      pose proof (N.div_mod n 10).
      split; [rewrite Hd, <- app_assoc; reflexivity|]. split.
      { rewrite forallb_app, Hall. cbn [forallb].
        rewrite isDigit_digit by lia. reflexivity. }
      split.
      { rewrite natural_snoc, Hval. clear - H H0.
        specialize (H ltac:(discriminate)). specialize (H0 ltac:(discriminate)).
        set (q := n / 10) in *. set (r := n mod 10) in *. clearbody q r. lia. }
      destruct ds as [|d ds']; [contradiction|]. cbn [app].
      destruct (N.eqb d 48); [|exact I]. destruct Hhead as [Hz _]. contradiction.
Qed.

Lemma size_bound n : n < 2 ^ N.of_nat (N.size_nat n).
Proof.
  destruct n as [|p]; [reflexivity|].
  cbn [N.size_nat].
  induction p as [p IH|p IH|]; cbn [Pos.size_nat].
  - rewrite Nat2N.inj_succ, N.pow_succ_r'. lia.
  - rewrite Nat2N.inj_succ, N.pow_succ_r'. lia.
  - reflexivity.
Qed.

(** Reading a number that [numberToString] wrote, before a character that
    cannot go on a number. *)
Lemma number_numberToString (z : Z) (stop : char16) (rest : jsstring) :
  isDigit stop = false -> N.eqb stop 46 = false ->
  (N.eqb stop 101 || N.eqb stop 69)%bool = false ->
  number (numberToString z ++ stop :: rest)
  = Some (PNumber (z <? 0)%Z (Z.abs_N z) 0, stop :: rest).
Proof.
  intros Hd Hp He. unfold numberToString.
  destruct (digits_spec (N.size_nat (Z.abs_N z)) (Z.abs_N z) [] (size_bound _))
    as (ds & -> & Hall & Hval & Hhead).
  rewrite app_nil_r.
  assert (Hint : integerPart (ds ++ stop :: rest) = Some (ds, stop :: rest)).
  { destruct ds as [|d ds']; [contradiction|].
    unfold integerPart. cbn [app].
    destruct (N.eqb_spec d 48) as [->|Hne].
    - destruct Hhead as [_ ->]. reflexivity.
    - cbn [forallb] in Hall. apply andb_true_iff in Hall as [Hd1 Hall].
      rewrite Hd1. f_equal.
      apply (digitRun_app (d :: ds') (stop :: rest)).
      + cbn [forallb]. now rewrite Hd1, Hall.
      + exact Hd. }
  assert (Hnum : number (ds ++ stop :: rest)
                 = Some (PNumber false (Z.abs_N z) 0, stop :: rest)).
  { assert (Hm : exists d ds', ds = d :: ds' /\ N.eqb d 45 = false).
    { destruct ds as [|d ds']; [contradiction|]. exists d, ds'. split; [reflexivity|].
      cbn [forallb] in Hall. apply andb_true_iff in Hall as [Hd1 _].
      destruct (N.eqb_spec d 45) as [->|]; [discriminate Hd1|reflexivity]. }
    destruct Hm as (d & ds' & Eds & Hd45).
    unfold number. rewrite Eds at 1. cbn [app]. rewrite Hd45.
    rewrite Hint. unfold fractionPart. rewrite Hp.
    unfold exponentPart. rewrite He. rewrite app_nil_r, Hval. reflexivity. }
  destruct (Z.ltb_spec z 0) as [Hneg|Hpos].
  - unfold number. cbn [app]. change (N.eqb 45 45) with true. cbv iota.
    rewrite Hint. unfold fractionPart. rewrite Hp.
    unfold exponentPart. rewrite He. rewrite app_nil_r, Hval. reflexivity.
  - exact Hnum.
Qed.

End JsonNumbers.

Section DraftRoundTrip.
Import ExportPipeline Dom Json JsonText Mount Toolbar Coordinator.
Open Scope N_scope.

Lemma members_flat (k1 s1 k2 s2 : jsstring) :
  123%N
  :: ([] ++ (QUOTE :: k1 ++ [QUOTE])
      ++ 58%N :: (QUOTE :: s1 ++ [QUOTE])
      ++ [COMMA] ++ (QUOTE :: k2 ++ [QUOTE]) ++ 58%N :: s2 ++ [])
     ++ [125%N]
  = 123%N :: QUOTE :: k1
    ++ QUOTE :: 58%N :: QUOTE :: s1
    ++ QUOTE :: COMMA :: QUOTE :: k2
    ++ QUOTE :: 58%N :: s2 ++ [125%N].
Proof.
  cbn [app]. rewrite app_nil_r.
  repeat (rewrite <- app_assoc; cbn [app]). reflexivity.
Qed.

Lemma stringify_draft (c : DraftContent) :
  JSON_stringify c
  = 123%N :: QUOTE :: escape (lit "htmlContent")
    ++ QUOTE :: 58%N :: QUOTE :: escape (htmlContent c)
    ++ QUOTE :: COMMA :: QUOTE :: escape (lit "timestamp")
    ++ QUOTE :: 58%N :: numberToString (timestamp c) ++ [125%N].
Proof.
  exact (members_flat (escape (lit "htmlContent")) (escape (htmlContent c))
           (escape (lit "timestamp")) (numberToString (timestamp c))).
Qed.

Lemma value_string fuel (s rest : jsstring) :
  value (S fuel) (QUOTE :: escape s ++ QUOTE :: rest) = Some (PString s, rest).
Proof.
  cbn [value skipWhitespace]. change (isWhitespace QUOTE) with false. cbv iota.
  change (N.eqb QUOTE QUOTE) with true. cbv iota.
  now rewrite (characters_escape (List.length s) s (Nat.le_refl _) rest).
Qed.

Lemma numberToString_head z :
  exists c t, numberToString z = c :: t /\ (45 <= c <= 57)%N.
Proof.
  unfold numberToString.
  destruct (digits_spec (N.size_nat (Z.abs_N z)) (Z.abs_N z) [] (size_bound _))
    as (ds & -> & Hall & _ & Hhead).
  rewrite app_nil_r.
  destruct (z <? 0)%Z; [exists 45%N, ds; split; [reflexivity|lia]|].
  destruct ds as [|d ds']; [contradiction|].
  exists d, ds'. split; [reflexivity|].
  cbn [forallb] in Hall. apply andb_true_iff in Hall as [Hd _].
  unfold isDigit in Hd. apply andb_true_iff in Hd as [H1 H2].
  apply N.leb_le in H1, H2. lia.
Qed.

Lemma value_number fuel (z : Z) (rest : jsstring) :
  value (S fuel) (numberToString z ++ 125%N :: rest)
  = Some (PNumber (z <? 0)%Z (Z.abs_N z) 0, 125%N :: rest).
Proof.
  transitivity (number (numberToString z ++ 125%N :: rest));
    [|exact (number_numberToString z 125%N rest eq_refl eq_refl eq_refl)].
  destruct (numberToString_head z) as (c & t & -> & Hc).
  cbn [app value skipWhitespace].
  assert (Hws : isWhitespace c = false).
  { unfold isWhitespace. repeat (apply orb_false_iff; split); apply N.eqb_neq; lia. }
  rewrite Hws.
  replace (N.eqb c QUOTE) with false by (symmetry; apply N.eqb_neq; unfold QUOTE; lia).
  replace (N.eqb c 91) with false by (symmetry; apply N.eqb_neq; lia).
  replace (N.eqb c 123) with false by (symmetry; apply N.eqb_neq; lia).
  change (lit "null") with [110; 117; 108; 108]%N.
  change (lit "true") with [116; 114; 117; 101]%N.
  change (lit "false") with [102; 97; 108; 115; 101]%N.
  cbn [startsWith].
  replace (N.eqb c 110) with false by (symmetry; apply N.eqb_neq; lia).
  replace (N.eqb c 116) with false by (symmetry; apply N.eqb_neq; lia).
  replace (N.eqb c 102) with false by (symmetry; apply N.eqb_neq; lia).
  reflexivity.
Qed.

Lemma value_object fuel (r : jsstring) :
  value (S fuel) (123 :: QUOTE :: r) = members (value fuel) fuel (QUOTE :: r) [].
Proof. reflexivity. Qed.

(** One member of an object, read with [val]. *)
Lemma members_step (val : jsstring -> option (parsed * jsstring)) (n : nat)
  (k r1 r3 r4 : jsstring) (v : parsed) (acc : list (jsstring * parsed)) :
  characters r1 = Some (k, 58 :: r3) ->
  val r3 = Some (v, r4) ->
  members val (S n) (QUOTE :: r1) acc
  = match skipWhitespace r4 with
    | x :: r5 =>
        if N.eqb x COMMA then members val n r5 (defineProperty k v acc)
        else if N.eqb x 125 then Some (PObject (defineProperty k v acc), r5)
        else None
    | [] => None
    end.
Proof.
  intros Hk Hv. cbn [members skipWhitespace].
  change (isWhitespace QUOTE) with false. cbv iota.
  change (N.eqb QUOTE QUOTE) with true. cbv iota.
  rewrite Hk. cbn [skipWhitespace]. change (isWhitespace 58) with false. cbv iota.
  change (N.eqb 58 58) with true. cbv iota.
  now rewrite Hv.
Qed.

Lemma defineProperty_second (k1 k2 : jsstring) (v1 v2 : parsed) :
  JS.eqb k1 k2 = false ->
  defineProperty k2 v2 (defineProperty k1 v1 []) = [(k1, v1); (k2, v2)].
Proof. intros H. cbn [defineProperty]. now rewrite H. Qed.

(** An object of two members, a string and a number, as [JSON.stringify]
    writes it: [k1e], [s1e], [k2e] and [n2e] are the texts of the names and
    of the values. *)
Lemma value_two_members (fuel : nat) (k1e s1e k2e n2e k1 k2 : jsstring)
  (v1 v2 : parsed) :
  (forall rest, characters (k1e ++ QUOTE :: rest) = Some (k1, rest)) ->
  (forall rest, characters (k2e ++ QUOTE :: rest) = Some (k2, rest)) ->
  (forall rest,
     value (S (S fuel)) (QUOTE :: s1e ++ QUOTE :: rest) = Some (v1, rest)) ->
  (forall rest,
     value (S (S fuel)) (n2e ++ 125 :: rest) = Some (v2, 125 :: rest)) ->
  JS.eqb k1 k2 = false ->
  value (S (S (S fuel)))
    (123 :: QUOTE :: k1e
     ++ QUOTE :: 58 :: QUOTE :: s1e
     ++ QUOTE :: COMMA :: QUOTE :: k2e
     ++ QUOTE :: 58 :: n2e ++ [125])
  = Some (PObject [(k1, v1); (k2, v2)], []).
Proof.
  intros Hk1 Hk2 Hv1 Hv2 Hne.
  rewrite value_object.
  generalize dependent (value (S (S fuel))). intros val Hv1 Hv2.
  rewrite (members_step val (S fuel) k1 _ _ _ v1 [] (Hk1 _) (Hv1 _)).
  cbn [skipWhitespace]. change (isWhitespace COMMA) with false. cbv iota.
  change (N.eqb COMMA COMMA) with true. cbv iota.
  rewrite (members_step val fuel k2 _ _ _ v2 _ (Hk2 _) (Hv2 _)).
  cbn [skipWhitespace]. change (isWhitespace 125) with false. cbv iota.
  change (N.eqb 125 COMMA) with false. change (N.eqb 125 125) with true. cbv iota.
  now rewrite (defineProperty_second k1 k2 v1 v2 Hne).
Qed.

Lemma length_two_more (x y : char16) (l : jsstring) :
  exists f, List.length (x :: y :: l) = S (S f).
Proof. now exists (List.length l). Qed.

(** Parsing what [JSON.stringify] wrote for a draft gives the draft. *)
Lemma parse_stringify (c : DraftContent) :
  JSON_parse (JSON_stringify c) = Some (ofDraft c).
Proof.
  unfold JSON_parse. rewrite stringify_draft.
  match goal with
  | |- context [value (S ?n) _] => remember n as fuel eqn:Ef
  end.
  assert (Hlen : exists f, fuel = S (S f))
    by (rewrite Ef; apply length_two_more).
  destruct Hlen as [f Hlen]. rewrite Hlen. clear Ef Hlen fuel.
  rewrite (value_two_members f (escape (lit "htmlContent")) (escape (htmlContent c))
             (escape (lit "timestamp")) (numberToString (timestamp c))
             (lit "htmlContent") (lit "timestamp")
             (PString (htmlContent c))
             (PNumber (timestamp c <? 0)%Z (Z.abs_N (timestamp c)) 0)
             (characters_escape _ _ (Nat.le_refl _))
             (characters_escape _ _ (Nat.le_refl _))
             (value_string _ _)
             (value_number _ _)
             eq_refl).
  reflexivity.
Qed.

End DraftRoundTrip.

Section LoadTheorems.
Import ExportPipeline Dom Json JsonText Mount Toolbar Coordinator.

(** X22: the effect that runs after the first render restores what the
    autosave stored: the text written for a draft parses without error to
    the object of its two fields, which becomes the state, and the editor
    gets the nodes that the stored markup parses to, or is left alone when
    the markup is empty; nothing is logged. *)
Theorem stored_draft_is_restored (parseHTML : jsstring -> list Node)
  (ToString : parsed -> jsstring) (c : DraftContent) (editor : NodeRef)
  (pg : Page) :
  JSON_parse (JSON_stringify c) = Some (ofDraft c)
  /\ loadSavedContent parseHTML ToString (Some (JSON_stringify c)) (Some editor) pg
     = {| newContent := Some (ofDraft c);
          newPage := if truthy (htmlContent c)
                     then fst (replaceAll editor (parseHTML (htmlContent c)) pg)
                     else pg;
          logged := [] |}
  /\ (forall tag attrs m kids,
        resolve pg editor = Some (ElementNode tag attrs m kids) ->
        truthy (htmlContent c) = true ->
        resolve (newPage (loadSavedContent parseHTML ToString
                            (Some (JSON_stringify c)) (Some editor) pg)) editor
        = Some (ElementNode tag attrs m (parseHTML (htmlContent c)))).
Proof.
  assert (Hload : loadSavedContent parseHTML ToString (Some (JSON_stringify c))
                    (Some editor) pg
                  = {| newContent := Some (ofDraft c);
                       newPage := if truthy (htmlContent c)
                                  then fst (replaceAll editor (parseHTML (htmlContent c)) pg)
                                  else pg;
                       logged := [] |}).
  { unfold loadSavedContent. rewrite parse_stringify.
    rewrite stringify_draft at 1. cbn [truthy].
    unfold ofDraft, htmlContentOf.
    change (JS.eqb (lit "htmlContent") (lit "htmlContent")) with true. cbv iota.
    cbn [ToBoolean]. now destruct (truthy (htmlContent c)). }
  split; [apply parse_stringify|]. split; [exact Hload|].
  intros tag attrs m kids Hr Ht. rewrite Hload. cbn [newPage]. rewrite Ht.
  exact (resolve_replaceAll editor (parseHTML (htmlContent c)) pg tag attrs m kids Hr).
Qed.

End LoadTheorems.

Section Sessions.
Import JsonText Persistence.

Variable numberText : bool -> N -> Z -> jsstring.

Lemma sessions_draft l : forall saved,
  Forall (fun s => inTime (fst s) (snd s) = true) l ->
  (saved = None
   \/ exists c, timeValue (timestamp c) = true
                /\ saved = Some (JSON_stringify c)) ->
  sessions numberText saved l = None
  \/ exists c, timeValue (timestamp c) = true
               /\ sessions numberText saved l = Some (JSON_stringify c).
Proof.
  induction l as [|[now tr] l IH]; intros saved Hl Hs; [exact Hs|].
  inversion Hl as [|x l' Hx Hl']; subst. cbn [fst snd] in Hx.
  cbn [sessions]. apply IH; [exact Hl'|].
  assert (Hload : loaded saved = None
                  \/ exists c0, loaded saved = Some (ofDraft c0)
                                /\ timeValue (timestamp c0) = true).
  { destruct Hs as [->|(c & Hc & ->)]; [now left|].
    right. exists c. split; [|exact Hc].
    cbn [loaded]. rewrite stringify_draft. cbn [truthy].
    rewrite <- stringify_draft. apply parse_stringify. }
  destruct (DraftState_mount now saved Hload (inTime_now _ _ Hx))
    as (Hd0 & Hc0 & _ & Hs0).
  assert (Hrun : inTime (clock (mount now saved)) tr = true) by now rewrite Hc0.
  destruct (DraftState_run numberText tr _ Hd0 Hrun) as (_ & _ & [H|H]).
  - rewrite H, Hs0. exact Hs.
  - now right.
Qed.

(** X23: from a storage that is empty, through any number of sessions of
    the component, each made of any events, the stored value is absent or
    is the JSON text of a draft, and the load of the next session reads it
    back and puts that draft into the state. *)
Theorem stored_value_always_loads (l : list (Z * list Event)) :
  Forall (fun s => inTime (fst s) (snd s) = true) l ->
  sessions numberText None l = None
  \/ exists c,
       sessions numberText None l = Some (JSON_stringify c)
       /\ loaded (sessions numberText None l) = Some (ofDraft c).
Proof.
  intros Hl.
  destruct (sessions_draft l None Hl (or_introl eq_refl)) as [H|(c & Hc & H)];
    [now left|].
  right. exists c. split; [exact H|]. rewrite H.
  cbn [loaded]. rewrite stringify_draft. cbn [truthy].
  rewrite <- stringify_draft. apply parse_stringify.
Qed.

End Sessions.

(** ** The theorems at concrete inputs *)
Section Witnesses.
Import ExportPipeline Dom Cursor Widget Markup Coordinator.

(** C1 at an image of 848 by 159: the exact height 112.5 is a tie, and the
    product computed in binary64 rounds to 112. *)
Lemma C1_aspect_fit_witness :
  exportSize 848 159 = (600, 112)%Z
  /\ (0 <= fst (exportSize 848 159) <= 600)%Z
  /\ (0 <= snd (exportSize 848 159) <= 450)%Z.
Proof.
  split; [vm_compute; reflexivity|].
  exact (proj2 (proj2 (proj1 C1_aspect_fit tieImage eq_refl eq_refl))).
Defined.

Lemma C3_empty_export_witness :
  handleExportWord plainTextParser editingWorld = blankDocument.
Proof.
  apply (C3_empty_export plainTextParser editingWorld). right. reflexivity.
Defined.

Lemma C4_export_reads_only_the_snapshot_witness :
  withoutSizes (handleExportWord imageNotLoaded imageWorld)
  = withoutSizes (handleExportWord imageLoaded imageWorld)
  /\ handleExportWord plainTextParser typingWorld
     = handleExportWord plainTextParser composingWorld.
Proof.
  split.
  - exact (proj1 (C4_export_reads_only_the_snapshot imageNotLoaded imageLoaded
                    imageWorld imageWorld eq_refl eq_refl eq_refl)).
  - exact (proj2 (C4_export_reads_only_the_snapshot plainTextParser
                    plainTextParser typingWorld composingWorld
                    eq_refl eq_refl eq_refl) eq_refl).
Defined.


Lemma C8_burst_writes_once_witness :
  Autosave.written
    (Autosave.autosave
       (Autosave.run (Autosave.run (Autosave.step (Autosave.mount 0)
                                      (Autosave.Change firstEdit)) editBurst)
          [Autosave.Elapse 1000; Autosave.TimerFires]))
  = [JSON_stringify thirdEdit].
Proof.
  exact (proj2 (proj2 (C8_burst_writes_once (Autosave.mount 0) firstEdit editBurst
                         eq_refl))).
Defined.

Lemma C9_stored_value_witness :
  let numberText := fun (_ : bool) (_ : N) (_ : Z) => lit "0" in
  let st := Persistence.run numberText
              (Persistence.mount 2000 (Some (JSON_stringify firstEdit)))
              [Persistence.Update (lit "ab"); Persistence.Elapse 1000] in
  let st' := Persistence.step numberText st Persistence.TimerFires in
  exists c : DraftContent,
    Persistence.content st = ofDraft c
    /\ (Persistence.written st' = Persistence.written st
        \/ Persistence.written st'
           = Persistence.written st
             ++ [Json.stringify
                   (Json.JObject
                      [(lit "htmlContent", Json.JString (htmlContent c));
                       (lit "timestamp", Json.JNumber (timestamp c))])])
    /\ (Persistence.content st' = Persistence.content st
        \/ exists html,
             Persistence.content st'
             = ofDraft {| htmlContent := html;
                          timestamp := Persistence.clock st |}).
Proof.
  apply (C9_stored_value (fun _ _ _ => lit "0") 2000
           (Some (JSON_stringify firstEdit))
           [Persistence.Update (lit "ab"); Persistence.Elapse 1000]
           Persistence.TimerFires).
  - right. exists firstEdit. split; [vm_compute; reflexivity | reflexivity].
  - reflexivity.
Defined.

Lemma C10_only_data_images_witness :
  processNode remoteImage emptyExport = emptyExport.
Proof.
  exact (proj1 (proj1 (C10_only_data_images remoteImage
                         [(lit "src", lit "https://example.org/a.png")]
                         noMetrics eq_refl) eq_refl) emptyExport).
Defined.

End Witnesses.

(** ** The further properties at concrete inputs *)
Section MoreWitnesses.
Import ExportPipeline Dom Cursor Widget Markup Coordinator Toolbar FileReader.

Lemma pasted_bytes_are_exported_witness :
  processNode
    (imgWrapper (lit "5k3j9x0a1b") (readAsDataURL pngSignature)
       (pastedImage_ ++ lit "10:00:00") noMetrics) emptyExport
  = push {| children := [ImageRun [137; 80; 78; 71; 13; 10; 26; 10]%N 400 300] |}
      emptyExport.
Proof.
  exact (pasted_bytes_are_exported pngSignature (lit "5k3j9x0a1b")
           (pastedImage_ ++ lit "10:00:00") noMetrics emptyExport
           eq_refl eq_refl eq_refl).
Defined.

Lemma image_without_comma_is_logged_witness :
  processNode truncatedImage emptyExport
  = consoleError FailedToProcessImage emptyExport.
Proof.
  exact (image_without_comma_is_logged truncatedImage
           [(lit "src", lit "data:image/png;base64")] noMetrics
           (lit "data:image/png;base64") emptyExport
           eq_refl eq_refl eq_refl eq_refl).
Defined.

Lemma oversize_image_touches_the_box_witness :
  fst (exportSize 1200 300) = 600%Z /\ snd (exportSize 300 900) = 450%Z.
Proof.
  split.
  - apply (proj1 (oversize_image_touches_the_box 1200 300
                    ltac:(lia) ltac:(lia) ltac:(lia))). lia.
  - apply (proj2 (oversize_image_touches_the_box 300 900
                    ltac:(lia) ltac:(lia) ltac:(lia))). lia.
Defined.

Lemma extreme_image_collapses_witness :
  exportSize 1300 1 = (600, 0)%Z /\ exportSize 1 1000 = (0, 450)%Z.
Proof.
  split.
  - apply (proj1 (extreme_image_collapses 1300 1 ltac:(lia) ltac:(lia))). lia.
  - apply (proj2 (extreme_image_collapses 1 1000 ltac:(lia) ltac:(lia))). lia.
Defined.

Lemma saved_position_is_restored_witness :
  exists position,
    saveCursorPosition (Some editorDiv) selectedPage = Some position
    /\ restoreCursorPosition (Some position) (Some editorDiv) selectedPage
       = Ok selectedPage.
Proof.
  apply (saved_position_is_restored editorDiv selectedPage selectedRange);
    try reflexivity.
  - unfold validPoint. simpl. lia.
  - unfold validPoint. simpl. lia.
Defined.

Lemma stale_offset_moves_caret_to_end_witness :
  restoreCursorPosition (Some staleAnchor) (Some editorDiv) (page editingWorld)
  = Ok {| trees := trees (page editingWorld);
          selection := Some (caret 0 [1] 1) |}.
Proof.
  apply (stale_offset_moves_caret_to_end staleAnchor editorDiv (page editingWorld)
           (plain "DIV" [TextNode (lit "ab")])).
  - left. exists (TextNode (lit "ab")). split; [reflexivity|simpl; lia].
  - reflexivity.
  - reflexivity.
Defined.

Lemma input_guard_holds_on_traces_witness :
  let w' := run editingWorld [CompositionStart] in
  imeActive w' = isComposing w'
  /\ (imeActive w' = true ->
      content (step w' (Input (page editingWorld) (fun r => r))) = content w').
Proof.
  exact (input_guard_holds_on_traces editingWorld [CompositionStart]
           (page editingWorld) (fun r => r) eq_refl).
Defined.

Lemma composition_end_updates_snapshot_witness :
  let w1 := step editingWorld CompositionEnd in
  let w2 := step w1 (TimerFires (List.length (timers editingWorld))) in
  content w1 = content editingWorld
  /\ timers w1 = timers editingWorld ++ [(now editingWorld, UpdateAfterComposition)]
  /\ content w2 = {| htmlContent := innerHTML (page editingWorld) editorDiv;
                     timestamp := now editingWorld |}
  /\ timers w2 = timers editingWorld
  /\ page w2 = page editingWorld.
Proof.
  exact (composition_end_updates_snapshot editingWorld editorDiv eq_refl).
Defined.

Lemma image_is_dropped_without_caret_witness :
  step pendingRead (ReaderLoads 0 (lit "k3j9x0a1b") (lit "10:00:00") noMetrics)
  = withReads [] pendingRead.
Proof.
  exact (image_is_dropped_without_caret pendingRead 0 true
           (lit "data:image/png;base64,aGk=") (lit "k3j9x0a1b") (lit "10:00:00")
           noMetrics eq_refl I).
Defined.

Lemma exported_document_shape_witness :
  exists r, children (textParagraph (lit "hi")) = [r].
Proof.
  apply (proj1 (proj2 (exported_document_shape plainTextParser typingWorld))).
  vm_compute. left. reflexivity.
Defined.

Lemma paste_starts_one_read_per_image_witness :
  handlePaste [plainText] composingWorld = composingWorld
  /\ handlePaste [pastedPng] composingWorld
     = withReads (reads composingWorld
                  ++ map (pair (isComposing composingWorld))
                       (imageFiles [pastedPng])) composingWorld.
Proof.
  split.
  - exact (proj1 (paste_starts_one_read_per_image [plainText] composingWorld)
             (or_intror eq_refl)).
  - exact (proj2 (paste_starts_one_read_per_image [pastedPng] composingWorld)
             editorDiv eq_refl).
Defined.

Lemma copy_holds_no_delete_button_witness :
  removeButtons [TextNode (lit "ab")] = [TextNode (lit "ab")]
  /\ exists nodes,
       forallb buttonFree nodes = true
       /\ markupOf (ClipboardWriteText (lit "ab"))
          = serializeChildren (lit "div") nodes.
Proof.
  split.
  - exact (proj1 (proj2 copy_holds_no_delete_button) [TextNode (lit "ab")] eq_refl).
  - exact (proj2 (proj2 (proj2 copy_holds_no_delete_button))
             (fun _ => [TextNode (lit "ab")]) (fun _ _ => lit "ab")
             true false editingWorld (ClipboardWriteText (lit "ab")) eq_refl).
Defined.

Lemma copy_fallback_drops_the_selection_witness :
  let w' := fst (copyFallback editingWorld) in
  snd (copyFallback editingWorld) = Some (Some wholeEditor)
  /\ selection (page w') = None
  /\ trees (page w') = trees (page editingWorld)
  /\ content w' = content editingWorld
  /\ notification w' = {| message := copied; type := success; visible := true |}.
Proof.
  exact (copy_fallback_drops_the_selection editingWorld editorDiv
           (plain "DIV" [TextNode (lit "ab")]) eq_refl eq_refl eq_refl).
Defined.

Lemma stored_draft_is_restored_witness :
  resolve (newPage (loadSavedContent plainTextParser (fun _ => [])
                      (Some (JSON_stringify (content typingWorld)))
                      (Some editorDiv) (page editingWorld))) editorDiv
  = Some (ElementNode (lit "DIV") [] noMetrics
            (plainTextParser (htmlContent (content typingWorld)))).
Proof.
  exact (proj2 (proj2 (stored_draft_is_restored plainTextParser (fun _ => [])
                         (content typingWorld) editorDiv (page editingWorld)))
           (lit "DIV") [] noMetrics [TextNode (lit "ab")] eq_refl eq_refl).
Defined.

Lemma stored_value_always_loads_witness :
  let numberText := fun (_ : bool) (_ : N) (_ : Z) => lit "0" in
  let l := [(2000%Z, [Persistence.Update (lit "ab"); Persistence.Elapse 1000;
                      Persistence.TimerFires]);
            (9000%Z, [Persistence.Clear; Persistence.Elapse 1500;
                      Persistence.TimerFires])] in
  sessions numberText None l = None
  \/ exists c,
       sessions numberText None l = Some (JSON_stringify c)
       /\ Persistence.loaded (sessions numberText None l) = Some (ofDraft c).
Proof.
  apply (stored_value_always_loads (fun _ _ _ => lit "0")).
  repeat constructor.
Defined.

Lemma clear_empties_editor_and_snapshot_witness :
  let w' := handleClear editingWorld in
  resolve (page w') editorDiv = Some (plain "DIV" [])
  /\ content w' = {| htmlContent := []; timestamp := now editingWorld |}
  /\ innerHTML (page w') editorDiv = htmlContent (content w')
  /\ showClearConfirm w' = false
  /\ notification w'
     = {| message := documentCleared; type := success; visible := true |}
  /\ (forall parseHTML, handleExportWord parseHTML w' = blankDocument)
  /\ Autosave.storage (autosave (run w' [Elapse 1000; AutosaveFires]))
     = Some (JSON_stringify {| htmlContent := []; timestamp := now editingWorld |}).
Proof.
  exact (clear_empties_editor_and_snapshot editingWorld editorDiv (lit "DIV") []
           noMetrics [TextNode (lit "ab")] eq_refl eq_refl).
Defined.

Lemma earlier_timer_hides_later_notification_witness :
  let w1 := showNotification imageAdded success editingWorld in
  let w2 := showNotification documentCleared success (step w1 (Elapse 2000)) in
  let w3 := step (step w2 (Elapse (3000 - 2000)))
              (TimerFires (List.length (timers editingWorld))) in
  notification w2
  = {| message := documentCleared; type := success; visible := true |}
  /\ (now w3 = now editingWorld + 3000)%Z
  /\ notification w3
     = {| message := documentCleared; type := success; visible := false |}
  /\ timers w3
     = timers editingWorld
       ++ [((now editingWorld + Z.of_N 2000 + 3000)%Z, HideNotification)].
Proof.
  exact (earlier_timer_hides_later_notification editingWorld imageAdded
           documentCleared success success 2000 ltac:(discriminate)).
Defined.

Lemma text_node_runs_hold_no_line_feed_witness :
  In (textParagraph (lit "line two"))
    (paragraphs (processNode (TextNode (lit "line one" ++ [LF] ++ lit "line two"))
                   emptyExport))
  /\ (In (textParagraph (lit "line two")) (paragraphs emptyExport)
      \/ exists line,
           textParagraph (lit "line two") = textParagraph line
           /\ existsb (N.eqb LF) line = false).
Proof.
  assert (H : In (textParagraph (lit "line two"))
                (paragraphs (processNode
                               (TextNode (lit "line one" ++ [LF] ++ lit "line two"))
                               emptyExport)))
    by (right; left; reflexivity).
  split; [exact H|].
  exact (text_node_runs_hold_no_line_feed _ emptyExport _ H).
Defined.

Lemma delete_click_removes_widget_witness :
  let w' := onclick true {| tree := tree editorDiv;
                            at_path := at_path editorDiv ++ [1] |} pastedWorld in
  editorRef w' = Some editorDiv
  /\ resolve (page w') editorDiv
     = Some (ElementNode (lit "DIV") [] noMetrics
               (removeNth 1 [TextNode (lit "a"); pastedWidget; TextNode [ZWSP];
                             TextNode [SPACE]; TextNode (lit "d")]))
  /\ resolve (page w') {| tree := List.length (trees (page pastedWorld));
                          at_path := [] |}
     = Some pastedWidget
  /\ content w' = content pastedWorld.
Proof.
  exact (delete_click_removes_widget true editorDiv editorDiv 1 pastedWorld
           (lit "DIV") [] noMetrics
           [TextNode (lit "a"); pastedWidget; TextNode [ZWSP];
            TextNode [SPACE]; TextNode (lit "d")]
           pastedWidget eq_refl eq_refl eq_refl eq_refl).
Defined.

Lemma delete_after_paste_leaves_sentinels_witness :
  exists parent i,
    3 <= i
    /\ let w1 := pastedWorld in
       let wrapper := {| tree := 0; at_path := parent ++ [i - 3] |} in
       let w2 := onclick false wrapper w1 in
       resolve (page w1) wrapper = Some pastedWidget
       /\ resolve (page w2) wrapper = Some (TextNode [ZWSP])
       /\ resolve (page w2) {| tree := 0; at_path := parent ++ [i - 2] |}
          = Some (TextNode [SPACE])
       /\ selection (page w2) = Some (caret 0 parent (i - 1)).
Proof.
  apply (delete_after_paste_leaves_sentinels false false
           (lit "data:image/png;base64,aGk=") (lit "5k3j9x0a1b")
           (lit "10:00:00") noMetrics pastingWorld editorDiv selectedRange
           (plain "BODY" [plain "H1" [TextNode (lit "t")];
                          plain "DIV" [TextNode (lit "ad")]]) [1; 0] 1);
    try reflexivity.
  unfold insertionPoint. simpl. split; [discriminate | lia].
Defined.

End MoreWitnesses.
